(** * A shallow embedding of the blog's data-access layer and request handlers

    The development follows the TypeScript sources:
    - [src/models/postModel.ts]   (post repository, [createSlug], sanitizer options)
    - [src/models/authorModel.ts] (author repository)
    - [src/config/database.ts]    (schema, [foreign_keys] pragma)
    - [src/middleware/auth.ts], [src/controllers/authController.ts] (session gate)
    - [src/controllers/adminController.ts], [src/controllers/postController.ts]
      (listing handlers, pagination, form handlers)
    - [src/controllers/authorController.ts] (author handlers)
    - [src/app.ts] (template filters)

    Part I holds the definitions, Part II the theorems. *)

From Stdlib Require Import ZArith List Bool Lia String Ascii Sorted.
From Stdlib Require Import Decimal DecimalPos DecimalZ.
From stdpp Require Import base list strings gmap.

Import ListNotations.
Local Open Scope Z_scope.

(** ** Strings *)

(** A JavaScript string is a sequence of characters, each given by its
    numeric code.  Every class used below ([\w], [\s], [-], [%], [_]) lies in
    the Basic Multilingual Plane. *)
Definition char := N.
Definition jsstring := list char.

Definition chr (a : ascii) : char := N_of_ascii a.

(** [js "abc"] is the JavaScript string literal ["abc"]. *)
Definition js (s : string) : jsstring := List.map chr (list_ascii_of_string s).

Definition in_range (lo hi c : N) : bool := ((lo <=? c) && (c <=? hi))%N.

Definition is_digit (c : char) : bool := in_range 48 57 c.
Definition is_lower (c : char) : bool := in_range 97 122 c.
Definition is_upper (c : char) : bool := in_range 65 90 c.
Definition is_letter (c : char) : bool := is_lower c || is_upper c.

Definition underscore : char := 95%N.
Definition hyphen : char := 45%N.
Definition percent : char := 37%N.

(** The regular-expression class [\w] (no [u] or [i] flag): [[A-Za-z0-9_]]. *)
Definition is_word (c : char) : bool :=
  is_lower c || is_upper c || is_digit c || (c =? underscore)%N.

(** The class [\s], which is also the set stripped by [String.prototype.trim]:
    WhiteSpace and LineTerminator of ECMAScript. *)
Definition is_whitespace (c : char) : bool :=
  (in_range 9 13 c || (c =? 32) || (c =? 160) || (c =? 5760)
   || in_range 8192 8202 c || (c =? 8232) || (c =? 8233) || (c =? 8239)
   || (c =? 8287) || (c =? 12288) || (c =? 65279))%N.

(** [String.prototype.trim]. *)
Fixpoint trimStart (s : jsstring) : jsstring :=
  match s with
  | [] => []
  | c :: s' => if is_whitespace c then trimStart s' else s
  end.

Definition trimEnd (s : jsstring) : jsstring := rev (trimStart (rev s)).

Definition trim (s : jsstring) : jsstring := trimEnd (trimStart s).

(** *** The regular expressions of [createSlug]

    Only the fragment the source uses: a character class, possibly under [+],
    always with the [g] flag. *)
Inductive cclass : Type :=
| ClsWord                       (* \w *)
| ClsSpace                      (* \s *)
| ClsChar (c : char)            (* a literal character *)
| ClsUnion (a b : cclass)       (* juxtaposition inside [...] *)
| ClsNot (a : cclass).          (* [^...] *)

Fixpoint cclass_test (k : cclass) (c : char) : bool :=
  match k with
  | ClsWord => is_word c
  | ClsSpace => is_whitespace c
  | ClsChar d => (c =? d)%N
  | ClsUnion a b => cclass_test a c || cclass_test b c
  | ClsNot a => negb (cclass_test a c)
  end.

Inductive regex : Type :=
| ReOne (k : cclass)            (* /[k]/  *)
| RePlus (k : cclass).          (* /[k]+/ *)

(** The longest prefix made of characters of the class is skipped: [+] is
    greedy. *)
Fixpoint skip_class (k : cclass) (s : jsstring) : jsstring :=
  match s with
  | [] => []
  | c :: s' => if cclass_test k c then skip_class k s' else s
  end.

(** [re_match re s]: a match of [re] anchored at the start of [s]; the result
    is what remains of [s] after the match. *)
Definition re_match (re : regex) (s : jsstring) : option jsstring :=
  match s with
  | [] => None
  | c :: s' =>
      match re with
      | ReOne k => if cclass_test k c then Some s' else None
      | RePlus k => if cclass_test k c then Some (skip_class k s') else None
      end
  end.

(** [String.prototype.replace] with a global regular expression: scan from the
    left; where the expression matches, emit the replacement and resume after
    the match, otherwise copy one character.  Each step consumes at least one
    character, so [length s] steps are enough. *)
Fixpoint replace_from (fuel : nat) (re : regex) (rep s : jsstring) : jsstring :=
  match fuel with
  | O => s
  | S fuel' =>
      match s with
      | [] => []
      | c :: s' =>
          match re_match re s with
          | Some rest => rep ++ replace_from fuel' re rep rest
          | None => c :: replace_from fuel' re rep s'
          end
      end
  end.

Definition String_replace (re : regex) (rep s : jsstring) : jsstring :=
  replace_from (length s) re rep s.

(** ASCII lower-casing: the case folding of SQLite's LIKE, and the
    restriction of [String.prototype.toLowerCase] to ASCII text. *)
Definition ascii_lower (c : char) : char := if is_upper c then (c + 32)%N else c.
Definition ascii_toLowerCase (s : jsstring) : jsstring := List.map ascii_lower s.

(** ** The platform

    [String.prototype.toLowerCase] (full Unicode case mapping) belongs to the
    JavaScript runtime, [sanitizeHtml] and its [defaults] to the npm package
    [sanitize-html]; the repository only calls them. *)
Record IOptions : Type := {
  allowedTags : list string;
  allowedAttributes : gmap string (list string)
}.

Class Platform : Type := {
  toLowerCase : jsstring -> jsstring;
  sanitizeHtml : jsstring -> IOptions -> jsstring;
  sanitizeHtml_defaults : IOptions
}.

Section Blog.
Context {platform : Platform}.

(** postModel.ts, [sanitizeOptions]: the object spread copies the default
    attribute table, the two later keys overwrite [img] and [a]. *)
Definition sanitizeOptions : IOptions := {|
  allowedTags := allowedTags sanitizeHtml_defaults ++ ["h1"; "h2"; "img"]%string;
  allowedAttributes :=
    <["a"%string := ["href"; "target"; "rel"]%string]>
      (<["img"%string := ["src"; "alt"; "title"]%string]>
         (allowedAttributes sanitizeHtml_defaults))
|}.

(** postModel.ts, [createSlug]. *)
Definition createSlug (title : jsstring) : jsstring :=
  String_replace (RePlus (ClsChar hyphen)) (js "-")
    (String_replace (RePlus ClsSpace) (js "-")
       (String_replace (ReOne (ClsNot (ClsUnion ClsWord (ClsUnion ClsSpace (ClsChar hyphen)))))
                (js "")
          (trim (toLowerCase title)))).

(** *** The slug algorithm in the words of the specification *)

(** The characters that are kept: letters, digits, underscore, hyphen, white
    space; letters and digits are those of [\w], the ASCII ones. *)
Definition slug_keeps (c : char) : bool :=
  is_letter c || is_digit c || (c =? underscore)%N || (c =? hyphen)%N || is_whitespace c.

(** Every maximal run of characters satisfying [p] becomes the single
    character [r]. *)
Fixpoint collapse_runs (p : char -> bool) (r : char) (s : jsstring) : jsstring :=
  match s with
  | [] => []
  | c :: s' =>
      if p c then
        match s' with
        | [] => [r]
        | d :: _ => if p d then collapse_runs p r s' else r :: collapse_runs p r s'
        end
      else c :: collapse_runs p r s'
  end.

(** Lower-case, trim, remove what is not kept, collapse the runs of white
    space into a hyphen, collapse the runs of hyphens into a hyphen. *)
Definition createSlug_spec (title : jsstring) : jsstring :=
  let lowered := toLowerCase title in
  let trimmed := trim lowered in
  let cleaned := List.filter slug_keeps trimmed in
  let hyphenated := collapse_runs is_whitespace hyphen cleaned in
  collapse_runs (fun c => (c =? hyphen)%N) hyphen hyphenated.

(** [x || null] on an optional string: [undefined], [null] and [""] are
    falsy. *)
Definition or_null (o : option jsstring) : option jsstring :=
  match o with
  | Some [] => None
  | _ => o
  end.

(** [x || null] on an optional number: [0] is falsy as well. *)
Definition or_null_num (o : option Z) : option Z :=
  match o with
  | Some 0 => None
  | _ => o
  end.

(** *** [parseInt]

    Leading white space, an optional sign, an optional [0x] prefix, then the
    longest run of digits of the radix; [None] stands for [NaN].  The result is
    the exact integer (JavaScript rounds beyond 2^53). *)
Definition digit_value (radix : Z) (c : char) : option Z :=
  let v := if is_digit c then Some (Z.of_N c - 48)
           else if is_lower c then Some (Z.of_N c - 97 + 10)
           else if is_upper c then Some (Z.of_N c - 65 + 10)
           else None in
  match v with
  | Some d => if d <? radix then Some d else None
  | None => None
  end.

Fixpoint parse_digits (radix : Z) (acc : option Z) (s : jsstring) : option Z :=
  match s with
  | [] => acc
  | c :: s' =>
      match digit_value radix c with
      | Some d => parse_digits radix (Some (radix * default 0 acc + d)) s'
      | None => acc
      end
  end.

Definition parseInt (s : jsstring) : option Z :=
  let s1 := trimStart s in
  let '(negative, s2) :=
    match s1 with
    | c :: r => if (c =? 45)%N then (true, r)
                else if (c =? 43)%N then (false, r) else (false, s1)
    | [] => (false, s1)
    end in
  let '(radix, s3) :=
    match s2 with
    | z :: x :: r => if ((z =? 48) && ((x =? 120) || (x =? 88)))%N then (16, r) else (10, s2)
    | _ => (10, s2)
    end in
  match parse_digits radix None s3 with
  | Some v => Some (if negative then - v else v)
  | None => None
  end.

(** *** [Number.prototype.toString]

    An integer prints in decimal, with a minus sign when negative (the
    exponent notation of magnitudes from 1e21 on is out of reach of a
    rowid). *)
Fixpoint uint_chars (d : Decimal.uint) : jsstring :=
  match d with
  | Decimal.Nil => []
  | Decimal.D0 d' => 48%N :: uint_chars d'
  | Decimal.D1 d' => 49%N :: uint_chars d'
  | Decimal.D2 d' => 50%N :: uint_chars d'
  | Decimal.D3 d' => 51%N :: uint_chars d'
  | Decimal.D4 d' => 52%N :: uint_chars d'
  | Decimal.D5 d' => 53%N :: uint_chars d'
  | Decimal.D6 d' => 54%N :: uint_chars d'
  | Decimal.D7 d' => 55%N :: uint_chars d'
  | Decimal.D8 d' => 56%N :: uint_chars d'
  | Decimal.D9 d' => 57%N :: uint_chars d'
  end.

Definition Number_toString (n : Z) : jsstring :=
  match Z.to_int n with
  | Decimal.Pos d => uint_chars d
  | Decimal.Neg d => 45%N :: uint_chars d
  end.

(** An identifier argument of type [number | string]; a number is an integer
    here, as every rowid is. *)
Inductive IdArg : Type :=
| IdNumber (n : Z)
| IdString (s : jsstring).

(** [id.toString()]. *)
Definition id_toString (id : IdArg) : jsstring :=
  match id with
  | IdNumber n => Number_toString n
  | IdString s => s
  end.

(** [parseInt(id.toString())], the normalisation every repository operation
    applies to its identifier. *)
Definition parse_id (id : IdArg) : option Z := parseInt (id_toString id).

(** ** The content store (config/database.ts)

    [datetime('now')] yields the fixed-width text [YYYY-MM-DD HH:MM:SS]; a
    timestamp is represented by the instant it denotes, on which text order
    and chronological order agree. *)
Definition timestamp := N.

(** Table [authors]; also the TypeScript interface [Author], to which
    authorModel.ts casts the rows. *)
Record Author : Type := {
  a_id : Z;
  a_name : jsstring;
  a_email : option jsstring;
  a_bio : option jsstring;
  a_created_at : timestamp;
  a_updated_at : timestamp
}.

(** Table [posts]. *)
Record PostRow : Type := {
  p_id : Z;
  p_title : jsstring;
  p_slug : jsstring;
  p_excerpt : jsstring;
  p_content : jsstring;
  p_author_id : option Z;
  p_created_at : timestamp;
  p_updated_at : timestamp
}.

Inductive sqlite_code : Type :=
| SQLITE_CONSTRAINT_UNIQUE
| SQLITE_CONSTRAINT_FOREIGNKEY
| SQLITE_BUSY
| SQLITE_IOERR
| SQLITE_ERROR.

Inductive exn : Type :=
| SqliteError (code : sqlite_code)
| Error (message : string).

(** The state behind the shared connection [db].
    - [authors], [posts]: the rows in rowid order, the order of a table scan;
    - [seq_authors], [seq_posts]: the AUTOINCREMENT counters ([sqlite_sequence]);
    - [foreign_keys]: the pragma of that name;
    - [clock]: the value [datetime('now')] currently evaluates to;
    - [io_faults]: what the environment does to the next calls into the
      driver, one entry per call: [None] lets the call through, [Some code]
      makes the driver raise (database locked, I/O error, missing table...).
      An exhausted list means no further fault. *)
Record Database : Type := {
  authors : list Author;
  posts : list PostRow;
  seq_authors : Z;
  seq_posts : Z;
  foreign_keys : bool;
  clock : timestamp;
  io_faults : list (option sqlite_code)
}.

Definition set_io_faults (f : list (option sqlite_code)) (db : Database) : Database :=
  {| authors := authors db; posts := posts db;
     seq_authors := seq_authors db; seq_posts := seq_posts db;
     foreign_keys := foreign_keys db; clock := clock db; io_faults := f |}.

Definition set_authors (l : list Author) (seq : Z) (db : Database) : Database :=
  {| authors := l; posts := posts db;
     seq_authors := seq; seq_posts := seq_posts db;
     foreign_keys := foreign_keys db; clock := clock db; io_faults := io_faults db |}.

Definition set_posts (l : list PostRow) (seq : Z) (db : Database) : Database :=
  {| authors := authors db; posts := l;
     seq_authors := seq_authors db; seq_posts := seq;
     foreign_keys := foreign_keys db; clock := clock db; io_faults := io_faults db |}.

(** database.ts: a fresh connection after [initializeDatabase], with
    [db.pragma("foreign_keys = ON")]. *)
Definition open_database (now : timestamp) : Database :=
  {| authors := []; posts := []; seq_authors := 0; seq_posts := 0;
     foreign_keys := true; clock := now; io_faults := [] |}.

(** ** Computations over the store that may raise *)
Inductive outcome (A : Type) : Type :=
| Ok (a : A)
| Throw (e : exn).
Arguments Ok {A} a.
Arguments Throw {A} e.

Definition M (A : Type) : Type := Database -> outcome A * Database.

Definition ret {A} (a : A) : M A := fun db => (Ok a, db).

Definition bind {A B} (m : M A) (k : A -> M B) : M B :=
  fun db =>
    match m db with
    | (Ok a, db') => k a db'
    | (Throw e, db') => (Throw e, db')
    end.

Definition throw {A} (e : exn) : M A := fun db => (Throw e, db).

(** [try { body } catch (error) { handler }]. *)
Definition try_catch {A} (body : M A) (handler : exn -> M A) : M A :=
  fun db =>
    match body db with
    | (Ok a, db') => (Ok a, db')
    | (Throw e, db') => handler e db'
    end.

Definition gets {A} (f : Database -> A) : M A := fun db => (Ok (f db), db).

Notation "'let*' x ':=' m 'in' k" := (bind m (fun x => k))
  (at level 10, x name, m at level 100, k at level 200).

(** One call into the driver ([db.prepare], [stmt.run], [stmt.get],
    [stmt.all]): it goes through or raises, as the environment decides. *)
Definition driver_call : M unit :=
  fun db =>
    match io_faults db with
    | [] => (Ok tt, db)
    | None :: rest => (Ok tt, set_io_faults rest db)
    | Some code :: rest => (Throw (SqliteError code), set_io_faults rest db)
    end.

(** [db.prepare(sql)]. *)
Definition prepare : M unit := driver_call.

(** [stmt.all(...)] / [stmt.get(...)] of a SELECT. *)
Definition query {A} (f : Database -> A) : M A :=
  let* _ := driver_call in gets f.

Record RunResult : Type := {
  changes : Z;
  lastInsertRowid : Z
}.

(** [stmt.run(...)] of an INSERT, UPDATE or DELETE. *)
Definition run (f : Database -> outcome RunResult * Database) : M RunResult :=
  let* _ := driver_call in f.

(** ** SQL building blocks *)

(** Text comparison under the BINARY collation. *)
Fixpoint text_leb (s t : jsstring) : bool :=
  match s, t with
  | [], _ => true
  | _ :: _, [] => false
  | c :: s', d :: t' =>
      if (c <? d)%N then true else if (c =? d)%N then text_leb s' t' else false
  end.

(** ORDER BY: the scanned rows are sorted on the key; rows with equal keys
    stay in scan order. *)
Fixpoint insert_by {A} (le : A -> A -> bool) (x : A) (l : list A) : list A :=
  match l with
  | [] => [x]
  | y :: l' => if le x y then x :: l else y :: insert_by le x l'
  end.

Definition order_by {A} (le : A -> A -> bool) (l : list A) : list A :=
  fold_right (insert_by le) [] l.

(** The LIKE operator of SQLite without an ESCAPE clause: [%] matches any
    sequence of characters, [_] any single character, every other character
    itself, ASCII letters without regard to case. *)
Fixpoint like (pat s : jsstring) {struct pat} : bool :=
  match pat with
  | [] => match s with [] => true | _ :: _ => false end
  | c :: pat' =>
      if (c =? percent)%N then
        (fix any (s : jsstring) : bool :=
           like pat' s || match s with [] => false | _ :: s' => any s' end) s
      else
        match s with
        | [] => false
        | d :: s' =>
            ((c =? underscore) || (ascii_lower c =? ascii_lower d))%N && like pat' s'
        end
  end.

(** SQL truth values: [None] is NULL. *)
Definition sql_like (v : option jsstring) (pat : jsstring) : option bool :=
  option_map (like pat) v.

Definition sql_or (a b : option bool) : option bool :=
  match a, b with
  | Some true, _ | _, Some true => Some true
  | Some false, Some false => Some false
  | _, _ => None
  end.

(** A WHERE clause keeps the rows on which the condition is true. *)
Definition where_holds (c : option bool) : bool :=
  match c with
  | Some true => true
  | _ => false
  end.

(** [`%${query}%`]. *)
Definition searchPattern (query : jsstring) : jsstring := js "%" ++ query ++ js "%".

(** The rowid given to a new row of an AUTOINCREMENT table: one more than the
    largest rowid the table has ever held. *)
Definition next_rowid (seq : Z) (ids : list Z) : Z :=
  Z.max seq (fold_right Z.max 0 ids) + 1.

(** [column = ?] with a bound number; [NaN] is bound as NULL and equals
    nothing. *)
Definition id_is (id : option Z) (k : Z) : bool :=
  match id with
  | Some n => k =? n
  | None => false
  end.

(** The foreign key [posts.author_id REFERENCES authors(id)], child side. *)
Definition fk_ok (auths : list Author) (author_id : option Z) : bool :=
  match author_id with
  | None => true
  | Some k => existsb (fun a => a_id a =? k) auths
  end.

(** ** Post repository (models/postModel.ts) *)

(** One row of
    [SELECT p.*, a.name AS author_name, ... FROM posts p LEFT JOIN authors a
     ON p.author_id = a.id]. *)
Record JoinedRow : Type := {
  r_id : Z;
  r_title : jsstring;
  r_slug : jsstring;
  r_excerpt : jsstring;
  r_content : jsstring;
  r_author_id : option Z;
  r_created_at : timestamp;
  r_updated_at : timestamp;
  r_author_name : option jsstring;
  r_author_email : option jsstring;
  r_author_bio : option jsstring;
  r_author_created_at : option timestamp;
  r_author_updated_at : option timestamp
}.

Definition joined (p : PostRow) (a : option Author) : JoinedRow := {|
  r_id := p_id p;
  r_title := p_title p;
  r_slug := p_slug p;
  r_excerpt := p_excerpt p;
  r_content := p_content p;
  r_author_id := p_author_id p;
  r_created_at := p_created_at p;
  r_updated_at := p_updated_at p;
  r_author_name := option_map a_name a;
  r_author_email := match a with Some x => a_email x | None => None end;
  r_author_bio := match a with Some x => a_bio x | None => None end;
  r_author_created_at := option_map a_created_at a;
  r_author_updated_at := option_map a_updated_at a
|}.

(** LEFT JOIN: a post without a matching author yields one row with NULL
    author columns. *)
Definition left_join (auths : list Author) (p : PostRow) : list JoinedRow :=
  match List.filter (fun a => id_is (p_author_id p) (a_id a)) auths with
  | [] => [joined p None]
  | matches => List.map (fun a => joined p (Some a)) matches
  end.

(** The author object nested in a post by [mapRowToPost]. *)
Record PostAuthor : Type := {
  pa_id : option Z;
  pa_name : jsstring;
  pa_email : option jsstring;
  pa_bio : option jsstring;
  pa_created_at : option timestamp;
  pa_updated_at : option timestamp
}.

(** The TypeScript interface [Post]. *)
Record Post : Type := {
  post_id : Z;
  post_title : jsstring;
  post_slug : jsstring;
  post_excerpt : jsstring;
  post_content : jsstring;
  post_author_id : option Z;
  post_createdAt : timestamp;
  post_updatedAt : timestamp;
  post_author : option PostAuthor
}.

(** [mapRowToPost]: the [author] key is spread in only when
    [row.author_name] is truthy. *)
Definition mapRowToPost (row : JoinedRow) : Post := {|
  post_id := r_id row;
  post_title := r_title row;
  post_slug := r_slug row;
  post_excerpt := r_excerpt row;
  post_content := r_content row;
  post_author_id := r_author_id row;
  post_createdAt := r_created_at row;
  post_updatedAt := r_updated_at row;
  post_author :=
    match or_null (r_author_name row) with
    | Some name =>
        Some {| pa_id := r_author_id row;
                pa_name := name;
                pa_email := r_author_email row;
                pa_bio := r_author_bio row;
                pa_created_at := r_author_created_at row;
                pa_updated_at := r_author_updated_at row |}
    | None => None
    end
|}.

(** [ORDER BY p.created_at DESC]. *)
Definition created_desc (x y : JoinedRow) : bool :=
  (r_created_at y <=? r_created_at x)%N.

(** [SELECT ... FROM posts p LEFT JOIN authors a ON p.author_id = a.id
     WHERE cond]. *)
Definition select_posts (cond : JoinedRow -> option bool) (db : Database) : list JoinedRow :=
  List.filter (fun r => where_holds (cond r))
              (flat_map (left_join (authors db)) (posts db)).

Definition getAllPosts : M (list Post) :=
  let* _ := prepare in
  let* rows := query (fun db => order_by created_desc (select_posts (fun _ => Some true) db)) in
  ret (List.map mapRowToPost rows).

Definition getPostById (id : IdArg) : M (option Post) :=
  let* _ := prepare in
  let* row := query (fun db =>
                head (select_posts (fun r => Some (id_is (parse_id id) (r_id r))) db)) in
  ret (option_map mapRowToPost row).

Definition getPostBySlug (slug : jsstring) : M (option Post) :=
  let* _ := prepare in
  let* row := query (fun db =>
                head (select_posts (fun r => Some (bool_decide (r_slug r = slug))) db)) in
  ret (option_map mapRowToPost row).

(** [CreatePostInput] and [UpdatePostInput] (types/Post.ts) have the same
    fields. *)
Record PostInput : Type := {
  in_title : jsstring;
  in_excerpt : jsstring;
  in_content : jsstring;
  in_author_id : option Z
}.

(** [INSERT INTO posts (title, slug, excerpt, content, author_id)
     VALUES (?, ?, ?, ?, ?)]. *)
Definition insert_post (title slug excerpt content : jsstring) (author_id : option Z)
  : M RunResult :=
  run (fun db =>
    if existsb (fun p => bool_decide (p_slug p = slug)) (posts db) then
      (Throw (SqliteError SQLITE_CONSTRAINT_UNIQUE), db)
    else if foreign_keys db && negb (fk_ok (authors db) author_id) then
      (Throw (SqliteError SQLITE_CONSTRAINT_FOREIGNKEY), db)
    else
      let rowid := next_rowid (seq_posts db) (List.map p_id (posts db)) in
      (Ok {| changes := 1; lastInsertRowid := rowid |},
       set_posts (posts db ++
                  [{| p_id := rowid; p_title := title; p_slug := slug;
                      p_excerpt := excerpt; p_content := content;
                      p_author_id := author_id;
                      p_created_at := clock db; p_updated_at := clock db |}])
                 rowid db)).

(** [UPDATE posts SET title = ?, slug = ?, excerpt = ?, content = ?,
     author_id = ?, updated_at = datetime('now') WHERE id = ?].  [id] is the
    primary key, so at most one row is hit; [lastInsertRowid] is not read by
    the caller. *)
Definition update_post (title slug excerpt content : jsstring) (author_id : option Z)
    (id : option Z) : M RunResult :=
  run (fun db =>
    let hit p := id_is id (p_id p) in
    if negb (existsb hit (posts db)) then
      (Ok {| changes := 0; lastInsertRowid := 0 |}, db)
    else if existsb (fun p => negb (hit p) && bool_decide (p_slug p = slug)) (posts db) then
      (Throw (SqliteError SQLITE_CONSTRAINT_UNIQUE), db)
    else if foreign_keys db && negb (fk_ok (authors db) author_id) then
      (Throw (SqliteError SQLITE_CONSTRAINT_FOREIGNKEY), db)
    else
      (Ok {| changes := Z.of_nat (length (List.filter hit (posts db)));
             lastInsertRowid := 0 |},
       set_posts (List.map (fun p =>
                    if hit p then
                      {| p_id := p_id p; p_title := title; p_slug := slug;
                         p_excerpt := excerpt; p_content := content;
                         p_author_id := author_id;
                         p_created_at := p_created_at p; p_updated_at := clock db |}
                    else p) (posts db))
                 (seq_posts db) db)).

(** [DELETE FROM posts WHERE id = ?]. *)
Definition delete_post (id : option Z) : M RunResult :=
  run (fun db =>
    let hit p := id_is id (p_id p) in
    (Ok {| changes := Z.of_nat (length (List.filter hit (posts db)));
           lastInsertRowid := 0 |},
     set_posts (List.filter (fun p => negb (hit p)) (posts db)) (seq_posts db) db)).

Definition createPost (postData : PostInput) : M (option Post) :=
  try_catch
    (let* _ := prepare in
     let slug := createSlug (in_title postData) in
     let sanitizedContent := sanitizeHtml (in_content postData) sanitizeOptions in
     let* info := insert_post (in_title postData) slug (in_excerpt postData)
                              sanitizedContent (or_null_num (in_author_id postData)) in
     getPostById (IdNumber (lastInsertRowid info)))
    (fun _ => ret None).

Definition updatePost (id : IdArg) (postData : PostInput) : M (option Post) :=
  try_catch
    (let* _ := prepare in
     let slug := createSlug (in_title postData) in
     let sanitizedContent := sanitizeHtml (in_content postData) sanitizeOptions in
     let* info := update_post (in_title postData) slug (in_excerpt postData)
                              sanitizedContent (or_null_num (in_author_id postData))
                              (parse_id id) in
     if changes info =? 0 then ret None
     else getPostById id)
    (fun _ => ret None).

Definition deletePost (id : IdArg) : M bool :=
  try_catch
    (let* _ := prepare in
     let* info := delete_post (parse_id id) in
     ret (0 <? changes info))
    (fun _ => ret false).

Definition searchPosts (query_text : jsstring) : M (list Post) :=
  let* _ := prepare in
  let pat := searchPattern query_text in
  let* rows := query (fun db =>
                 order_by created_desc
                   (select_posts (fun r =>
                      sql_or (sql_or (sql_like (Some (r_title r)) pat)
                                     (sql_like (Some (r_excerpt r)) pat))
                             (sql_like (Some (r_content r)) pat)) db)) in
  ret (List.map mapRowToPost rows).

(** ** Author repository (models/authorModel.ts) *)

(** [CreateAuthorInput] and [UpdateAuthorInput] (types/Author.ts) have the
    same fields. *)
Record AuthorInput : Type := {
  in_name : jsstring;
  in_email : option jsstring;
  in_bio : option jsstring
}.

(** [ORDER BY name ASC]. *)
Definition name_asc (x y : Author) : bool := text_leb (a_name x) (a_name y).

Definition getAllAuthors : M (list Author) :=
  let* _ := prepare in
  query (fun db => order_by name_asc (authors db)).

Definition getAuthorById (id : IdArg) : M (option Author) :=
  let* _ := prepare in
  query (fun db => head (List.filter (fun a => id_is (parse_id id) (a_id a)) (authors db))).

(** The UNIQUE constraint on [authors.email]: NULL never collides. *)
Definition email_taken (email : option jsstring) (others : list Author) : bool :=
  match email with
  | None => false
  | Some e => existsb (fun a => bool_decide (a_email a = Some e)) others
  end.

(** [INSERT INTO authors (name, email, bio) VALUES (?, ?, ?)]. *)
Definition insert_author (name : jsstring) (email bio : option jsstring) : M RunResult :=
  run (fun db =>
    if email_taken email (authors db) then
      (Throw (SqliteError SQLITE_CONSTRAINT_UNIQUE), db)
    else
      let rowid := next_rowid (seq_authors db) (List.map a_id (authors db)) in
      (Ok {| changes := 1; lastInsertRowid := rowid |},
       set_authors (authors db ++
                    [{| a_id := rowid; a_name := name; a_email := email; a_bio := bio;
                        a_created_at := clock db; a_updated_at := clock db |}])
                   rowid db)).

(** [UPDATE authors SET name = ?, email = ?, bio = ?,
     updated_at = datetime('now') WHERE id = ?]. *)
Definition update_author (name : jsstring) (email bio : option jsstring) (id : option Z)
  : M RunResult :=
  run (fun db =>
    let hit a := id_is id (a_id a) in
    if negb (existsb hit (authors db)) then
      (Ok {| changes := 0; lastInsertRowid := 0 |}, db)
    else if email_taken email (List.filter (fun a => negb (hit a)) (authors db)) then
      (Throw (SqliteError SQLITE_CONSTRAINT_UNIQUE), db)
    else
      (Ok {| changes := Z.of_nat (length (List.filter hit (authors db)));
             lastInsertRowid := 0 |},
       set_authors (List.map (fun a =>
                      if hit a then
                        {| a_id := a_id a; a_name := name; a_email := email; a_bio := bio;
                           a_created_at := a_created_at a; a_updated_at := clock db |}
                      else a) (authors db))
                   (seq_authors db) db)).

(** The referential action [ON DELETE SET NULL] on a post, for the deleted
    authors [removed]. *)
Definition set_null_on_delete (removed : list Author) (p : PostRow) : PostRow :=
  if existsb (fun a => id_is (p_author_id p) (a_id a)) removed then
    {| p_id := p_id p; p_title := p_title p; p_slug := p_slug p;
       p_excerpt := p_excerpt p; p_content := p_content p;
       p_author_id := None;
       p_created_at := p_created_at p; p_updated_at := p_updated_at p |}
  else p.

(** [DELETE FROM authors WHERE id = ?].  With [foreign_keys = ON] the posts of
    a deleted author get a NULL [author_id]; these rows do not count in
    [changes]. *)
Definition delete_author (id : option Z) : M RunResult :=
  run (fun db =>
    let hit a := id_is id (a_id a) in
    let removed := List.filter hit (authors db) in
    let posts' := if foreign_keys db
                  then List.map (set_null_on_delete removed) (posts db)
                  else posts db in
    (Ok {| changes := Z.of_nat (length removed); lastInsertRowid := 0 |},
     set_posts posts' (seq_posts db)
       (set_authors (List.filter (fun a => negb (hit a)) (authors db)) (seq_authors db) db))).

Definition createAuthor (authorData : AuthorInput) : M (option Author) :=
  try_catch
    (let* _ := prepare in
     let* info := insert_author (in_name authorData) (or_null (in_email authorData))
                                (or_null (in_bio authorData)) in
     getAuthorById (IdNumber (lastInsertRowid info)))
    (fun _ => ret None).

Definition updateAuthor (id : IdArg) (authorData : AuthorInput) : M (option Author) :=
  try_catch
    (let* _ := prepare in
     let* info := update_author (in_name authorData) (or_null (in_email authorData))
                                (or_null (in_bio authorData)) (parse_id id) in
     if changes info =? 0 then ret None
     else getAuthorById id)
    (fun _ => ret None).

Definition deleteAuthor (id : IdArg) : M bool :=
  try_catch
    (let* _ := prepare in
     let* info := delete_author (parse_id id) in
     ret (0 <? changes info))
    (fun _ => ret false).

Definition searchAuthors (query_text : jsstring) : M (list Author) :=
  let* _ := prepare in
  let pat := searchPattern query_text in
  query (fun db =>
    order_by name_asc
      (List.filter (fun a =>
         where_holds (sql_or (sql_like (Some (a_name a)) pat) (sql_like (a_email a) pat)))
         (authors db))).

(** [SELECT a.*, COUNT(p.id) AS post_count FROM authors a
     LEFT JOIN posts p ON a.id = p.author_id GROUP BY a.id ORDER BY a.name];
    [a.id] is the primary key, so every author is a group of its own. *)
Definition getAuthorsWithPostCount : M (list (Author * Z)) :=
  let* _ := prepare in
  query (fun db =>
    order_by (fun x y => name_asc (fst x) (fst y))
      (List.map (fun a =>
         (a, Z.of_nat (length (List.filter (fun p => id_is (p_author_id p) (a_id a))
                                           (posts db)))))
         (authors db))).

(** ** Session gate (middleware/auth.ts, controllers/authController.ts) *)

(** [SessionData] as extended in types/Session.ts.  app.ts installs the
    session middleware before every route, so [req.session] is always there. *)
Record SessionData : Type := {
  isAuthenticated : option bool;
  returnTo : option jsstring;
  username : option jsstring
}.

Record PostListLocals : Type := {
  l_posts : list Post;
  l_searchQuery : option jsstring;
  l_currentPage : Z;
  l_totalPages : Z;
  l_hasPrevious : bool;
  l_hasNext : bool;
  l_title : string
}.

Inductive Locals : Type :=
| LPostList (l : PostListLocals)
| LError (message : string)
| LLogin (error : option string).

Inductive Response : Type :=
| Redirect (location : jsstring)
| Render (status : Z) (view : string) (locals : Locals).

(** What a middleware does: hand over to the next handler, or answer. *)
Inductive GateResult : Type :=
| Next
| Respond (r : Response).

Definition truthy (b : option bool) : bool :=
  match b with
  | Some true => true
  | _ => false
  end.

Definition requireAuth (session : SessionData) (originalUrl : jsstring)
  : SessionData * GateResult :=
  if truthy (isAuthenticated session) then (session, Next)
  else ({| isAuthenticated := isAuthenticated session;
           returnTo := Some originalUrl;
           username := username session |},
        Respond (Redirect (js "/login"))).

(** [router.use(requireAuth)] in front of the handlers of a router. *)
Definition router_use_requireAuth (handler : M Response)
    (session : SessionData) (originalUrl : jsstring) : M (SessionData * Response) :=
  match requireAuth session originalUrl with
  | (session', Next) => let* r := handler in ret (session', r)
  | (session', Respond r) => ret (session', r)
  end.

Definition showLogin (session : SessionData) : Response :=
  if truthy (isAuthenticated session) then Redirect (js "/admin/posts")
  else Render 200 "login.njk" (LLogin None).

(** [handleLogin]; [ADMIN_PASSWORD] is [process.env.ADMIN_PASSWORD], [password]
    the form field, both possibly [undefined]; [===] compares them. *)
Definition handleLogin (ADMIN_PASSWORD : option jsstring) (session : SessionData)
    (password : option jsstring) : SessionData * Response :=
  if bool_decide (password = ADMIN_PASSWORD) then
    let target := default (js "/admin/posts") (or_null (returnTo session)) in
    ({| isAuthenticated := Some true; returnTo := None; username := username session |},
     Redirect target)
  else
    (session, Render 200 "login.njk" (LLogin (Some "Invalid password. Please try again."%string))).

(** ** Listing handlers (controllers/adminController.ts, postController.ts) *)

(** [Array.prototype.slice(start, end)]: a negative index counts from the
    end, every index is clamped to the array. *)
Definition slice_index (len i : Z) : Z :=
  if i <? 0 then Z.max (len + i) 0 else Z.min i len.

Definition Array_slice {A} (start stop : Z) (l : list A) : list A :=
  let len := Z.of_nat (length l) in
  let k := slice_index len start in
  let final := slice_index len stop in
  firstn (Z.to_nat (final - k)) (skipn (Z.to_nat k) l).

(** [Math.ceil(a / b)] on integers, [b] positive. *)
Definition Math_ceil_div (a b : Z) : Z := - ((- a) / b).

(** [parseInt(req.query.page as string) || 1]: [NaN] and [0] are falsy. *)
Definition page_or_1 (page : option jsstring) : Z :=
  match page with
  | None => 1
  | Some s => match parseInt s with
              | None | Some 0 => 1
              | Some n => n
              end
  end.

Record ListQuery : Type := {
  q_search : option jsstring;
  q_page : option jsstring
}.

(** adminController.ts, [index]. *)
Definition adminController_index (req : ListQuery) : M Response :=
  try_catch
    (let searchQuery := default [] (q_search req) in
     let page := page_or_1 (q_page req) in
     let limit := 10 in
     let* allPosts := match searchQuery with
                      | _ :: _ => searchPosts searchQuery
                      | [] => getAllPosts
                      end in
     let totalPosts := Z.of_nat (length allPosts) in
     let totalPages := Math_ceil_div totalPosts limit in
     let offset := (page - 1) * limit in
     let posts := Array_slice offset (offset + limit) allPosts in
     ret (Render 200 "admin/posts/index.njk"
            (LPostList {| l_posts := posts;
                          l_searchQuery := Some searchQuery;
                          l_currentPage := page;
                          l_totalPages := totalPages;
                          l_hasPrevious := 1 <? page;
                          l_hasNext := page <? totalPages;
                          l_title := "Admin - Manage Posts" |})))
    (fun _ => ret (Render 500 "error.njk" (LError "Error loading posts"))).

(** postController.ts, [index]. *)
Definition postController_index (req : ListQuery) : M Response :=
  try_catch
    (let page := page_or_1 (q_page req) in
     let limit := 6 in
     let* allPosts := getAllPosts in
     let totalPosts := Z.of_nat (length allPosts) in
     let totalPages := Math_ceil_div totalPosts limit in
     let offset := (page - 1) * limit in
     let posts := Array_slice offset (offset + limit) allPosts in
     ret (Render 200 "posts/index.njk"
            (LPostList {| l_posts := posts;
                          l_searchQuery := None;
                          l_currentPage := page;
                          l_totalPages := totalPages;
                          l_hasPrevious := 1 <? page;
                          l_hasNext := page <? totalPages;
                          l_title := "Blog Posts" |})))
    (fun _ => ret (Render 500 "error.njk" (LError "Error loading blog posts"))).

(** ** Vocabulary of the specification *)

(** [String.prototype.startsWith] and [String.prototype.includes]: literal
    prefix and substring. *)
Fixpoint startsWith (prefix s : jsstring) : bool :=
  match prefix, s with
  | [], _ => true
  | _ :: _, [] => false
  | c :: prefix', d :: s' => (c =? d)%N && startsWith prefix' s'
  end.

Fixpoint includes (needle s : jsstring) : bool :=
  startsWith needle s ||
  match s with
  | [] => false
  | _ :: s' => includes needle s'
  end.

(** The paths mounted under [/admin] in app.ts. *)
Definition is_admin_path (url : jsstring) : bool := startsWith (js "/admin") url.

(** The records at the positions [lo <= i < hi] of a sequence, positions
    counted from 0. *)
Definition records_between {A} (lo hi : Z) (l : list A) : list A :=
  List.map snd
    (List.filter (fun ix => (lo <=? fst ix) && (fst ix <? hi))
       (combine (List.map Z.of_nat (seq 0 (length l))) l)).

(** [n] is the quotient [a / b] rounded up. *)
Definition is_ceiling (a b n : Z) : Prop := (n - 1) * b < a <= n * b.

(** A write to the post repository. *)
Inductive PostWrite : Type :=
| WCreate (postData : PostInput)
| WUpdate (id : IdArg) (postData : PostInput).

Definition written (w : PostWrite) : PostInput :=
  match w with
  | WCreate postData => postData
  | WUpdate _ postData => postData
  end.

Definition run_post_write (w : PostWrite) : M (option Post) :=
  match w with
  | WCreate postData => createPost postData
  | WUpdate id postData => updatePost id postData
  end.

(** A write to the author repository. *)
Inductive AuthorWrite : Type :=
| ACreate (authorData : AuthorInput)
| AUpdate (id : IdArg) (authorData : AuthorInput).

Definition author_written (w : AuthorWrite) : AuthorInput :=
  match w with
  | ACreate authorData => authorData
  | AUpdate _ authorData => authorData
  end.

Definition run_author_write (w : AuthorWrite) : M (option Author) :=
  match w with
  | ACreate authorData => createAuthor authorData
  | AUpdate id authorData => updateAuthor id authorData
  end.

(** A computation that returns a value to its caller in every state of the
    store, whatever the environment does. *)
Definition never_raises {A} (m : M A) : Prop :=
  forall db, exists a db', m db = (Ok a, db').

(** The two properties the post repository maintains on its rows. *)
Definition slug_derived (row : PostRow) : Prop :=
  p_slug row = createSlug (p_title row).

Definition content_sanitized (row : PostRow) : Prop :=
  exists raw, p_content row = sanitizeHtml raw sanitizeOptions.

Definition good_post (row : PostRow) : Prop := slug_derived row /\ content_sanitized row.

Definition every_post (P : PostRow -> Prop) (db : Database) : Prop :=
  forall row, In row (posts db) -> P row.

(** The computation leaves the store in a state satisfying [I] whenever it
    starts in one, whether it returns or raises. *)
Definition preserves (I : Database -> Prop) {A} (m : M A) : Prop :=
  forall db, I db -> I (snd (m db)).

(** The operations the two repositories export. *)
Inductive RepositoryCall : Type :=
| CallGetAllPosts
| CallGetPostById (id : IdArg)
| CallGetPostBySlug (slug : jsstring)
| CallCreatePost (postData : PostInput)
| CallUpdatePost (id : IdArg) (postData : PostInput)
| CallDeletePost (id : IdArg)
| CallSearchPosts (query_text : jsstring)
| CallGetAllAuthors
| CallGetAuthorById (id : IdArg)
| CallCreateAuthor (authorData : AuthorInput)
| CallUpdateAuthor (id : IdArg) (authorData : AuthorInput)
| CallDeleteAuthor (id : IdArg)
| CallSearchAuthors (query_text : jsstring)
| CallGetAuthorsWithPostCount.

Definition state_after (c : RepositoryCall) (db : Database) : Database :=
  match c with
  | CallGetAllPosts => snd (getAllPosts db)
  | CallGetPostById id => snd (getPostById id db)
  | CallGetPostBySlug slug => snd (getPostBySlug slug db)
  | CallCreatePost postData => snd (createPost postData db)
  | CallUpdatePost id postData => snd (updatePost id postData db)
  | CallDeletePost id => snd (deletePost id db)
  | CallSearchPosts q => snd (searchPosts q db)
  | CallGetAllAuthors => snd (getAllAuthors db)
  | CallGetAuthorById id => snd (getAuthorById id db)
  | CallCreateAuthor authorData => snd (createAuthor authorData db)
  | CallUpdateAuthor id authorData => snd (updateAuthor id authorData db)
  | CallDeleteAuthor id => snd (deleteAuthor id db)
  | CallSearchAuthors q => snd (searchAuthors q db)
  | CallGetAuthorsWithPostCount => snd (getAuthorsWithPostCount db)
  end.

(** Time passes and the environment schedules faults. *)
Definition set_environment (now : timestamp) (faults : list (option sqlite_code))
    (db : Database) : Database :=
  {| authors := authors db; posts := posts db;
     seq_authors := seq_authors db; seq_posts := seq_posts db;
     foreign_keys := foreign_keys db; clock := now; io_faults := faults |}.

(** The states of the store the application can be in: a freshly initialised
    database, changed only through the repositories. *)
Inductive reachable : Database -> Prop :=
| reachable_open now : reachable (open_database now)
| reachable_call c db : reachable db -> reachable (state_after c db)
| reachable_environment now faults db :
    reachable db -> reachable (set_environment now faults db).

(** The constraints of the schema that the claims on deletion rely on: the
    [foreign_keys] pragma is on, and [id] is a key of both tables. *)
Definition store_ok (db : Database) : Prop :=
  foreign_keys db = true /\
  List.NoDup (List.map a_id (authors db)) /\
  List.NoDup (List.map p_id (posts db)).

(** A form field left empty, or absent. *)
Definition blank (o : option jsstring) : Prop := o = None \/ o = Some [].

(** A post whose reference to author [k], if it has one, is cleared. *)
Definition clear_author_reference (k : Z) (row : PostRow) : PostRow :=
  if id_is (p_author_id row) k then
    {| p_id := p_id row; p_title := p_title row; p_slug := p_slug row;
       p_excerpt := p_excerpt row; p_content := p_content row;
       p_author_id := None;
       p_created_at := p_created_at row; p_updated_at := p_updated_at row |}
  else row.



(** The page parameter of a listing request asks for page [k]: a positive
    number asks for that page; an absent, non-numeric or zero parameter is
    read as page 1. *)
Definition requests_page (page : option jsstring) (k : Z) : Prop :=
  match page with
  | None => k = 1
  | Some s =>
      match parseInt s with
      | None => k = 1
      | Some n => (1 <= n /\ k = n) \/ (n = 0 /\ k = 1)
      end
  end.

(** The result set a listing handler pages over: the repository's search
    when a search text is present, its list-all otherwise. *)
Definition listing_source (search : option jsstring) : M (list Post) :=
  match search with
  | Some (c :: q) => searchPosts (c :: q)
  | _ => getAllPosts
  end.

(** The locals of a rendered list show page [k] of [all], [L] records a
    page. *)
Definition shows_page (L k : Z) (all : list Post) (locals : PostListLocals) : Prop :=
  l_posts locals = records_between ((k - 1) * L) (k * L) all /\
  l_currentPage locals = k /\
  is_ceiling (Z.of_nat (length all)) L (l_totalPages locals) /\
  (l_hasPrevious locals = true <-> 1 < k) /\
  (l_hasNext locals = true <-> k < l_totalPages locals).

(** Two states of the store that hold the same data (the pending faults may
    differ). *)
Definition same_data (db db' : Database) : Prop :=
  authors db' = authors db /\ posts db' = posts db /\
  seq_authors db' = seq_authors db /\ seq_posts db' = seq_posts db /\
  foreign_keys db' = foreign_keys db /\ clock db' = clock db.

(** What a store fault does to a computation when it strikes the first or
    the second call into the driver: the preparation of the statement, or its
    execution. *)
Definition strikes (db : Database) (code : sqlite_code) (rest : list (option sqlite_code))
  : Prop :=
  io_faults db = Some code :: rest \/ io_faults db = None :: Some code :: rest.

Definition returns_on_fault {A} (m : M A) (v : A) : Prop :=
  forall db code rest,
    strikes db code rest -> m db = (Ok v, set_io_faults rest db).

Definition raises_on_fault {A} (m : M A) : Prop :=
  forall db code rest,
    strikes db code rest -> m db = (Throw (SqliteError code), set_io_faults rest db).

(** ** Form handlers (controllers/adminController.ts, postController.ts,
    controllers/authorController.ts)

    [req.body] after [express.urlencoded]: every field of a form is a string,
    or absent. *)
Record PostBody : Type := {
  b_title : option jsstring;
  b_excerpt : option jsstring;
  b_content : option jsstring;
  b_author : option jsstring
}.

Record AuthorBody : Type := {
  b_name : option jsstring;
  b_email : option jsstring;
  b_bio : option jsstring
}.

(** The [post] local of admin/posts/edit.njk: [null], the submitted body
    ([req.body], or [{...req.body, id: req.params.id}]), or a stored post. *)
Inductive PostFormValue : Type :=
| FormNewPost
| FormPostBody (body : PostBody) (id : option jsstring)
| FormPost (post : Post).

(** The [author] local of admin/authors/edit.njk. *)
Inductive AuthorFormValue : Type :=
| FormNewAuthor
| FormAuthorBody (body : AuthorBody) (id : option jsstring)
| FormAuthor (author : Author).

(** The [authors] local of admin/authors/index.njk: the rows of
    [searchAuthors], or those of [getAuthorsWithPostCount] with their
    [post_count]. *)
Inductive AuthorRows : Type :=
| AuthorsFound (l : list Author)
| AuthorsCounted (l : list (Author * Z)).

(** The [error] local of error.njk: [{ status: 404 }], or the caught value. *)
Inductive ErrorLocal : Type :=
| ErrStatus (status : Z)
| ErrCaught (e : exn).

Inductive PageLocals : Type :=
| LPostForm (post : PostFormValue) (error : option string) (title : jsstring)
| LPostShow (post : Post) (title : jsstring)
| LAuthorIndex (rows : AuthorRows) (searchQuery : jsstring) (title : string)
| LAuthorForm (author : AuthorFormValue) (error : option string) (title : jsstring)
| LErrorPage (message : string) (error : ErrorLocal).

(** What a form handler answers: [res.redirect(location)], or
    [res.status(status).render(view, locals)] (status 200 when not set). *)
Inductive Reply : Type :=
| RedirectTo (location : jsstring)
| RenderPage (status : Z) (view : string) (locals : PageLocals).

(** adminController.ts, [create]. *)
Definition adminController_create : Reply :=
  RenderPage 200 "admin/posts/edit.njk"
    (LPostForm FormNewPost None (js "Admin - Create Post")).

(** adminController.ts, [store].  The object handed to [createPost] has the
    keys [title], [excerpt], [content] and [author]; [createPost] reads
    [author_id], which this object does not have. *)
Definition adminController_store (body : PostBody) : M Reply :=
  let form status error :=
    RenderPage status "admin/posts/edit.njk"
      (LPostForm (FormPostBody body None) (Some error) (js "Admin - Create Post")) in
  try_catch
    (match or_null (b_title body), or_null (b_excerpt body), or_null (b_content body) with
     | Some title, Some excerpt, Some content =>
         let* newPost := createPost {| in_title := title; in_excerpt := excerpt;
                                       in_content := content; in_author_id := None |} in
         match newPost with
         | Some _ => ret (RedirectTo (js "/admin/posts"))
         | None => throw (Error "Failed to create post")
         end
     | _, _, _ => ret (form 400 "Title, excerpt, and content are required"%string)
     end)
    (fun _ => ret (form 500 "Error creating post"%string)).

(** adminController.ts, [edit]. *)
Definition adminController_edit (id : jsstring) : M Reply :=
  try_catch
    (let* post := getPostById (IdString id) in
     match post with
     | None => ret (RenderPage 404 "error.njk" (LErrorPage "Post not found" (ErrStatus 404)))
     | Some post =>
         ret (RenderPage 200 "admin/posts/edit.njk"
                (LPostForm (FormPost post) None (js "Admin - Edit Post: " ++ post_title post)))
     end)
    (fun error => ret (RenderPage 500 "error.njk"
                         (LErrorPage "Error loading post" (ErrCaught error)))).

(** adminController.ts, [update]. *)
Definition adminController_update (id : jsstring) (body : PostBody) : M Reply :=
  let form status error :=
    RenderPage status "admin/posts/edit.njk"
      (LPostForm (FormPostBody body (Some id)) (Some error) (js "Admin - Edit Post")) in
  try_catch
    (match or_null (b_title body), or_null (b_excerpt body), or_null (b_content body) with
     | Some title, Some excerpt, Some content =>
         let* updatedPost := updatePost (IdString id)
                               {| in_title := title; in_excerpt := excerpt;
                                  in_content := content; in_author_id := None |} in
         match updatedPost with
         | Some _ => ret (RedirectTo (js "/admin/posts"))
         | None => throw (Error "Post not found or failed to update")
         end
     | _, _, _ => ret (form 400 "Title, excerpt, and content are required"%string)
     end)
    (fun _ => ret (form 500 "Error updating post"%string)).

(** adminController.ts, [destroy]. *)
Definition adminController_destroy (id : jsstring) : M Reply :=
  try_catch
    (let* success := deletePost (IdString id) in
     if success then ret (RedirectTo (js "/admin/posts"))
     else throw (Error "Post not found or failed to delete"))
    (fun error => ret (RenderPage 500 "error.njk"
                         (LErrorPage "Error deleting post" (ErrCaught error)))).

(** postController.ts, [show]. *)
Definition postController_show (slug : jsstring) : M Reply :=
  try_catch
    (let* post := getPostBySlug slug in
     match post with
     | None => ret (RenderPage 404 "error.njk" (LErrorPage "Post not found" (ErrStatus 404)))
     | Some post => ret (RenderPage 200 "posts/show.njk" (LPostShow post (post_title post)))
     end)
    (fun error => ret (RenderPage 500 "error.njk"
                         (LErrorPage "Error loading post" (ErrCaught error)))).

(** authorController.ts, [index]: [(req.query.search as string) || ""]. *)
Definition authorController_index (search : option jsstring) : M Reply :=
  try_catch
    (let searchQuery := default [] search in
     let* rows := match searchQuery with
                  | _ :: _ => let* l := searchAuthors searchQuery in ret (AuthorsFound l)
                  | [] => let* l := getAuthorsWithPostCount in ret (AuthorsCounted l)
                  end in
     ret (RenderPage 200 "admin/authors/index.njk"
            (LAuthorIndex rows searchQuery "Admin - Manage Authors")))
    (fun error => ret (RenderPage 500 "error.njk"
                         (LErrorPage "Error loading authors" (ErrCaught error)))).

(** authorController.ts, [create]. *)
Definition authorController_create : Reply :=
  RenderPage 200 "admin/authors/edit.njk"
    (LAuthorForm FormNewAuthor None (js "Admin - Create Author")).

(** authorController.ts, [store]. *)
Definition authorController_store (body : AuthorBody) : M Reply :=
  let form status error :=
    RenderPage status "admin/authors/edit.njk"
      (LAuthorForm (FormAuthorBody body None) (Some error) (js "Admin - Create Author")) in
  try_catch
    (match or_null (b_name body) with
     | Some name =>
         let* newAuthor := createAuthor {| in_name := name; in_email := b_email body;
                                           in_bio := b_bio body |} in
         match newAuthor with
         | Some _ => ret (RedirectTo (js "/admin/authors"))
         | None => throw (Error "Failed to create author")
         end
     | None => ret (form 400 "Name is required"%string)
     end)
    (fun _ => ret (form 500 "Error creating author (email might already exist)"%string)).

(** authorController.ts, [edit]. *)
Definition authorController_edit (id : jsstring) : M Reply :=
  try_catch
    (let* author := getAuthorById (IdString id) in
     match author with
     | None => ret (RenderPage 404 "error.njk" (LErrorPage "Author not found" (ErrStatus 404)))
     | Some author =>
         ret (RenderPage 200 "admin/authors/edit.njk"
                (LAuthorForm (FormAuthor author) None
                   (js "Admin - Edit Author: " ++ a_name author)))
     end)
    (fun error => ret (RenderPage 500 "error.njk"
                         (LErrorPage "Error loading author" (ErrCaught error)))).

(** authorController.ts, [update]. *)
Definition authorController_update (id : jsstring) (body : AuthorBody) : M Reply :=
  let form status error :=
    RenderPage status "admin/authors/edit.njk"
      (LAuthorForm (FormAuthorBody body (Some id)) (Some error) (js "Admin - Edit Author")) in
  try_catch
    (match or_null (b_name body) with
     | Some name =>
         let* updatedAuthor := updateAuthor (IdString id)
                                 {| in_name := name; in_email := b_email body;
                                    in_bio := b_bio body |} in
         match updatedAuthor with
         | Some _ => ret (RedirectTo (js "/admin/authors"))
         | None => throw (Error "Author not found or failed to update")
         end
     | None => ret (form 400 "Name is required"%string)
     end)
    (fun _ => ret (form 500 "Error updating author (email might already be used)"%string)).

(** authorController.ts, [destroy]. *)
Definition authorController_destroy (id : jsstring) : M Reply :=
  try_catch
    (let* success := deleteAuthor (IdString id) in
     if success then ret (RedirectTo (js "/admin/authors"))
     else throw (Error "Author not found or failed to delete"))
    (fun error => ret (RenderPage 500 "error.njk"
                         (LErrorPage "Error deleting author" (ErrCaught error)))).

(** ** Template filters (app.ts) *)

(** [String.prototype.substring(start, end)]: both indices are clamped to the
    string, and swapped when [start] is the larger. *)
Definition String_substring (start stop : Z) (s : jsstring) : jsstring :=
  let len := Z.of_nat (length s) in
  let a := Z.min (Z.max start 0) len in
  let b := Z.min (Z.max stop 0) len in
  firstn (Z.to_nat (Z.max a b - Z.min a b)) (skipn (Z.to_nat (Z.min a b)) s).

(** The [truncate] filter, for an integer [length]. *)
Definition truncate (str : jsstring) (length : Z) : jsstring :=
  if length <? Z.of_nat (List.length str) then String_substring 0 length str ++ js "..."
  else str.

(** ** Further vocabulary *)

(** The values of an optional column that are not NULL. *)
Definition present {A V} (val : A -> option V) (l : list A) : list V :=
  flat_map (fun a => match val a with Some v => [v] | None => [] end) l.

(** The constraints of the schema on the data: every [author_id] is NULL or
    the [id] of an author, no two posts share a [slug], no two authors a
    non-NULL [email]. *)
Definition references_ok (db : Database) : Prop :=
  forall row, In row (posts db) -> fk_ok (authors db) (p_author_id row) = true.

Definition slugs_unique (db : Database) : Prop :=
  List.NoDup (List.map p_slug (posts db)).

Definition emails_unique (db : Database) : Prop :=
  List.NoDup (present a_email (authors db)).

Definition constraints_ok (db : Database) : Prop :=
  store_ok db /\ references_ok db /\ slugs_unique db /\ emails_unique db.

(** [q] occurs in [s] when ASCII letters are compared without regard to
    case. *)
Definition occurs_in (q s : jsstring) : bool :=
  includes (ascii_toLowerCase q) (ascii_toLowerCase s).

(** The row an UPDATE of [posts] writes over [old]. *)
Definition rewritten (postData : PostInput) (now : timestamp) (old : PostRow) : PostRow :=
  {| p_id := p_id old;
     p_title := in_title postData;
     p_slug := createSlug (in_title postData);
     p_excerpt := in_excerpt postData;
     p_content := sanitizeHtml (in_content postData) sanitizeOptions;
     p_author_id := or_null_num (in_author_id postData);
     p_created_at := p_created_at old;
     p_updated_at := now |}.

(** The number of posts that refer to author [k]. *)
Definition posts_of (k : Z) (l : list PostRow) : Z :=
  Z.of_nat (length (List.filter (fun p => id_is (p_author_id p) k) l)).

Definition sum (l : list Z) : Z := fold_right Z.add 0 l.

(** The post has an [author_id]. *)
Definition has_author (p : PostRow) : bool :=
  match p_author_id p with
  | Some _ => true
  | None => false
  end.

End Blog.

Arguments Ok {A} a.
Arguments Throw {A} e.

(** ** A concrete platform and sample data

    To run the definitions: ASCII lower-casing for [toLowerCase], and for
    [sanitizeHtml] a stand-in that removes every tag, whatever the options. *)
Fixpoint strip_markup (inside : bool) (s : jsstring) : jsstring :=
  match s with
  | [] => []
  | c :: s' =>
      if (c =? 60)%N then strip_markup true s'
      else if (c =? 62)%N then strip_markup false s'
      else if inside then strip_markup inside s'
      else c :: strip_markup inside s'
  end.

Definition demo_platform : Platform := {|
  toLowerCase := ascii_toLowerCase;
  sanitizeHtml := fun dirty _ => strip_markup false dirty;
  sanitizeHtml_defaults :=
    {| allowedTags := ["p"; "a"; "b"; "i"; "em"; "strong"]%string;
       allowedAttributes := {[ "a"%string := ["href"; "name"; "target"]%string ]} |}
|}.

Definition jacob : AuthorInput :=
  {| in_name := js "Jacob"; in_email := Some (js "jacob@example.org"); in_bio := None |}.

Definition alphabet_soup : PostInput :=
  {| in_title := js "Alphabet Soup!"; in_excerpt := js "A recipe";
     in_content := js "<p>Boil water</p>"; in_author_id := Some 1 |}.

(** The store after [createAuthor(jacob)]. *)
Definition blog_with_author : Database :=
  Eval vm_compute in snd (createAuthor jacob (open_database 100%N)).

(** The store after [createPost(alphabet_soup)] on top of it. *)
Definition sample_blog : Database :=
  Eval vm_compute in snd (createPost (platform := demo_platform) alphabet_soup blog_with_author).

Definition soup_again : PostInput :=
  {| in_title := js "Soup,  again"; in_excerpt := js "Another recipe";
     in_content := js "<blink>Stir</blink>"; in_author_id := None |}.

Definition anonymous_session : SessionData :=
  {| isAuthenticated := None; returnTo := None; username := None |}.

Definition ann : AuthorInput :=
  {| in_name := js "Ann"; in_email := Some []; in_bio := None |}.

Definition bob : AuthorInput :=
  {| in_name := js "Bob"; in_email := None; in_bio := Some (js "Writes") |}.

(** The sample blog after [deleteAuthor("1")]. *)
Definition blog_without_author : Database :=
  Eval vm_compute in snd (deleteAuthor (IdString (js "1")) sample_blog).

(** Seven posts, one more than a page of the public list. *)
Definition seven_posts : Database :=
  Eval vm_compute in
    fold_left
      (fun db title =>
         snd (createPost (platform := demo_platform)
                {| in_title := title; in_excerpt := js "excerpt";
                   in_content := js "content"; in_author_id := None |} db))
      [js "one"; js "two"; js "three"; js "four"; js "five"; js "six"; js "seven"]
      (open_database 100%N).

(** A second post whose title gives the slug of [alphabet_soup]. *)
Definition soup_twin : PostInput :=
  {| in_title := js "  alphabet   SOUP?"; in_excerpt := js "Not a recipe";
     in_content := js "<p>Letters</p>"; in_author_id := None |}.

(** A post for an author that does not exist. *)
Definition ghost_post : PostInput :=
  {| in_title := js "Ghost"; in_excerpt := js "By nobody";
     in_content := js "<p>Boo</p>"; in_author_id := Some 7 |}.

(** The sample blog with a second post, [soup_again]. *)
Definition two_posts : Database :=
  Eval vm_compute in snd (createPost (platform := demo_platform) soup_again sample_blog).

(** The author store after the read-back of an insertion has failed. *)
Definition failing_read_back : Database :=
  set_io_faults [None; None; Some SQLITE_BUSY] blog_with_author.

(** An author with the email of [jacob]. *)
Definition jacob_again : AuthorInput :=
  {| in_name := js "J. Doe"; in_email := Some (js "jacob@example.org");
     in_bio := Some (js "Another one") |}.

(** The sample blog with a second author, [bob]. *)
Definition two_authors : Database :=
  Eval vm_compute in snd (createAuthor bob sample_blog).

Definition soup_form : PostBody :=
  {| b_title := Some (js "Alphabet Soup!"); b_excerpt := Some (js "A recipe");
     b_content := Some (js "<p>Boil water</p>"); b_author := Some (js "Jacob") |}.

Definition twin_form : PostBody :=
  {| b_title := Some (js "alphabet soup"); b_excerpt := Some (js "Again");
     b_content := Some (js "<p>Again</p>"); b_author := None |}.

Definition bob_form : AuthorBody :=
  {| b_name := Some (js "Bob"); b_email := None; b_bio := Some (js "Writes") |}.

(** ** Part II: theorems *)

Section Properties.
Context {platform : Platform}.

(** *** The slug generator *)

Lemma replace_from_one (k : cclass) (s : jsstring) (fuel : nat) :
  (length s <= fuel)%nat ->
  replace_from fuel (ReOne k) [] s = List.filter (fun c => negb (cclass_test k c)) s.
Proof.
  revert s. induction fuel as [|fuel IH]; intros s Hlen.
  - destruct s; simpl in *; [reflexivity | lia].
  - destruct s as [|c s]; simpl; [reflexivity|].
    simpl in Hlen. destruct (cclass_test k c); simpl; rewrite IH by lia; reflexivity.
Qed.

Lemma skip_class_length (k : cclass) (s : jsstring) :
  (length (skip_class k s) <= length s)%nat.
Proof.
  induction s as [|c s IH]; simpl; [lia|].
  destruct (cclass_test k c); simpl; lia.
Qed.

Lemma collapse_runs_skip (p : char -> bool) (k : cclass) (r c : char) (s : jsstring) :
  (forall x, cclass_test k x = p x) ->
  p c = true ->
  collapse_runs p r (c :: s) = r :: collapse_runs p r (skip_class k s).
Proof.
  intros Hk. revert c. induction s as [|d s IH]; intros c Hc.
  - simpl. rewrite Hc. reflexivity.
  - change (collapse_runs p r (c :: d :: s))
      with (if p c then (if p d then collapse_runs p r (d :: s)
                         else r :: collapse_runs p r (d :: s))
            else c :: collapse_runs p r (d :: s)).
    rewrite Hc. simpl skip_class. rewrite Hk.
    destruct (p d) eqn:Hd; [apply IH; exact Hd | reflexivity].
Qed.

Lemma replace_from_plus (p : char -> bool) (k : cclass) (r : char) (s : jsstring) (fuel : nat) :
  (forall x, cclass_test k x = p x) ->
  (length s <= fuel)%nat ->
  replace_from fuel (RePlus k) [r] s = collapse_runs p r s.
Proof.
  intros Hk. revert s. induction fuel as [|fuel IH]; intros s Hlen.
  - destruct s; simpl in *; [reflexivity | lia].
  - destruct s as [|c s]; [reflexivity|].
    simpl in Hlen. cbn [replace_from re_match].
    destruct (cclass_test k c) eqn:Hc.
    + rewrite (collapse_runs_skip p k r c s Hk) by (rewrite <- Hk; exact Hc).
      rewrite IH; [reflexivity|]. pose proof (skip_class_length k s). lia.
    + rewrite IH by lia. rewrite Hk in Hc.
      destruct s as [|d s]; simpl; rewrite Hc; reflexivity.
Qed.

Lemma slug_keeps_class (c : char) :
  negb (cclass_test (ClsNot (ClsUnion ClsWord (ClsUnion ClsSpace (ClsChar hyphen)))) c)
  = slug_keeps c.
Proof.
  simpl. rewrite negb_involutive. unfold is_word, slug_keeps, is_letter.
  destruct (is_lower c), (is_upper c), (is_digit c), (c =? underscore)%N,
    (is_whitespace c), (c =? hyphen)%N; reflexivity.
Qed.

Lemma collapse_runs_In (p : char -> bool) (r x : char) (s : jsstring) :
  In x (collapse_runs p r s) -> x = r \/ (In x s /\ p x = false).
Proof.
  induction s as [|c s IH]; [intros []|].
  change (collapse_runs p r (c :: s))
    with (if p c then
            match s with
            | [] => [r]
            | d :: _ => if p d then collapse_runs p r s else r :: collapse_runs p r s
            end
          else c :: collapse_runs p r s).
  destruct (p c) eqn:Hc.
  - destruct s as [|d s']; [intros [<- | []]; left; reflexivity|].
    destruct (p d).
    + intros Hin. destruct (IH Hin) as [-> | [Hx Hp]]; [left; reflexivity|].
      right. split; [right; exact Hx | exact Hp].
    + intros [<- | Hin]; [left; reflexivity|].
      destruct (IH Hin) as [-> | [Hx Hp]]; [left; reflexivity|].
      right. split; [right; exact Hx | exact Hp].
  - intros [<- | Hin]; [right; split; [left; reflexivity | exact Hc]|].
    destruct (IH Hin) as [-> | [Hx Hp]]; [left; reflexivity|].
    right. split; [right; exact Hx | exact Hp].
Qed.

(** The regular-expression pipeline of the source and the pipeline of the
    specification compute the same string. *)
Lemma createSlug_refines (title : jsstring) : createSlug title = createSlug_spec title.
Proof.
  unfold createSlug, createSlug_spec, String_replace.
  cbv zeta.
  rewrite (replace_from_one _ (trim (toLowerCase title))) by lia.
  rewrite (List.filter_ext _ _ slug_keeps_class).
  change (js "-") with [hyphen].
  rewrite (replace_from_plus is_whitespace ClsSpace) by (reflexivity || lia).
  rewrite (replace_from_plus (fun c => (c =? hyphen)%N) (ClsChar hyphen))
    by (reflexivity || lia).
  reflexivity.
Qed.


(** The alphabet of slugs: whatever the title, a slug is made of the
    characters [a-z], [A-Z], [0-9], [_] and [-] only; a letter outside ASCII
    does not survive. *)
Lemma createSlug_alphabet (title : jsstring) (c : char) :
  In c (createSlug title) -> is_word c = true \/ c = hyphen.
Proof.
  rewrite createSlug_refines. unfold createSlug_spec. cbv zeta.
  intros Hin.
  apply collapse_runs_In in Hin as [-> | [Hin _]]; [right; reflexivity|].
  apply collapse_runs_In in Hin as [-> | [Hin Hws]]; [right; reflexivity|].
  apply filter_In in Hin as [_ Hkeep].
  unfold slug_keeps, is_letter in Hkeep. rewrite Hws in Hkeep.
  unfold is_word.
  destruct (is_lower c), (is_upper c), (is_digit c), (c =? underscore)%N;
    try (left; reflexivity).
  simpl in Hkeep. rewrite orb_false_r in Hkeep. right. apply N.eqb_eq. exact Hkeep.
Qed.

(** *** Identifiers *)

Lemma parse_digits_acc (d : Decimal.uint) (acc : positive) :
  parse_digits 10 (Some (Zpos acc)) (uint_chars d) = Some (Zpos (Pos.of_uint_acc d acc)).
Proof.
  revert acc. induction d; intros acc; simpl; [reflexivity | ..];
    rewrite <- IHd; f_equal; f_equal; unfold default; lia.
Qed.

Lemma parse_digits_uint (d : Decimal.uint) :
  parse_digits 10 (Some 0) (uint_chars d) = Some (Z.of_N (Pos.of_uint d)).
Proof.
  induction d; simpl; [reflexivity | exact IHd | ..]; apply parse_digits_acc.
Qed.

Lemma parseInt_uint (d : Decimal.uint) :
  d <> Decimal.Nil ->
  parseInt (uint_chars d) = Some (Z.of_N (Pos.of_uint d)) /\
  parseInt (45%N :: uint_chars d) = Some (- Z.of_N (Pos.of_uint d)).
Proof.
  intros Hd. split.
  - transitivity (match parse_digits 10 (Some 0) (uint_chars d) with
                  | Some v => Some v
                  | None => None
                  end);
      [|rewrite parse_digits_uint; reflexivity].
    destruct d as [|d|d|d|d|d|d|d|d|d|d]; [congruence | ..]; destruct d; reflexivity.
  - transitivity (match parse_digits 10 (Some 0) (uint_chars d) with
                  | Some v => Some (- v)
                  | None => None
                  end);
      [|rewrite parse_digits_uint; reflexivity].
    destruct d as [|d|d|d|d|d|d|d|d|d|d]; [congruence | ..]; destruct d; reflexivity.
Qed.

(** A number printed by [toString] is read back by [parseInt]. *)
Lemma parseInt_Number_toString (n : Z) : parseInt (Number_toString n) = Some n.
Proof.
  destruct n as [|p|p]; [reflexivity | |].
  - change (parseInt (uint_chars (Pos.to_uint p)) = Some (Z.pos p)).
    rewrite (proj1 (parseInt_uint _ (Unsigned.to_uint_nonnil p))).
    rewrite Unsigned.of_to. reflexivity.
  - change (parseInt (45%N :: uint_chars (Pos.to_uint p)) = Some (Z.neg p)).
    rewrite (proj2 (parseInt_uint _ (Unsigned.to_uint_nonnil p))).
    rewrite Unsigned.of_to. reflexivity.
Qed.

Lemma parse_id_number (n : Z) : parse_id (IdNumber n) = Some n.
Proof. apply parseInt_Number_toString. Qed.

(** *** Reasoning about computations *)

Lemma bind_Ok {A B} (m : M A) (k : A -> M B) db b db' :
  bind m k db = (Ok b, db') ->
  exists a db1, m db = (Ok a, db1) /\ k a db1 = (Ok b, db').
Proof.
  unfold bind. destruct (m db) as [[a|e] db1]; intros Hk.
  - exists a, db1. split; [reflexivity | exact Hk].
  - discriminate.
Qed.

Lemma try_catch_Ok {A} (body : M A) (handler : exn -> M A) db a db' :
  try_catch body handler db = (Ok a, db') ->
  body db = (Ok a, db') \/
  exists e db1, body db = (Throw e, db1) /\ handler e db1 = (Ok a, db').
Proof.
  unfold try_catch. destruct (body db) as [[x|e] db1]; intros Hk.
  - left. exact Hk.
  - right. exists e, db1. split; [reflexivity | exact Hk].
Qed.

(** A handler that only returns a value makes the whole [try]/[catch] return. *)
Lemma try_catch_never_raises {A} (body : M A) (v : A) :
  never_raises (try_catch body (fun _ => ret v)).
Proof.
  intros db. unfold try_catch, ret.
  destruct (body db) as [[a|e] db1]; eauto.
Qed.

Lemma same_data_refl db : same_data db db.
Proof. repeat split. Qed.

Lemma same_data_trans db1 db2 db3 :
  same_data db1 db2 -> same_data db2 db3 -> same_data db1 db3.
Proof.
  unfold same_data. intros (?&?&?&?&?&?) (?&?&?&?&?&?).
  repeat split; congruence.
Qed.

Lemma driver_call_Ok db u db' :
  driver_call db = (Ok u, db') -> same_data db db'.
Proof.
  unfold driver_call. destruct (io_faults db) as [|[code|] rest]; intros Hc;
    inversion Hc; subst; repeat split.
Qed.

Lemma driver_call_no_fault db :
  io_faults db = [] -> driver_call db = (Ok tt, db).
Proof. unfold driver_call. intros ->. reflexivity. Qed.

Lemma driver_call_fault db code rest :
  io_faults db = Some code :: rest ->
  driver_call db = (Throw (SqliteError code), set_io_faults rest db).
Proof. unfold driver_call. intros ->. reflexivity. Qed.

Lemma query_Ok {A} (f : Database -> A) db a db' :
  query f db = (Ok a, db') -> same_data db db' /\ a = f db'.
Proof.
  unfold query. intros Hq. apply bind_Ok in Hq as (u & db1 & Hd & Hg).
  unfold gets in Hg. inversion Hg; subst.
  split; [eapply driver_call_Ok; exact Hd | reflexivity].
Qed.

Lemma run_Ok f db r db' :
  run f db = (Ok r, db') ->
  exists db1, same_data db db1 /\ f db1 = (Ok r, db').
Proof.
  unfold run. intros Hq. apply bind_Ok in Hq as (u & db1 & Hd & Hg).
  exists db1. split; [eapply driver_call_Ok; exact Hd | exact Hg].
Qed.

(** *** Reading posts back *)

Lemma head_In {A} (l : list A) (x : A) : head l = Some x -> In x l.
Proof. destruct l; simpl; intros Hh; inversion Hh; subst; left; reflexivity. Qed.

Lemma in_left_join auths p r :
  In r (left_join auths p) -> exists a, r = joined p a.
Proof.
  unfold left_join.
  destruct (List.filter _ auths) as [|a0 rest].
  - intros [<-|[]]. exists None. reflexivity.
  - intros Hin. apply in_map_iff in Hin as (a & <- & _). exists (Some a). reflexivity.
Qed.

Lemma in_select_posts cond db r :
  In r (select_posts cond db) ->
  exists pr a, In pr (posts db) /\ r = joined pr a /\ where_holds (cond r) = true.
Proof.
  unfold select_posts. intros Hin.
  apply filter_In in Hin as [Hin Hc].
  apply in_flat_map in Hin as (pr & Hpr & Hr).
  apply in_left_join in Hr as (a & ->).
  exists pr, a. repeat split; assumption.
Qed.

Lemma left_join_nonempty auths p : left_join auths p <> [].
Proof.
  unfold left_join. destruct (List.filter _ auths); simpl; discriminate.
Qed.

Lemma id_is_true id k : id_is id k = true <-> id = Some k.
Proof.
  unfold id_is. destruct id as [n|]; split; intros Hk; try discriminate.
  - apply Z.eqb_eq in Hk. congruence.
  - inversion Hk. apply Z.eqb_refl.
Qed.

(** The post returned by [getPostById] is a stored row, read through
    [mapRowToPost]. *)
Lemma getPostById_Some id db p db' :
  getPostById id db = (Ok (Some p), db') ->
  same_data db db' /\
  exists pr, In pr (posts db) /\ parse_id id = Some (p_id pr) /\
    post_id p = p_id pr /\ post_title p = p_title pr /\ post_slug p = p_slug pr /\
    post_excerpt p = p_excerpt pr /\ post_content p = p_content pr /\
    post_author_id p = p_author_id pr.
Proof.
  unfold getPostById. intros Hg.
  apply bind_Ok in Hg as (u & db1 & Hp & Hg).
  apply driver_call_Ok in Hp.
  apply bind_Ok in Hg as (row & db2 & Hq & Hr).
  apply query_Ok in Hq as [Hsame ->].
  unfold ret in Hr. inversion Hr; subst db2. clear Hr.
  split; [eapply same_data_trans; eassumption|].
  destruct (head _) as [r|] eqn:Hhead; [|discriminate].
  simpl in H0. inversion H0; subst p. clear H0.
  apply head_In, in_select_posts in Hhead as (pr & a & Hin & -> & Hc).
  simpl in Hc. destruct (id_is (parse_id id) (p_id pr)) eqn:Hid; [|discriminate].
  apply id_is_true in Hid.
  exists pr. destruct Hp as (_ & Hp1 & _), Hsame as (_ & Hp2 & _).
  repeat split; try reflexivity; [congruence | exact Hid].
Qed.

Lemma le_fold_max (ids : list Z) (k : Z) : In k ids -> k <= fold_right Z.max 0 ids.
Proof.
  induction ids as [|x ids IH]; simpl; [tauto|].
  intros [->|Hin]; [lia | specialize (IH Hin); lia].
Qed.

Lemma next_rowid_fresh (seq : Z) (ids : list Z) (k : Z) :
  In k ids -> k < next_rowid seq ids.
Proof. intros Hin. apply le_fold_max in Hin. unfold next_rowid. lia. Qed.

(** What a successful INSERT into [posts] leaves behind. *)
Lemma insert_post_Ok title slug excerpt content author_id db info db' :
  insert_post title slug excerpt content author_id db = (Ok info, db') ->
  exists row,
    posts db' = posts db ++ [row] /\ authors db' = authors db /\
    foreign_keys db' = foreign_keys db /\
    p_id row = lastInsertRowid info /\ p_title row = title /\ p_slug row = slug /\
    p_excerpt row = excerpt /\ p_content row = content /\ p_author_id row = author_id /\
    (forall old, In old (posts db) -> p_id old < lastInsertRowid info).
Proof.
  unfold insert_post. intros Hr.
  apply run_Ok in Hr as (db1 & (Ha & Hp & Hsa & Hsp & Hfk & Hcl) & Hf).
  destruct (existsb _ (posts db1)); [discriminate|].
  destruct (foreign_keys db1 && _); [discriminate|].
  inversion Hf; subst; clear Hf. simpl.
  eexists. rewrite Hp.
  repeat split; try reflexivity; try assumption.
  intros old Hold. apply next_rowid_fresh. apply in_map. exact Hold.
Qed.

(** What a successful UPDATE of [posts] that hit a row leaves behind. *)
Lemma update_post_Ok title slug excerpt content author_id id db info db' :
  update_post title slug excerpt content author_id id db = (Ok info, db') ->
  changes info <> 0 ->
  authors db' = authors db /\ foreign_keys db' = foreign_keys db /\
  exists now,
    posts db' =
    List.map (fun p =>
      if id_is id (p_id p) then
        {| p_id := p_id p; p_title := title; p_slug := slug;
           p_excerpt := excerpt; p_content := content; p_author_id := author_id;
           p_created_at := p_created_at p; p_updated_at := now |}
      else p) (posts db).
Proof.
  unfold update_post. intros Hr Hch.
  apply run_Ok in Hr as (db1 & (Ha & Hp & Hsa & Hsp & Hfk & Hcl) & Hf).
  destruct (negb (existsb _ (posts db1))).
  { inversion Hf; subst. simpl in Hch. congruence. }
  destruct (existsb _ (posts db1)); [discriminate|].
  destruct (foreign_keys db1 && _); [discriminate|].
  inversion Hf; subst; clear Hf. simpl.
  repeat split; try assumption.
  exists (clock db1). rewrite Hp. reflexivity.
Qed.

(** A successful write to the post repository: the returned post and every
    stored row carrying its identifier hold the submitted title and excerpt,
    the slug derived from the title and the sanitized content. *)
Lemma post_write_stored w db p db' :
  run_post_write w db = (Ok (Some p), db') ->
  (exists row, In row (posts db') /\ p_id row = post_id p) /\
  (forall row, In row (posts db') -> p_id row = post_id p ->
     p_title row = in_title (written w) /\
     p_slug row = createSlug (in_title (written w)) /\
     p_excerpt row = in_excerpt (written w) /\
     p_content row = sanitizeHtml (in_content (written w)) sanitizeOptions) /\
  post_title p = in_title (written w) /\
  post_slug p = createSlug (in_title (written w)) /\
  post_excerpt p = in_excerpt (written w) /\
  post_content p = sanitizeHtml (in_content (written w)) sanitizeOptions.
Proof.
  intros Hw.
  assert (Hstored :
    (exists row, In row (posts db') /\ p_id row = post_id p) /\
    (forall row, In row (posts db') -> p_id row = post_id p ->
       p_title row = in_title (written w) /\
       p_slug row = createSlug (in_title (written w)) /\
       p_excerpt row = in_excerpt (written w) /\
       p_content row = sanitizeHtml (in_content (written w)) sanitizeOptions) /\
    exists pr, In pr (posts db') /\ post_id p = p_id pr /\ post_title p = p_title pr /\
      post_slug p = p_slug pr /\ post_excerpt p = p_excerpt pr /\
      post_content p = p_content pr).
  { destruct w as [postData | id postData]; simpl in *.
    - unfold createPost in Hw.
      apply try_catch_Ok in Hw as [Hw | (e & db1 & _ & Hh)]; [|discriminate].
      apply bind_Ok in Hw as (u & db1 & Hp & Hw). apply driver_call_Ok in Hp.
      apply bind_Ok in Hw as (info & db2 & Hi & Hg).
      apply insert_post_Ok in Hi
        as (new & Hposts & _ & _ & Hid & Ht & Hs & He & Hc & _ & Hfresh).
      apply getPostById_Some in Hg
        as ((_ & Hp2 & _) & pr & Hin & Hk & Hpid & Hpt & Hps & Hpe & Hpc & _).
      rewrite parse_id_number in Hk. injection Hk as Hk'.
      assert (Hrows : forall row, In row (posts db') -> p_id row = lastInsertRowid info ->
                                  row = new).
      { intros row Hrow Hrid. rewrite Hp2, Hposts in Hrow.
        apply in_app_or in Hrow as [Hold | [<- | []]]; [|reflexivity].
        apply Hfresh in Hold. lia. }
      assert (Hpr : pr = new).
      { apply Hrows; [rewrite Hp2; exact Hin | congruence]. }
      subst pr. split; [|split].
      + exists new. split; [rewrite Hp2; exact Hin | congruence].
      + intros row' Hrow Hrid. rewrite (Hrows row' Hrow) by congruence.
        repeat split; congruence.
      + exists new. repeat split; try assumption. rewrite Hp2. exact Hin.
    - unfold updatePost in Hw.
      apply try_catch_Ok in Hw as [Hw | (e & db1 & _ & Hh)]; [|discriminate].
      apply bind_Ok in Hw as (u & db1 & Hp & Hw). apply driver_call_Ok in Hp.
      apply bind_Ok in Hw as (info & db2 & Hu & Hg).
      destruct (changes info =? 0) eqn:Hch; [discriminate|].
      apply Z.eqb_neq in Hch.
      apply update_post_Ok in Hu as (_ & _ & now & Hposts); [|exact Hch].
      apply getPostById_Some in Hg
        as ((_ & Hp2 & _) & pr & Hin & Hk & Hpid & Hpt & Hps & Hpe & Hpc & _).
      split; [|split].
      + exists pr. split; [rewrite Hp2; exact Hin | congruence].
      + intros row' Hrow Hrid. rewrite Hp2, Hposts in Hrow.
        apply in_map_iff in Hrow as (old & <- & Hold).
        assert (Hhit : id_is (parse_id id) (p_id old) = true).
        { apply id_is_true. rewrite Hk. f_equal.
          destruct (id_is (parse_id id) (p_id old)); simpl in Hrid; congruence. }
        rewrite Hhit. simpl. repeat split; reflexivity.
      + exists pr. repeat split; try assumption. rewrite Hp2. exact Hin. }
  destruct Hstored as (Hex & Hall & pr & Hin & Hpid & Hpt & Hps & Hpe & Hpc).
  destruct (Hall pr Hin (eq_sym Hpid)) as (Ht & Hs & He & Hc).
  split; [exact Hex|]. split; [exact Hall|].
  repeat split; congruence.
Qed.

(** *** Invariants of the rows *)

Lemma preserves_ret I {A} (a : A) : preserves I (ret a).
Proof. intros db HI. exact HI. Qed.

Lemma preserves_bind I {A B} (m : M A) (k : A -> M B) :
  preserves I m -> (forall a, preserves I (k a)) -> preserves I (bind m k).
Proof.
  intros Hm Hk db HI. unfold bind. specialize (Hm db HI).
  destruct (m db) as [[a|e] db1]; simpl in *; [apply Hk; exact Hm | exact Hm].
Qed.

Lemma preserves_try_catch I {A} (body : M A) (handler : exn -> M A) :
  preserves I body -> (forall e, preserves I (handler e)) ->
  preserves I (try_catch body handler).
Proof.
  intros Hm Hk db HI. unfold try_catch. specialize (Hm db HI).
  destruct (body db) as [[a|e] db1]; simpl in *; [exact Hm | apply Hk; exact Hm].
Qed.

Lemma preserves_if I {A} (b : bool) (m1 m2 : M A) :
  preserves I m1 -> preserves I m2 -> preserves I (if b then m1 else m2).
Proof. destruct b; tauto. Qed.

Section EveryPost.
Variable P : PostRow -> Prop.

Lemma every_post_same db db' :
  posts db' = posts db -> every_post P db -> every_post P db'.
Proof. unfold every_post. intros ->. tauto. Qed.

Lemma preserves_driver_call : preserves (every_post P) driver_call.
Proof.
  intros db HI. unfold driver_call.
  destruct (io_faults db) as [|[code|] rest]; simpl; exact HI.
Qed.

Lemma preserves_query {A} (f : Database -> A) : preserves (every_post P) (query f).
Proof.
  unfold query. apply preserves_bind; [apply preserves_driver_call|].
  intros _ db HI. exact HI.
Qed.

Lemma preserves_run f :
  preserves (every_post P) f -> preserves (every_post P) (run f).
Proof.
  intros Hf. unfold run. apply preserves_bind; [apply preserves_driver_call|].
  intros _. exact Hf.
Qed.

Lemma preserves_insert_post title slug excerpt content author_id :
  (forall k now, P {| p_id := k; p_title := title; p_slug := slug;
                      p_excerpt := excerpt; p_content := content;
                      p_author_id := author_id;
                      p_created_at := now; p_updated_at := now |}) ->
  preserves (every_post P) (insert_post title slug excerpt content author_id).
Proof.
  intros Hnew. apply preserves_run. intros db HI.
  destruct (existsb _ (posts db)); [exact HI|].
  destruct (foreign_keys db && _); [exact HI|].
  simpl. intros row Hrow. simpl in Hrow.
  apply in_app_or in Hrow as [Hold | [<- | []]]; [apply HI; exact Hold | apply Hnew].
Qed.

Lemma preserves_update_post title slug excerpt content author_id id :
  (forall k c now, P {| p_id := k; p_title := title; p_slug := slug;
                        p_excerpt := excerpt; p_content := content;
                        p_author_id := author_id;
                        p_created_at := c; p_updated_at := now |}) ->
  preserves (every_post P) (update_post title slug excerpt content author_id id).
Proof.
  intros Hnew. apply preserves_run. intros db HI. cbv beta zeta.
  destruct (negb (existsb _ (posts db))); [exact HI|].
  destruct (existsb _ (posts db)); [exact HI|].
  destruct (foreign_keys db && _); [exact HI|].
  simpl. intros row Hrow. simpl in Hrow.
  apply in_map_iff in Hrow as (old & <- & Hold).
  destruct (id_is id (p_id old)); [apply Hnew | apply HI; exact Hold].
Qed.

Lemma preserves_delete_post id : preserves (every_post P) (delete_post id).
Proof.
  apply preserves_run. intros db HI row Hrow. simpl in Hrow.
  apply filter_In in Hrow as [Hrow _]. apply HI. exact Hrow.
Qed.

Lemma preserves_insert_author name email bio :
  preserves (every_post P) (insert_author name email bio).
Proof.
  apply preserves_run. intros db HI.
  destruct (email_taken email (authors db)); exact HI.
Qed.

Lemma preserves_update_author name email bio id :
  preserves (every_post P) (update_author name email bio id).
Proof.
  apply preserves_run. intros db HI. cbv beta zeta.
  destruct (negb (existsb _ (authors db))); [exact HI|].
  destruct (email_taken email _); exact HI.
Qed.

Lemma preserves_delete_author id :
  (forall removed row, P row -> P (set_null_on_delete removed row)) ->
  preserves (every_post P) (delete_author id).
Proof.
  intros Hnull. apply preserves_run. intros db HI row Hrow. cbv beta zeta in Hrow.
  simpl in Hrow.
  destruct (foreign_keys db); [|apply HI; exact Hrow].
  apply in_map_iff in Hrow as (old & <- & Hold). apply Hnull, HI, Hold.
Qed.

End EveryPost.

Section RepositoryInvariant.
Variable P : PostRow -> Prop.
Hypothesis P_written :
  forall k title excerpt raw author_id c now,
    P {| p_id := k; p_title := title; p_slug := createSlug title;
         p_excerpt := excerpt; p_content := sanitizeHtml raw sanitizeOptions;
         p_author_id := author_id; p_created_at := c; p_updated_at := now |}.
Hypothesis P_set_null :
  forall removed row, P row -> P (set_null_on_delete removed row).

Ltac preserves_tac :=
  repeat first
    [ apply preserves_ret
    | apply preserves_driver_call
    | apply preserves_query
    | apply preserves_delete_post
    | apply preserves_insert_author
    | apply preserves_update_author
    | apply preserves_delete_author; apply P_set_null
    | apply preserves_insert_post; intros; apply P_written
    | apply preserves_update_post; intros; apply P_written
    | apply preserves_try_catch
    | apply preserves_bind
    | apply preserves_if
    | intro ].

(** Every operation of the two repositories keeps a property of the rows of
    [posts] that holds of the rows [createPost] and [updatePost] write and
    does not depend on the author reference. *)
Lemma repository_preserves (c : RepositoryCall) (db : Database) :
  every_post P db -> every_post P (state_after c db).
Proof using P_written P_set_null.
  revert db.
  destruct c; simpl; intros db HI;
    match goal with
    | |- every_post _ (snd (?m db)) =>
        let Hm := fresh in
        assert (Hm : preserves (every_post P) m);
          [ unfold getAllPosts, getPostById, getPostBySlug, createPost, updatePost,
              deletePost, searchPosts, getAllAuthors, getAuthorById, createAuthor,
              updateAuthor, deleteAuthor, searchAuthors, getAuthorsWithPostCount,
              prepare; preserves_tac; fail
          | exact (Hm db HI) ]
    end.
Qed.

(** Such a property holds of every post in every reachable state. *)
Lemma reachable_every_post (db : Database) :
  reachable db -> every_post P db.
Proof using P_written P_set_null.
  induction 1 as [now | c db _ IH | now faults db _ IH].
  - intros row [].
  - apply repository_preserves. exact IH.
  - exact IH.
Qed.

End RepositoryInvariant.

(** *** Keys of the store *)

Lemma NoDup_snoc {A} (l : list A) (x : A) :
  List.NoDup l -> ~ In x l -> List.NoDup (l ++ [x]).
Proof.
  induction 1 as [|y l Hy Hl IH]; simpl; intros Hx.
  - constructor; [tauto | constructor].
  - constructor.
    + intros Hin. apply in_app_or in Hin as [Hin | [-> | []]]; tauto.
    + apply IH. tauto.
Qed.

Lemma NoDup_map_filter {A B} (f : A -> B) (g : A -> bool) (l : list A) :
  List.NoDup (List.map f l) -> List.NoDup (List.map f (List.filter g l)).
Proof.
  induction l as [|x l IH]; simpl; intros Hnd; [constructor|].
  inversion Hnd as [|y ys Hx Hl]; subst.
  destruct (g x); simpl; [|apply IH; exact Hl].
  constructor; [|apply IH; exact Hl].
  intros Hin. apply Hx. apply in_map_iff in Hin as (z & Hz & Hzin).
  apply filter_In in Hzin as [Hzin _]. apply in_map_iff. exists z. tauto.
Qed.

Lemma fresh_rowid_not_in (seq : Z) (ids : list Z) : ~ In (next_rowid seq ids) ids.
Proof. intros Hin. apply (next_rowid_fresh seq) in Hin. lia. Qed.

Lemma keeps_driver_call : preserves store_ok driver_call.
Proof.
  intros db HI. unfold driver_call.
  destruct (io_faults db) as [|[code|] rest]; simpl; exact HI.
Qed.

Lemma keeps_query {A} (f : Database -> A) : preserves store_ok (query f).
Proof.
  unfold query. apply preserves_bind; [apply keeps_driver_call|].
  intros _ db HI. exact HI.
Qed.

Lemma keeps_run f : preserves store_ok f -> preserves store_ok (run f).
Proof.
  intros Hf. unfold run. apply preserves_bind; [apply keeps_driver_call|].
  intros _. exact Hf.
Qed.

Lemma keeps_insert_post title slug excerpt content author_id :
  preserves store_ok (insert_post title slug excerpt content author_id).
Proof.
  apply keeps_run. intros db (Hfk & Ha & Hp).
  destruct (existsb _ (posts db)); [repeat split; assumption|].
  destruct (foreign_keys db && _); [repeat split; assumption|].
  split; [exact Hfk|]. split; [exact Ha|].
  simpl. rewrite List.map_app. apply NoDup_snoc; [exact Hp|].
  simpl. apply fresh_rowid_not_in.
Qed.

Lemma keeps_update_post title slug excerpt content author_id id :
  preserves store_ok (update_post title slug excerpt content author_id id).
Proof.
  apply keeps_run. intros db (Hfk & Ha & Hp). cbv beta zeta.
  destruct (negb (existsb _ (posts db))); [repeat split; assumption|].
  destruct (existsb _ (posts db)); [repeat split; assumption|].
  destruct (foreign_keys db && _); [repeat split; assumption|].
  split; [exact Hfk|]. split; [exact Ha|].
  simpl. rewrite List.map_map.
  erewrite List.map_ext; [exact Hp|].
  intros p. simpl. destruct (id_is id (p_id p)); reflexivity.
Qed.

Lemma keeps_delete_post id : preserves store_ok (delete_post id).
Proof.
  apply keeps_run. intros db (Hfk & Ha & Hp).
  split; [exact Hfk|]. split; [exact Ha|].
  simpl. apply NoDup_map_filter. exact Hp.
Qed.

Lemma keeps_insert_author name email bio :
  preserves store_ok (insert_author name email bio).
Proof.
  apply keeps_run. intros db (Hfk & Ha & Hp).
  destruct (email_taken email (authors db)); [repeat split; assumption|].
  split; [exact Hfk|]. split; [|exact Hp].
  simpl. rewrite List.map_app. apply NoDup_snoc; [exact Ha|].
  simpl. apply fresh_rowid_not_in.
Qed.

Lemma keeps_update_author name email bio id :
  preserves store_ok (update_author name email bio id).
Proof.
  apply keeps_run. intros db (Hfk & Ha & Hp). cbv beta zeta.
  destruct (negb (existsb _ (authors db))); [repeat split; assumption|].
  destruct (email_taken email _); [repeat split; assumption|].
  split; [exact Hfk|]. split; [|exact Hp].
  simpl. rewrite List.map_map.
  erewrite List.map_ext; [exact Ha|].
  intros a. simpl. destruct (id_is id (a_id a)); reflexivity.
Qed.

Lemma keeps_delete_author id : preserves store_ok (delete_author id).
Proof.
  apply keeps_run. intros db (Hfk & Ha & Hp). cbv beta zeta.
  split; [exact Hfk|]. split.
  - simpl. apply NoDup_map_filter. exact Ha.
  - simpl. rewrite Hfk. rewrite List.map_map.
    erewrite List.map_ext; [exact Hp|].
    intros p. unfold set_null_on_delete. destruct (existsb _ _); reflexivity.
Qed.

Ltac keeps_tac :=
  repeat first
    [ apply preserves_ret
    | apply keeps_driver_call
    | apply keeps_query
    | apply keeps_insert_post
    | apply keeps_update_post
    | apply keeps_delete_post
    | apply keeps_insert_author
    | apply keeps_update_author
    | apply keeps_delete_author
    | apply preserves_try_catch
    | apply preserves_bind
    | apply preserves_if
    | intro ].

(** Every operation of the two repositories leaves the foreign keys on and
    the identifiers unique. *)
Lemma repository_keeps_store_ok (c : RepositoryCall) (db : Database) :
  store_ok db -> store_ok (state_after c db).
Proof.
  revert db.
  destruct c; simpl; intros db HI;
    match goal with
    | |- store_ok (snd (?m db)) =>
        let Hm := fresh in
        assert (Hm : preserves store_ok m);
          [ unfold getAllPosts, getPostById, getPostBySlug, createPost, updatePost,
              deletePost, searchPosts, getAllAuthors, getAuthorById, createAuthor,
              updateAuthor, deleteAuthor, searchAuthors, getAuthorsWithPostCount,
              prepare; keeps_tac; fail
          | exact (Hm db HI) ]
    end.
Qed.

(** In every reachable state the foreign keys are enforced and [id] is a key
    of [authors] and of [posts]. *)
Lemma reachable_store_ok (db : Database) : reachable db -> store_ok db.
Proof.
  induction 1 as [now | c db _ IH | now faults db _ IH].
  - repeat split; constructor.
  - apply repository_keeps_store_ok. exact IH.
  - exact IH.
Qed.

Lemma slug_derived_written k title excerpt raw author_id c now :
  slug_derived {| p_id := k; p_title := title; p_slug := createSlug title;
                  p_excerpt := excerpt; p_content := sanitizeHtml raw sanitizeOptions;
                  p_author_id := author_id; p_created_at := c; p_updated_at := now |}.
Proof. reflexivity. Qed.

Lemma slug_derived_set_null removed row :
  slug_derived row -> slug_derived (set_null_on_delete removed row).
Proof. unfold set_null_on_delete. destruct (existsb _ removed); tauto. Qed.

Lemma content_sanitized_written k title excerpt raw author_id c now :
  content_sanitized
    {| p_id := k; p_title := title; p_slug := createSlug title;
       p_excerpt := excerpt; p_content := sanitizeHtml raw sanitizeOptions;
       p_author_id := author_id; p_created_at := c; p_updated_at := now |}.
Proof. exists raw. reflexivity. Qed.

Lemma content_sanitized_set_null removed row :
  content_sanitized row -> content_sanitized (set_null_on_delete removed row).
Proof. unfold set_null_on_delete. destruct (existsb _ removed); tauto. Qed.

(** In every reachable state of the store, every post has the slug derived
    from its title and a content that came out of the sanitizer. *)
Lemma reachable_good_posts (db : Database) :
  reachable db -> every_post good_post db.
Proof.
  intros Hr row Hrow. split.
  - apply (reachable_every_post slug_derived slug_derived_written
             slug_derived_set_null db Hr row Hrow).
  - apply (reachable_every_post content_sanitized content_sanitized_written
             content_sanitized_set_null db Hr row Hrow).
Qed.

Lemma post_write_state w db :
  snd (run_post_write w db) =
  state_after (match w with
               | WCreate postData => CallCreatePost postData
               | WUpdate id postData => CallUpdatePost id postData
               end) db.
Proof. destruct w; reflexivity. Qed.

(** *** Sanitized content *)

(** C2: after a successful [createPost] or [updatePost], the returned post
    and the stored row hold [sanitizeHtml] of the submitted content under
    [sanitizeOptions], never the raw input; the write keeps every other stored
    content sanitized; the options are the defaults plus the tags [h1], [h2],
    [img], with [img] restricted to [src]/[alt]/[title] and [a] to
    [href]/[target]/[rel]. *)
Theorem stored_content_is_sanitized w db p db' :
  run_post_write w db = (Ok (Some p), db') ->
  post_content p = sanitizeHtml (in_content (written w)) sanitizeOptions /\
  (exists row, In row (posts db') /\ p_id row = post_id p) /\
  (forall row, In row (posts db') -> p_id row = post_id p ->
     p_content row = sanitizeHtml (in_content (written w)) sanitizeOptions) /\
  (every_post content_sanitized db -> every_post content_sanitized db') /\
  allowedTags sanitizeOptions
    = allowedTags sanitizeHtml_defaults ++ ["h1"; "h2"; "img"]%string /\
  allowedAttributes sanitizeOptions !! "img"%string
    = Some ["src"; "alt"; "title"]%string /\
  allowedAttributes sanitizeOptions !! "a"%string
    = Some ["href"; "target"; "rel"]%string /\
  (forall tag : string, tag <> "img"%string -> tag <> "a"%string ->
     allowedAttributes sanitizeOptions !! tag
       = allowedAttributes sanitizeHtml_defaults !! tag).
Proof.
  intros Hw.
  destruct (post_write_stored w db p db' Hw) as (Hex & Hall & _ & _ & _ & Hc).
  split; [exact Hc|]. split; [exact Hex|].
  split; [intros row Hrow Hid; apply (Hall row Hrow Hid)|].
  split.
  { intros HI. replace db' with (snd (run_post_write w db)) by (rewrite Hw; reflexivity).
    rewrite post_write_state.
    apply repository_preserves;
      [exact content_sanitized_written | exact content_sanitized_set_null | exact HI]. }
  split; [reflexivity|]. unfold sanitizeOptions. cbn [allowedAttributes].
  split; [rewrite lookup_insert_ne by discriminate; apply lookup_insert_eq|].
  split; [apply lookup_insert_eq|].
  intros tag Himg Ha. rewrite !lookup_insert_ne by congruence. reflexivity.
Qed.

(** *** Slugs *)


(** *** Searching *)

Lemma like_percent (s : jsstring) : like [percent] s = true.
Proof.
  induction s as [|c s IH]; [reflexivity|].
  simpl in *. exact IH.
Qed.

Lemma like_empty_query (s : jsstring) : like (searchPattern []) s = true.
Proof.
  change (searchPattern []) with [percent; percent].
  change (like [percent; percent] s)
    with ((fix any (s : jsstring) : bool :=
             like [percent] s || match s with [] => false | _ :: s' => any s' end) s).
  destruct s; rewrite like_percent; reflexivity.
Qed.

Lemma bind_ext {A B} (m : M A) (k1 k2 : A -> M B) db :
  (forall a db1, k1 a db1 = k2 a db1) -> bind m k1 db = bind m k2 db.
Proof.
  intros Hk. unfold bind. destruct (m db) as [[a|e] db1]; [apply Hk | reflexivity].
Qed.

Lemma query_ext {A} (f g : Database -> A) db :
  (forall db1, f db1 = g db1) -> query f db = query g db.
Proof.
  intros Hfg. unfold query. apply bind_ext. intros _ db1. unfold gets.
  rewrite Hfg. reflexivity.
Qed.

Lemma insert_by_In {A} (le : A -> A -> bool) (x y : A) (l : list A) :
  In y (insert_by le x l) <-> y = x \/ In y l.
Proof.
  induction l as [|z l IH]; simpl.
  - intuition congruence.
  - destruct (le x z); simpl; rewrite ?IH; intuition congruence.
Qed.

(** ORDER BY returns the rows it is given. *)
Lemma order_by_In {A} (le : A -> A -> bool) (y : A) (l : list A) :
  In y (order_by le l) <-> In y l.
Proof.
  induction l as [|x l IH]; simpl; [tauto|].
  rewrite insert_by_In, IH. intuition congruence.
Qed.

Section OrderBy.
Context {A : Type} (le : A -> A -> bool).
Hypothesis le_total : forall x y, le x y = false -> le y x = true.
Hypothesis le_trans : forall x y z, le x y = true -> le y z = true -> le x z = true.

Lemma insert_by_sorted (x : A) (l : list A) :
  StronglySorted (fun a b => le a b = true) l ->
  StronglySorted (fun a b => le a b = true) (insert_by le x l).
Proof using le_total le_trans.
  induction 1 as [|z l Hs IH Hz]; simpl.
  - constructor; constructor.
  - destruct (le x z) eqn:Hxz.
    + constructor; [constructor; assumption|].
      constructor; [exact Hxz|].
      rewrite !List.Forall_forall in *. intros b Hb. eapply le_trans; eauto.
    + constructor; [exact IH|].
      rewrite !List.Forall_forall in *. intros b Hb.
      apply insert_by_In in Hb as [-> | Hb]; [apply le_total; exact Hxz | auto].
Qed.

Lemma order_by_sorted (l : list A) :
  StronglySorted (fun a b => le a b = true) (order_by le l).
Proof using le_total le_trans.
  induction l as [|x l IH]; simpl; [constructor | apply insert_by_sorted; exact IH].
Qed.

End OrderBy.

Lemma text_leb_total (s t : jsstring) : text_leb s t = false -> text_leb t s = true.
Proof.
  revert t. induction s as [|c s IH]; intros [|d t]; simpl; try congruence.
  destruct (c <? d)%N eqn:Hlt; [discriminate|].
  destruct (c =? d)%N eqn:Heq.
  - apply N.eqb_eq in Heq. subst d. rewrite Hlt, N.eqb_refl. apply IH.
  - intros _. apply N.ltb_ge in Hlt. apply N.eqb_neq in Heq.
    replace (d <? c)%N with true; [reflexivity|]. symmetry. apply N.ltb_lt. lia.
Qed.

Lemma text_leb_trans (s t u : jsstring) :
  text_leb s t = true -> text_leb t u = true -> text_leb s u = true.
Proof.
  revert t u. induction s as [|c s IH]; intros [|d t] [|e u]; simpl; try congruence.
  destruct (c <? d)%N eqn:Hcd, (d <? e)%N eqn:Hde;
    rewrite ?N.ltb_lt, ?N.ltb_ge in *.
  - intros _ _. replace (c <? e)%N with true; [reflexivity|].
    symmetry. apply N.ltb_lt. lia.
  - destruct (d =? e)%N eqn:Heq; [|discriminate]. apply N.eqb_eq in Heq. subst e.
    intros _ _. replace (c <? d)%N with true; [reflexivity|].
    symmetry. apply N.ltb_lt. lia.
  - destruct (c =? d)%N eqn:Heq; [|discriminate]. apply N.eqb_eq in Heq. subst d.
    intros _ _. replace (c <? e)%N with true; [reflexivity|].
    symmetry. apply N.ltb_lt. lia.
  - destruct (c =? d)%N eqn:Heq1; [|discriminate]. apply N.eqb_eq in Heq1. subst d.
    destruct (c =? e)%N eqn:Heq2; [|discriminate]. apply N.eqb_eq in Heq2. subst e.
    rewrite N.ltb_irrefl. apply IH.
Qed.

Lemma created_desc_total x y : created_desc x y = false -> created_desc y x = true.
Proof. unfold created_desc. rewrite N.leb_gt, N.leb_le. lia. Qed.

Lemma created_desc_trans x y z :
  created_desc x y = true -> created_desc y z = true -> created_desc x z = true.
Proof. unfold created_desc. rewrite !N.leb_le. lia. Qed.

Lemma StronglySorted_map {A B} (f : A -> B) (R : A -> A -> Prop) (S : B -> B -> Prop)
    (l : list A) :
  (forall x y, R x y -> S (f x) (f y)) ->
  StronglySorted R l -> StronglySorted S (List.map f l).
Proof.
  intros HRS. induction 1 as [|x l Hs IH Hx]; simpl; constructor; [exact IH|].
  rewrite !List.Forall_forall in *. intros b Hb.
  apply in_map_iff in Hb as (a & <- & Ha). auto.
Qed.

Lemma getAllPosts_Ok db ps db' :
  getAllPosts db = (Ok ps, db') ->
  same_data db db' /\
  ps = List.map mapRowToPost (order_by created_desc (select_posts (fun _ => Some true) db)).
Proof.
  unfold getAllPosts. intros Hg.
  apply bind_Ok in Hg as (u & db1 & Hp & Hg). apply driver_call_Ok in Hp.
  apply bind_Ok in Hg as (rows & db2 & Hq & Hr).
  apply query_Ok in Hq as [Hsame ->].
  unfold ret in Hr. inversion Hr; subst. clear Hr.
  split; [eapply same_data_trans; eassumption|].
  destruct Hp as (Hp1 & Hp2 & _), Hsame as (Hs1 & Hs2 & _).
  unfold select_posts. rewrite Hs1, Hs2, Hp1, Hp2. reflexivity.
Qed.

Lemma getAllAuthors_Ok db l db' :
  getAllAuthors db = (Ok l, db') ->
  same_data db db' /\ l = order_by name_asc (authors db).
Proof.
  unfold getAllAuthors. intros Hg.
  apply bind_Ok in Hg as (u & db1 & Hp & Hq). apply driver_call_Ok in Hp.
  apply query_Ok in Hq as [Hsame ->].
  split; [eapply same_data_trans; eassumption|].
  destruct Hp as (Hp1 & _), Hsame as (Hs1 & _). rewrite Hs1, Hp1. reflexivity.
Qed.

Lemma bind_query_ext {A B} (f g : Database -> A) (k : A -> M B) db :
  (forall db1, f db1 = g db1) -> bind (query f) k db = bind (query g) k db.
Proof. intros Hfg. unfold bind. rewrite (query_ext f g db Hfg). reflexivity. Qed.

Lemma filter_all {A} (f : A -> bool) (l : list A) :
  (forall x, f x = true) -> List.filter f l = l.
Proof.
  intros Hf. induction l as [|x l IH]; simpl; [reflexivity|].
  rewrite Hf, IH. reflexivity.
Qed.

(** C8: with the empty query, [searchPosts] is [getAllPosts] and
    [searchAuthors] is [getAllAuthors], as computations on every state of
    the store, so with the same records in the same order; that order is
    creation time descending for posts and name ascending for authors, and
    every stored record is listed. *)
Theorem empty_search_is_list_all (db : Database) :
  searchPosts [] db = getAllPosts db /\
  searchAuthors [] db = getAllAuthors db /\
  (forall ps db', searchPosts [] db = (Ok ps, db') ->
     StronglySorted (fun x y => (post_createdAt y <= post_createdAt x)%N) ps /\
     forall row, In row (posts db) -> exists p, In p ps /\ post_id p = p_id row) /\
  (forall l db', searchAuthors [] db = (Ok l, db') ->
     StronglySorted (fun x y => text_leb (a_name x) (a_name y) = true) l /\
     forall a, In a (authors db) -> In a l).
Proof.
  assert (Hposts : searchPosts [] db = getAllPosts db).
  { unfold searchPosts, getAllPosts. apply bind_ext. intros _ db1.
    cbv zeta. apply bind_query_ext. intros db2. f_equal.
    unfold select_posts. apply List.filter_ext. intros r.
    unfold sql_like. simpl option_map. rewrite !like_empty_query. reflexivity. }
  assert (Hauthors : searchAuthors [] db = getAllAuthors db).
  { unfold searchAuthors, getAllAuthors. apply bind_ext. intros _ db1.
    cbv zeta. apply query_ext. intros db2. f_equal.
    apply filter_all. intros a.
    unfold sql_like. simpl option_map. rewrite like_empty_query. reflexivity. }
  split; [exact Hposts|]. split; [exact Hauthors|]. split.
  - intros ps db'. rewrite Hposts. intros Hg.
    apply getAllPosts_Ok in Hg as [_ ->]. split.
    + apply (StronglySorted_map mapRowToPost (fun a b => created_desc a b = true)).
      * intros x y Hxy. apply N.leb_le. exact Hxy.
      * apply order_by_sorted; [exact created_desc_total | exact created_desc_trans].
    + intros row Hrow.
      destruct (left_join (authors db) row) as [|r rest] eqn:Hjoin;
        [exfalso; exact (left_join_nonempty _ _ Hjoin)|].
      assert (Hr : In r (left_join (authors db) row)) by (rewrite Hjoin; left; reflexivity).
      exists (mapRowToPost r). split.
      * apply in_map, order_by_In. unfold select_posts.
        apply filter_In. split; [|reflexivity].
        apply in_flat_map. exists row. split; assumption.
      * apply in_left_join in Hr as (a & ->). reflexivity.
  - intros l db'. rewrite Hauthors. intros Hg.
    apply getAllAuthors_Ok in Hg as [_ ->]. split.
    + apply (order_by_sorted name_asc).
      * intros x y. apply text_leb_total.
      * intros x y z. apply text_leb_trans.
    + intros a Ha. apply order_by_In. exact Ha.
Qed.


(** *** Authors *)

Lemma or_null_blank (o : option jsstring) : blank o -> or_null o = None.
Proof. intros [-> | ->]; reflexivity. Qed.

Lemma filter_none {A} (f : A -> bool) (l : list A) :
  (forall x, In x l -> f x = false) -> List.filter f l = [].
Proof.
  induction l as [|x l IH]; simpl; intros Hf; [reflexivity|].
  rewrite (Hf x) by (left; reflexivity). apply IH. intros y Hy. apply Hf. right. exact Hy.
Qed.

Lemma id_is_fresh (k n : Z) : k < n -> id_is (Some n) k = false.
Proof. intros Hlt. simpl. apply Z.eqb_neq. lia. Qed.

(** On a store without pending faults, creating an author with a NULL email
    succeeds and returns the new row. *)
Lemma createAuthor_null_email authorData db :
  io_faults db = [] ->
  or_null (in_email authorData) = None ->
  let rowid := next_rowid (seq_authors db) (List.map a_id (authors db)) in
  let new := {| a_id := rowid; a_name := in_name authorData; a_email := None;
                a_bio := or_null (in_bio authorData);
                a_created_at := clock db; a_updated_at := clock db |} in
  createAuthor authorData db
  = (Ok (Some new), set_authors (authors db ++ [new]) rowid db).
Proof.
  intros Hf He rowid new.
  unfold createAuthor, try_catch, bind, prepare, insert_author, run, bind.
  rewrite (driver_call_no_fault db Hf). rewrite (driver_call_no_fault db Hf).
  rewrite He. cbn [email_taken].
  unfold getAuthorById, bind, prepare, query, bind, gets.
  cbn [lastInsertRowid]. rewrite parse_id_number.
  rewrite !driver_call_no_fault by exact Hf.
  cbn [authors set_authors]. fold rowid. fold new.
  rewrite List.filter_app.
  rewrite filter_none.
  2:{ intros a Ha. apply id_is_fresh. apply next_rowid_fresh. apply in_map. exact Ha. }
  simpl. unfold new at 1. cbn [a_id]. rewrite Z.eqb_refl. reflexivity.
Qed.

Lemma first_hit_updated (hit : Author -> bool) (upd : Author -> Author) (l : list Author) :
  (forall a, hit (upd a) = hit a) ->
  existsb hit l = true ->
  exists a0, In a0 l /\ hit a0 = true /\
    head (List.filter hit (List.map (fun a => if hit a then upd a else a) l)) = Some (upd a0).
Proof.
  intros Hupd. induction l as [|a l IH]; simpl; [discriminate|].
  destruct (hit a) eqn:Ha; simpl.
  - intros _. exists a. rewrite Hupd, Ha. simpl. auto.
  - intros He. destruct (IH He) as (a0 & Hin & Hh & Hhead).
    exists a0. rewrite Ha. auto.
Qed.

Lemma getAuthorById_Some id db a db' :
  getAuthorById id db = (Ok (Some a), db') ->
  same_data db db' /\ In a (authors db) /\ parse_id id = Some (a_id a).
Proof.
  unfold getAuthorById. intros Hg.
  apply bind_Ok in Hg as (u & db1 & Hp & Hq). apply driver_call_Ok in Hp.
  apply query_Ok in Hq as [Hsame Hhead].
  split; [eapply same_data_trans; eassumption|].
  symmetry in Hhead. apply head_In, filter_In in Hhead as [Hin Hid].
  destruct Hp as (Hp1 & _), Hsame as (Hs1 & _).
  split; [congruence | apply id_is_true; exact Hid].
Qed.

Lemma insert_author_Ok name email bio db info db' :
  insert_author name email bio db = (Ok info, db') ->
  exists row,
    authors db' = authors db ++ [row] /\
    a_id row = lastInsertRowid info /\ a_name row = name /\
    a_email row = email /\ a_bio row = bio /\
    (forall old, In old (authors db) -> a_id old < lastInsertRowid info).
Proof.
  unfold insert_author. intros Hr.
  apply run_Ok in Hr as (db1 & (Ha & _) & Hf).
  destruct (email_taken email (authors db1)); [discriminate|].
  injection Hf as <- <-. eexists. simpl. rewrite Ha.
  repeat split; try reflexivity.
  intros old Hold. apply next_rowid_fresh. apply in_map. exact Hold.
Qed.

Lemma update_author_Ok name email bio id db info db' :
  update_author name email bio id db = (Ok info, db') ->
  changes info <> 0 ->
  exists now,
    authors db' =
    List.map (fun a =>
      if id_is id (a_id a) then
        {| a_id := a_id a; a_name := name; a_email := email; a_bio := bio;
           a_created_at := a_created_at a; a_updated_at := now |}
      else a) (authors db).
Proof.
  unfold update_author. intros Hr Hch.
  apply run_Ok in Hr as (db1 & (Ha & _) & Hf). cbv beta zeta in Hf.
  destruct (negb (existsb _ (authors db1))).
  { injection Hf as <- <-. simpl in Hch. congruence. }
  destruct (email_taken email _); [discriminate|].
  injection Hf as <- <-. exists (clock db1). simpl. rewrite Ha. reflexivity.
Qed.

(** A successful write to the author repository: the returned author and
    every stored row carrying its identifier hold the submitted name, and the
    submitted email and biography with an empty text turned into NULL. *)
Lemma author_write_stored w db a db' :
  run_author_write w db = (Ok (Some a), db') ->
  In a (authors db') /\
  forall row, In row (authors db') -> a_id row = a_id a ->
    a_name row = in_name (author_written w) /\
    a_email row = or_null (in_email (author_written w)) /\
    a_bio row = or_null (in_bio (author_written w)).
Proof.
  destruct w as [authorData | id authorData]; simpl; intros Hw.
  - unfold createAuthor in Hw.
    apply try_catch_Ok in Hw as [Hw | (e & db1 & _ & Hh)]; [|discriminate].
    apply bind_Ok in Hw as (u & db1 & Hp & Hw).
    apply bind_Ok in Hw as (info & db2 & Hi & Hg).
    apply insert_author_Ok in Hi as (new & Hrows & Hid & Hn & He & Hb & Hfresh).
    apply getAuthorById_Some in Hg as ((Ha2 & _) & Hin & Hk).
    rewrite parse_id_number in Hk. injection Hk as Hk.
    split; [rewrite Ha2; exact Hin|].
    intros row Hrow Hrid. rewrite Ha2, Hrows in Hrow.
    apply in_app_or in Hrow as [Hold | [<- | []]].
    + apply Hfresh in Hold. lia.
    + repeat split; assumption.
  - unfold updateAuthor in Hw.
    apply try_catch_Ok in Hw as [Hw | (e & db1 & _ & Hh)]; [|discriminate].
    apply bind_Ok in Hw as (u & db1 & Hp & Hw).
    apply bind_Ok in Hw as (info & db2 & Hu & Hg).
    destruct (changes info =? 0) eqn:Hch; [discriminate|].
    apply Z.eqb_neq in Hch.
    apply update_author_Ok in Hu as (now & Hrows); [|exact Hch].
    apply getAuthorById_Some in Hg as ((Ha2 & _) & Hin & Hk).
    split; [rewrite Ha2; exact Hin|].
    intros row Hrow Hrid. rewrite Ha2, Hrows in Hrow.
    apply in_map_iff in Hrow as (old & <- & Hold).
    assert (Hhit : id_is (parse_id id) (a_id old) = true).
    { apply id_is_true. rewrite Hk. f_equal.
      destruct (id_is (parse_id id) (a_id old)); simpl in Hrid; congruence. }
    rewrite Hhit. simpl. repeat split; reflexivity.
Qed.

(** C9: an empty or absent email is stored as NULL, not as the empty text:
    whenever [createAuthor] or [updateAuthor] returns an author for such an
    input, that author and its stored row have a NULL email.  On a store
    without pending faults, two authors created one after the other with such
    an email are both stored, with distinct identifiers: the UNIQUE
    constraint does not see them; and updating an existing author with such
    an email succeeds. *)
Theorem blank_email_is_stored_as_null (first second : AuthorInput) :
  blank (in_email first) ->
  blank (in_email second) ->
  (forall w db a db',
     author_written w = first ->
     run_author_write w db = (Ok (Some a), db') ->
     a_email a = None /\
     forall row, In row (authors db') -> a_id row = a_id a -> a_email row = None) /\
  (forall db,
     io_faults db = [] ->
     (exists a1 db1 a2 db2,
        createAuthor first db = (Ok (Some a1), db1) /\
        createAuthor second db1 = (Ok (Some a2), db2) /\
        a_email a1 = None /\ a_email a2 = None /\ a_id a1 <> a_id a2 /\
        In a1 (authors db2) /\ In a2 (authors db2) /\
        length (authors db2) = S (S (length (authors db)))) /\
     (forall id k,
        parse_id id = Some k ->
        (exists a, In a (authors db) /\ a_id a = k) ->
        exists a' db',
          updateAuthor id first db = (Ok (Some a'), db') /\
          a_id a' = k /\ a_email a' = None)).
Proof.
  intros H1 H2. apply or_null_blank in H1, H2. split.
  { intros w db a db' Hw Hrun.
    destruct (author_write_stored w db a db' Hrun) as (Hin & Hrows).
    rewrite Hw, H1 in Hrows. split.
    - apply (Hrows a Hin eq_refl).
    - intros row Hrow Hid. apply (Hrows row Hrow Hid). }
  intros db Hf. split.
  - pose proof (createAuthor_null_email first db Hf H1) as Hc1. cbv zeta in Hc1.
    set (id1 := next_rowid (seq_authors db) (List.map a_id (authors db))) in *.
    set (a1 := {| a_id := id1; a_name := in_name first |}) in *.
    set (db1 := set_authors (authors db ++ [a1]) id1 db) in *.
    assert (Hf1 : io_faults db1 = []) by exact Hf.
    pose proof (createAuthor_null_email second db1 Hf1 H2) as Hc2. cbv zeta in Hc2.
    set (id2 := next_rowid (seq_authors db1) (List.map a_id (authors db1))) in *.
    set (a2 := {| a_id := id2; a_name := in_name second |}) in *.
    exists a1, db1, a2, (set_authors (authors db1 ++ [a2]) id2 db1).
    split; [exact Hc1|]. split; [exact Hc2|].
    split; [reflexivity|]. split; [reflexivity|]. split.
    { assert (id1 < id2); [|simpl; lia].
      apply next_rowid_fresh. apply in_map_iff. exists a1. split; [reflexivity|].
      simpl. apply in_or_app. right. left. reflexivity. }
    split; [simpl; apply in_or_app; left; apply in_or_app; right; left; reflexivity|].
    split; [simpl; apply in_or_app; right; left; reflexivity|].
    simpl. rewrite !length_app. simpl. lia.
  - intros id k Hk (a & Ha & Hak).
    set (hit := fun x : Author => id_is (Some k) (a_id x)).
    set (upd := fun x : Author =>
                  {| a_id := a_id x; a_name := in_name first; a_email := None;
                     a_bio := or_null (in_bio first);
                     a_created_at := a_created_at x; a_updated_at := clock db |}).
    assert (Hex : existsb hit (authors db) = true).
    { apply existsb_exists. exists a. split; [exact Ha|].
      unfold hit. apply id_is_true. congruence. }
    destruct (first_hit_updated hit upd (authors db) (fun _ => eq_refl) Hex)
      as (a0 & Hin0 & Hhit0 & Hhead).
    exists (upd a0),
      (set_authors (List.map (fun x => if hit x then upd x else x) (authors db))
                   (seq_authors db) db).
    split.
    + unfold updateAuthor, try_catch, bind, prepare, update_author, run, bind.
      rewrite (driver_call_no_fault db Hf). rewrite (driver_call_no_fault db Hf).
      rewrite H1, Hk. fold hit. rewrite Hex. cbn [negb email_taken changes].
      assert (Hlen : (Z.of_nat (length (List.filter hit (authors db))) =? 0) = false).
      { apply Z.eqb_neq.
        assert (In a0 (List.filter hit (authors db))) by (apply filter_In; auto).
        destruct (List.filter hit (authors db)); simpl in *; [tauto | lia]. }
      rewrite Hlen.
      unfold getAuthorById, bind, prepare, query, bind, gets.
      rewrite !driver_call_no_fault by exact Hf.
      rewrite Hk. cbn [authors set_authors]. fold hit upd.
      unfold hit, upd in Hhead |- *. rewrite Hhead. reflexivity.
    + split; [unfold hit in Hhit0; apply id_is_true in Hhit0; simpl; congruence|].
      reflexivity.
Qed.

Lemma hit_removed (k : Z) (removed : list Author) (row : PostRow) :
  removed <> [] ->
  (forall a, In a removed -> a_id a = k) ->
  set_null_on_delete removed row = clear_author_reference k row.
Proof.
  intros Hne Hall. unfold set_null_on_delete, clear_author_reference.
  replace (existsb (fun a => id_is (p_author_id row) (a_id a)) removed)
    with (id_is (p_author_id row) k); [reflexivity|].
  destruct removed as [|a0 rest]; [congruence|]. clear Hne.
  destruct (id_is (p_author_id row) k) eqn:Hk; symmetry.
  - apply existsb_exists. exists a0. split; [left; reflexivity|].
    rewrite (Hall a0) by (left; reflexivity). exact Hk.
  - apply not_true_is_false. intros He. apply existsb_exists in He as (a & Ha & Hid).
    rewrite (Hall a Ha) in Hid. congruence.
Qed.

Lemma filter_primary_key (k : Z) (l : list Author) :
  List.NoDup (List.map a_id l) ->
  (length (List.filter (fun a => id_is (Some k) (a_id a)) l) <= 1)%nat.
Proof.
  induction l as [|a l IH]; simpl; [lia|].
  intros Hnd. inversion Hnd as [|x xs Hnotin Hnd']; subst.
  destruct (a_id a =? k) eqn:Hak; [|apply IH; exact Hnd'].
  apply Z.eqb_eq in Hak. simpl.
  rewrite filter_none; [simpl; lia|].
  intros b Hb. apply Z.eqb_neq. intros Hbk. apply Hnotin.
  apply in_map_iff. exists b. split; [congruence | exact Hb].
Qed.

(** C4: a successful [deleteAuthor(id)], with the [foreign_keys] pragma on,
    removes the author row with that identifier and nothing else from
    [authors], and leaves every post in the store: the posts that referenced
    the author are still there with a NULL author reference, the others are
    untouched. *)
Theorem deleteAuthor_orphans_posts (id : IdArg) (db db' : Database) :
  foreign_keys db = true ->
  List.NoDup (List.map a_id (authors db)) ->
  deleteAuthor id db = (Ok true, db') ->
  exists k,
    parse_id id = Some k /\
    (exists a, In a (authors db) /\ a_id a = k) /\
    (forall a, In a (authors db') <-> In a (authors db) /\ a_id a <> k) /\
    length (authors db) = S (length (authors db')) /\
    posts db' = List.map (clear_author_reference k) (posts db) /\
    length (posts db') = length (posts db) /\
    List.map p_id (posts db') = List.map p_id (posts db) /\
    (forall row, In row (posts db) -> p_author_id row = Some k ->
       exists row', In row' (posts db') /\ p_author_id row' = None /\
         p_id row' = p_id row /\ p_title row' = p_title row /\
         p_slug row' = p_slug row /\ p_excerpt row' = p_excerpt row /\
         p_content row' = p_content row) /\
    (forall row, In row (posts db) -> p_author_id row <> Some k -> In row (posts db')) /\
    (forall row', In row' (posts db') -> p_author_id row' <> Some k).
Proof.
  intros Hfk Hpk Hd. unfold deleteAuthor in Hd.
  apply try_catch_Ok in Hd as [Hd | (e & db1 & _ & Hh)]; [|discriminate].
  apply bind_Ok in Hd as (u & db1 & Hp & Hd). apply driver_call_Ok in Hp.
  apply bind_Ok in Hd as (info & db2 & Hr & Hret).
  unfold ret in Hret. inversion Hret as [[Hch Hdb]]. subst db2. clear Hret.
  apply Z.ltb_lt in Hch.
  unfold delete_author in Hr. apply run_Ok in Hr as (db1' & Hs & Hr).
  pose proof (same_data_trans _ _ _ Hp Hs) as (Ha & Hps & _ & _ & Hfk' & _).
  cbv beta zeta in Hr. rewrite Hfk', Hfk, Ha, Hps in Hr.
  injection Hr as Hinfo Hdb.
  rewrite <- Hinfo in Hch. cbn [changes] in Hch.
  set (removed := List.filter (fun a => id_is (parse_id id) (a_id a)) (authors db)) in *.
  destruct removed as [|a0 rest] eqn:Hrem; [simpl in Hch; lia|].
  assert (Ha0 : In a0 removed) by (rewrite Hrem; left; reflexivity).
  unfold removed in Ha0. apply filter_In in Ha0 as [Hin0 Hid0].
  apply id_is_true in Hid0. exists (a_id a0).
  assert (Hall : forall a, In a (a0 :: rest) -> a_id a = a_id a0).
  { intros a Hin. rewrite <- Hrem in Hin. unfold removed in Hin.
    apply filter_In in Hin as [_ Hid]. apply id_is_true in Hid. congruence. }
  assert (Hposts : posts db' = List.map (clear_author_reference (a_id a0)) (posts db)).
  { rewrite <- Hdb. simpl. apply List.map_ext. intros row.
    apply hit_removed; [discriminate | exact Hall]. }
  assert (Hauthors : authors db'
            = List.filter (fun a => negb (id_is (Some (a_id a0)) (a_id a))) (authors db)).
  { rewrite <- Hdb. simpl. rewrite Hid0. reflexivity. }
  split; [exact Hid0|].
  split; [exists a0; split; [exact Hin0 | reflexivity]|].
  split.
  { intros a. rewrite Hauthors, filter_In. simpl.
    rewrite negb_true_iff, Z.eqb_neq. tauto. }
  split.
  { rewrite Hauthors.
    pose proof (List.filter_length (fun a => id_is (Some (a_id a0)) (a_id a)) (authors db))
      as Hlen.
    pose proof (filter_primary_key (a_id a0) (authors db) Hpk) as Hle.
    assert (In a0 (List.filter (fun a => id_is (Some (a_id a0)) (a_id a)) (authors db)))
      as Hin by (apply filter_In; split; [exact Hin0 | apply id_is_true; reflexivity]).
    destruct (List.filter (fun a => id_is (Some (a_id a0)) (a_id a)) (authors db))
      as [|x [|y xs]]; simpl in *; [tauto | lia | lia]. }
  split; [exact Hposts|].
  split; [rewrite Hposts; apply length_map|].
  split.
  { rewrite Hposts, List.map_map. apply List.map_ext. intros row.
    unfold clear_author_reference. destruct (id_is _ _); reflexivity. }
  split.
  { intros row Hrow Hauth. exists (clear_author_reference (a_id a0) row).
    split; [rewrite Hposts; apply in_map; exact Hrow|].
    unfold clear_author_reference. rewrite Hauth. simpl. rewrite Z.eqb_refl.
    repeat split; reflexivity. }
  split.
  { intros row Hrow Hauth. rewrite Hposts.
    apply in_map_iff. exists row. split; [|exact Hrow].
    unfold clear_author_reference.
    destruct (id_is (p_author_id row) (a_id a0)) eqn:Hid; [|reflexivity].
    apply id_is_true in Hid. congruence. }
  intros row' Hrow'. rewrite Hposts in Hrow'.
  apply in_map_iff in Hrow' as (row & <- & _).
  unfold clear_author_reference.
  destruct (id_is (p_author_id row) (a_id a0)) eqn:Hid; simpl; [discriminate|].
  intros Heq. rewrite Heq in Hid. simpl in Hid. rewrite Z.eqb_refl in Hid. discriminate.
Qed.

(** *** The session gate *)

Lemma admin_path_nonempty (url : jsstring) : is_admin_path url = true -> url <> [].
Proof. intros Hp ->. discriminate. Qed.

(** C3: an unauthenticated request to an admin path is answered by a redirect
    to [/login] whatever the handler behind the gate is, with the store
    untouched and the requested path recorded on the session; the next login
    with the configured credential redirects to that path and clears the
    record; a further such login redirects to [/admin/posts]. *)
Theorem session_gate_returns_once
    (ADMIN_PASSWORD password : option jsstring) (session : SessionData)
    (url : jsstring) (handler : M Response) (db : Database) :
  is_admin_path url = true ->
  truthy (isAuthenticated session) = false ->
  password = ADMIN_PASSWORD ->
  exists gated loggedIn again,
    router_use_requireAuth handler session url db
      = (Ok (gated, Redirect (js "/login")), db) /\
    returnTo gated = Some url /\
    isAuthenticated gated = isAuthenticated session /\
    handleLogin ADMIN_PASSWORD gated password = (loggedIn, Redirect url) /\
    isAuthenticated loggedIn = Some true /\
    returnTo loggedIn = None /\
    handleLogin ADMIN_PASSWORD loggedIn password
      = (again, Redirect (js "/admin/posts")) /\
    returnTo again = None /\
    requireAuth loggedIn url = (loggedIn, Next).
Proof.
  intros Hadmin Hanon ->.
  apply admin_path_nonempty in Hadmin.
  unfold router_use_requireAuth, requireAuth, handleLogin. rewrite Hanon.
  rewrite bool_decide_eq_true_2 by reflexivity. cbn [returnTo isAuthenticated truthy].
  destruct url as [|c url]; [congruence|]. cbn [or_null default].
  eexists _, _, _. repeat split.
Qed.

(** *** Pagination *)

Lemma Math_ceil_div_is_ceiling (a b : Z) : 0 < b -> is_ceiling a b (Math_ceil_div a b).
Proof.
  intros Hb. unfold is_ceiling, Math_ceil_div.
  pose proof (Z.div_mod (- a) b ltac:(lia)) as Hdm.
  pose proof (Z.mod_pos_bound (- a) b Hb) as Hm.
  nia.
Qed.

Lemma records_from (A : Type) (lo hi : Z) (l : list A) (start : nat) :
  0 <= lo <= hi ->
  List.map snd
    (List.filter (fun ix => (lo <=? fst ix) && (fst ix <? hi))
       (combine (List.map Z.of_nat (seq start (length l))) l))
  = firstn (Z.to_nat (hi - Z.max lo (Z.of_nat start)))
           (skipn (Z.to_nat (lo - Z.of_nat start)) l).
Proof.
  intros Hlh. revert start. induction l as [|x l IH]; intros start.
  - simpl. rewrite skipn_nil, firstn_nil. reflexivity.
  - cbn [length seq List.map combine List.filter fst snd].
    specialize (IH (S start)).
    destruct (lo <=? Z.of_nat start) eqn:Hlo; [apply Z.leb_le in Hlo | apply Z.leb_gt in Hlo].
    + replace (Z.to_nat (lo - Z.of_nat start)) with 0%nat by lia.
      replace (Z.to_nat (lo - Z.of_nat (S start))) with 0%nat in IH by lia.
      cbn [skipn] in IH |- *.
      destruct (Z.of_nat start <? hi) eqn:Hhi;
        [apply Z.ltb_lt in Hhi | apply Z.ltb_ge in Hhi]; cbn [andb List.map snd];
        rewrite IH.
      * replace (Z.to_nat (hi - Z.max lo (Z.of_nat start)))
          with (S (Z.to_nat (hi - Z.max lo (Z.of_nat (S start))))) by lia.
        reflexivity.
      * replace (Z.to_nat (hi - Z.max lo (Z.of_nat start))) with 0%nat by lia.
        replace (Z.to_nat (hi - Z.max lo (Z.of_nat (S start)))) with 0%nat by lia.
        reflexivity.
    + cbn [andb]. rewrite IH.
      replace (Z.to_nat (lo - Z.of_nat start))
        with (S (Z.to_nat (lo - Z.of_nat (S start)))) by lia.
      cbn [skipn].
      replace (Z.max lo (Z.of_nat (S start))) with (Z.max lo (Z.of_nat start)) by lia.
      reflexivity.
Qed.

(** From a non-negative start, [slice] returns the records at the positions
    it is given. *)
Lemma Array_slice_records (A : Type) (lo hi : Z) (l : list A) :
  0 <= lo <= hi -> Array_slice lo hi l = records_between lo hi l.
Proof.
  intros Hlh. unfold records_between. rewrite (records_from A lo hi l 0 Hlh).
  unfold Array_slice, slice_index.
  replace (lo <? 0) with false by (symmetry; apply Z.ltb_ge; lia).
  replace (hi <? 0) with false by (symmetry; apply Z.ltb_ge; lia).
  replace (Z.max lo (Z.of_nat 0)) with lo by lia.
  replace (lo - Z.of_nat 0) with lo by lia.
  set (len := Z.of_nat (length l)).
  destruct (Z.le_gt_cases len lo) as [Hout | Hin].
  - rewrite !skipn_all2 by lia. rewrite !firstn_nil. reflexivity.
  - replace (Z.min lo len) with lo by lia.
    destruct (Z.le_gt_cases hi len) as [Hhi | Hhi].
    + replace (Z.min hi len) with hi by lia. reflexivity.
    + replace (Z.min hi len) with len by lia.
      rewrite !firstn_all2; [reflexivity | |]; rewrite length_skipn; lia.
Qed.

Lemma page_or_1_requested (page : option jsstring) (k : Z) :
  requests_page page k -> page_or_1 page = k /\ 1 <= k.
Proof.
  unfold requests_page, page_or_1.
  destruct page as [s|]; [|intros ->; split; [reflexivity | lia]].
  destruct (parseInt s) as [n|]; [|intros ->; split; [reflexivity | lia]].
  intros [[Hn ->] | [-> ->]]; [|split; [reflexivity | lia]].
  destruct n; [lia | split; [reflexivity | lia] | lia].
Qed.

Lemma listing_shows_page (L page : Z) (all : list Post) (search : option jsstring)
    (title : string) :
  0 < L -> 1 <= page ->
  shows_page L page all
    {| l_posts := Array_slice ((page - 1) * L) ((page - 1) * L + L) all;
       l_searchQuery := search;
       l_currentPage := page;
       l_totalPages := Math_ceil_div (Z.of_nat (length all)) L;
       l_hasPrevious := 1 <? page;
       l_hasNext := page <? Math_ceil_div (Z.of_nat (length all)) L;
       l_title := title |}.
Proof.
  intros HL Hpage. unfold shows_page. cbn.
  split.
  { rewrite Array_slice_records by nia. f_equal. lia. }
  split; [reflexivity|].
  split; [apply Math_ceil_div_is_ceiling; exact HL|].
  split; [apply Z.ltb_lt | apply Z.ltb_lt].
Qed.

(** C5, as amended: a listing request for page [k >= 1] (an absent,
    non-numeric or zero page parameter counting as page 1) over the result
    set the repository returns is answered with the records at positions
    [(k-1)*L <= i < k*L] of that set, [L] being 10 for the admin list and 6
    for the public list, with [totalPages] the quotient of the number of
    records by [L] rounded up, [hasPrevious] iff [k > 1] and [hasNext] iff
    [k < totalPages]. *)
Theorem listing_shows_requested_page (req : ListQuery) (k : Z) (db : Database) :
  requests_page (q_page req) k ->
  (forall all db1,
     listing_source (q_search req) db = (Ok all, db1) ->
     exists locals,
       adminController_index req db
         = (Ok (Render 200 "admin/posts/index.njk" (LPostList locals)), db1) /\
       shows_page 10 k all locals) /\
  (forall all db1,
     getAllPosts db = (Ok all, db1) ->
     exists locals,
       postController_index req db
         = (Ok (Render 200 "posts/index.njk" (LPostList locals)), db1) /\
       shows_page 6 k all locals).
Proof.
  intros Hreq. apply page_or_1_requested in Hreq as [Hpage Hk]. split.
  - intros all db1 Hsrc. unfold adminController_index, try_catch, bind.
    assert (Hsame :
      match default [] (q_search req) with
      | _ :: _ => searchPosts (default [] (q_search req))
      | [] => getAllPosts
      end = listing_source (q_search req)).
    { unfold listing_source. destruct (q_search req) as [[|c q]|]; reflexivity. }
    cbv zeta. rewrite Hsame, Hsrc, Hpage. unfold ret.
    eexists. split; [reflexivity|]. apply listing_shows_page; lia.
  - intros all db1 Hsrc. unfold postController_index, try_catch, bind.
    cbv zeta. rewrite Hsrc, Hpage. unfold ret.
    eexists. split; [reflexivity|]. apply listing_shows_page; lia.
Qed.

(** *** Error propagation *)

(** C6, as amended: every mutating operation of the two repositories returns
    to its caller in every state of the store, whatever the environment does,
    and a store error striking the preparation or the execution of its
    statement is turned into [null] (create, update) or [false] (delete); the
    read operations have no handler and let such an error reach the caller. *)
Theorem mutations_catch_reads_propagate :
  (forall postData, never_raises (createPost postData) /\
                    returns_on_fault (createPost postData) None) /\
  (forall id postData, never_raises (updatePost id postData) /\
                       returns_on_fault (updatePost id postData) None) /\
  (forall id, never_raises (deletePost id) /\ returns_on_fault (deletePost id) false) /\
  (forall authorData, never_raises (createAuthor authorData) /\
                      returns_on_fault (createAuthor authorData) None) /\
  (forall id authorData, never_raises (updateAuthor id authorData) /\
                         returns_on_fault (updateAuthor id authorData) None) /\
  (forall id, never_raises (deleteAuthor id) /\ returns_on_fault (deleteAuthor id) false) /\
  raises_on_fault getAllPosts /\
  (forall id, raises_on_fault (getPostById id)) /\
  (forall slug, raises_on_fault (getPostBySlug slug)) /\
  (forall q, raises_on_fault (searchPosts q)) /\
  raises_on_fault getAllAuthors /\
  (forall id, raises_on_fault (getAuthorById id)) /\
  (forall q, raises_on_fault (searchAuthors q)) /\
  raises_on_fault getAuthorsWithPostCount.
Proof.
  repeat match goal with
         | |- _ /\ _ => split
         | |- forall _, _ => intro
         end;
    try apply try_catch_never_raises;
    intros db code rest [Hf | Hf];
    unfold createPost, updatePost, deletePost, createAuthor, updateAuthor, deleteAuthor,
      getAllPosts, getPostById, getPostBySlug, searchPosts, getAllAuthors,
      getAuthorById, searchAuthors, getAuthorsWithPostCount,
      insert_post, update_post, delete_post, insert_author, update_author,
      delete_author, try_catch, prepare, query, run, bind, driver_call;
    rewrite Hf; cbn [io_faults set_io_faults]; reflexivity.
Qed.

(** ** Further properties of the code *)

(** *** Outcomes of the driver calls *)

Lemma same_data_sym db db' : same_data db db' -> same_data db' db.
Proof. unfold same_data. intros (?&?&?&?&?&?). repeat split; congruence. Qed.

Lemma prepare_cases db :
  exists r db1, prepare db = (r, db1) /\ same_data db db1 /\
    (r = Ok tt \/ exists code, r = Throw (SqliteError code)).
Proof.
  unfold prepare, driver_call. destruct (io_faults db) as [|[code|] rest].
  - exists (Ok tt), db. repeat split. left. reflexivity.
  - exists (Throw (SqliteError code)), (set_io_faults rest db). repeat split.
    right. exists code. reflexivity.
  - exists (Ok tt), (set_io_faults rest db). repeat split. left. reflexivity.
Qed.

Lemma run_cases f db :
  (exists code db1, run f db = (Throw (SqliteError code), db1) /\ same_data db db1) \/
  (exists db1, same_data db db1 /\ run f db = f db1).
Proof.
  unfold run, bind, driver_call. destruct (io_faults db) as [|[code|] rest].
  - right. exists db. split; [apply same_data_refl | reflexivity].
  - left. exists code, (set_io_faults rest db). repeat split.
  - right. exists (set_io_faults rest db). repeat split.
Qed.

Lemma select_posts_same cond db db' :
  same_data db db' -> select_posts cond db' = select_posts cond db.
Proof. intros (Ha & Hp & _). unfold select_posts. rewrite Ha, Hp. reflexivity. Qed.

Lemma getPostById_no_fault id db :
  io_faults db = [] ->
  getPostById id db =
  (Ok (option_map mapRowToPost
         (head (select_posts (fun r => Some (id_is (parse_id id) (r_id r))) db))), db).
Proof.
  intros Hf. unfold getPostById, prepare, query, bind, gets, ret.
  repeat (rewrite (driver_call_no_fault _ Hf); cbv beta iota). reflexivity.
Qed.

Lemma getPostBySlug_no_fault slug db :
  io_faults db = [] ->
  getPostBySlug slug db =
  (Ok (option_map mapRowToPost
         (head (select_posts (fun r => Some (bool_decide (r_slug r = slug))) db))), db).
Proof.
  intros Hf. unfold getPostBySlug, prepare, query, bind, gets, ret.
  repeat (rewrite (driver_call_no_fault _ Hf); cbv beta iota). reflexivity.
Qed.

(** What [getPostById] returns, on any store: the first row selected. *)
Lemma getPostById_Ok id db r db' :
  getPostById id db = (Ok r, db') ->
  same_data db db' /\
  r = option_map mapRowToPost
        (head (select_posts (fun r => Some (id_is (parse_id id) (r_id r))) db')).
Proof.
  unfold getPostById. intros Hg.
  apply bind_Ok in Hg as (u & db1 & Hp & Hg). apply driver_call_Ok in Hp.
  apply bind_Ok in Hg as (row & db2 & Hq & Hr).
  apply query_Ok in Hq as [Hsame ->].
  unfold ret in Hr. injection Hr as Hr Hdb. subst db2.
  split; [eapply same_data_trans; eassumption | symmetry; exact Hr].
Qed.

Lemma getPostBySlug_Ok slug db r db' :
  getPostBySlug slug db = (Ok r, db') ->
  same_data db db' /\
  r = option_map mapRowToPost
        (head (select_posts (fun r => Some (bool_decide (r_slug r = slug))) db')).
Proof.
  unfold getPostBySlug. intros Hg.
  apply bind_Ok in Hg as (u & db1 & Hp & Hg). apply driver_call_Ok in Hp.
  apply bind_Ok in Hg as (row & db2 & Hq & Hr).
  apply query_Ok in Hq as [Hsame ->].
  unfold ret in Hr. injection Hr as Hr Hdb. subst db2.
  split; [eapply same_data_trans; eassumption | symmetry; exact Hr].
Qed.

Lemma existsb_false_In {A} (f : A -> bool) (l : list A) (x : A) :
  existsb f l = false -> In x l -> f x = false.
Proof.
  intros He Hin. destruct (f x) eqn:Hf; [|reflexivity].
  assert (Ht : existsb f l = true) by (apply existsb_exists; exists x; tauto).
  congruence.
Qed.

Lemma select_posts_none cond db :
  (forall pr a, In pr (posts db) -> where_holds (cond (joined pr a)) = false) ->
  select_posts cond db = [].
Proof.
  intros Hno. unfold select_posts. apply filter_none.
  intros r Hin. apply in_flat_map in Hin as (pr & Hpr & Hr).
  apply in_left_join in Hr as (a & ->). apply Hno. exact Hpr.
Qed.

(** *** Creating posts *)

(** A successful INSERT into [posts] found no row with the new slug, and a
    reference that the foreign key accepts. *)
Lemma insert_post_checked title slug excerpt content author_id db info db' :
  insert_post title slug excerpt content author_id db = (Ok info, db') ->
  (forall old, In old (posts db) -> p_slug old <> slug) /\
  (forall old, In old (posts db) -> p_id old <> lastInsertRowid info) /\
  (foreign_keys db = true -> fk_ok (authors db) author_id = true) /\
  authors db' = authors db /\
  posts db' = posts db ++
    [{| p_id := lastInsertRowid info; p_title := title; p_slug := slug;
        p_excerpt := excerpt; p_content := content; p_author_id := author_id;
        p_created_at := clock db; p_updated_at := clock db |}].
Proof.
  unfold insert_post. intros Hr.
  apply run_Ok in Hr as (db1 & (Ha & Hp & Hsa & Hsp & Hfk & Hcl) & Hf).
  destruct (existsb _ (posts db1)) eqn:Hslug; [discriminate|].
  destruct (foreign_keys db1 && _) eqn:Hfkc; [discriminate|].
  injection Hf as Hinfo Hdb. subst info db'. simpl.
  rewrite Hp, Hcl. split; [|split; [|split; [|split; [exact Ha | reflexivity]]]].
  - intros old Hold Heq. rewrite <- Hp in Hold.
    apply (existsb_false_In _ _ _ Hslug) in Hold.
    apply bool_decide_eq_false in Hold. contradiction.
  - intros old Hold Heq.
    apply (in_map p_id) in Hold. apply (next_rowid_fresh (seq_posts db1)) in Hold.
    lia.
  - intros Hon. rewrite Hfk, Hon, Ha in Hfkc. simpl in Hfkc.
    apply negb_false_iff in Hfkc. exact Hfkc.
Qed.

Lemma bind_Throw {A B} (m : M A) (k : A -> M B) db e db' :
  m db = (Throw e, db') -> bind m k db = (Throw e, db').
Proof. unfold bind. intros ->. reflexivity. Qed.

Lemma bind_step {A B} (m : M A) (k : A -> M B) db a db' :
  m db = (Ok a, db') -> bind m k db = k a db'.
Proof. unfold bind. intros ->. reflexivity. Qed.

Lemma try_catch_Throw {A} (body : M A) (handler : exn -> M A) db e db' :
  body db = (Throw e, db') -> try_catch body handler db = handler e db'.
Proof. unfold try_catch. intros ->. reflexivity. Qed.

Lemma try_catch_step {A} (body : M A) (handler : exn -> M A) db a db' :
  body db = (Ok a, db') -> try_catch body handler db = (Ok a, db').
Proof. unfold try_catch. intros ->. reflexivity. Qed.

(** An INSERT whose slug is already stored raises and changes nothing. *)
Lemma insert_post_rejects title slug excerpt content author_id db row :
  In row (posts db) -> p_slug row = slug ->
  exists code db',
    insert_post title slug excerpt content author_id db = (Throw (SqliteError code), db') /\
    same_data db db'.
Proof.
  intros Hin Hslug. unfold insert_post.
  match goal with
  | |- context [run ?f db] =>
      destruct (run_cases f db) as [(code & db1 & Hr & Hs) | (db1 & Hs & Hr)]; rewrite Hr
  end.
  - exists code, db1. split; [reflexivity | exact Hs].
  - assert (Hex : existsb (fun p => bool_decide (p_slug p = slug)) (posts db1) = true).
    { apply existsb_exists. exists row. split.
      - destruct Hs as (_ & Hp & _). rewrite Hp. exact Hin.
      - apply bool_decide_eq_true. exact Hslug. }
    rewrite Hex. exists SQLITE_CONSTRAINT_UNIQUE, db1. split; [reflexivity | exact Hs].
Qed.

(** A [createPost] whose slug is already stored returns [null] and leaves the
    data as they are. *)
Lemma createPost_slug_taken postData db row :
  In row (posts db) -> p_slug row = createSlug (in_title postData) ->
  exists db', createPost postData db = (Ok None, db') /\ same_data db db'.
Proof.
  intros Hin Hslug. unfold createPost.
  destruct (prepare_cases db) as (r & db1 & Hp & Hs1 & [-> | (code & ->)]).
  - assert (Hin1 : In row (posts db1)).
    { destruct Hs1 as (_ & Hp1 & _). rewrite Hp1. exact Hin. }
    destruct (insert_post_rejects (in_title postData) (createSlug (in_title postData))
                (in_excerpt postData) (sanitizeHtml (in_content postData) sanitizeOptions)
                (or_null_num (in_author_id postData)) db1 row Hin1 Hslug)
      as (code & db2 & Hi & Hs2).
    exists db2. split; [|eapply same_data_trans; eassumption].
    erewrite try_catch_Throw; [reflexivity|].
    erewrite bind_step by exact Hp. apply bind_Throw. exact Hi.
  - exists db1. split; [|exact Hs1].
    erewrite try_catch_Throw; [reflexivity|]. apply bind_Throw. exact Hp.
Qed.

(** X1: after a [createPost] that returned a post, a [createPost] whose title
    gives the same slug returns [null] and adds no row, whatever the other
    fields are and whatever the environment does. *)
Theorem createPost_same_slug_rejected (first second : PostInput) (db db1 : Database) (p : Post) :
  createPost first db = (Ok (Some p), db1) ->
  createSlug (in_title second) = createSlug (in_title first) ->
  exists db2, createPost second db1 = (Ok None, db2) /\ same_data db1 db2.
Proof.
  intros Hc Hslug.
  destruct (post_write_stored (WCreate first) db p db1 Hc) as ((row & Hin & Hid) & Hall & _).
  destruct (Hall row Hin Hid) as (_ & Hs & _).
  apply (createPost_slug_taken second db1 row Hin). simpl in Hs. congruence.
Qed.

(** X2: a post returned by [createPost] is the one [getPostById] finds under
    its identifier and [getPostBySlug] under its slug. *)
Theorem createPost_read_back (postData : PostInput) (db db' : Database) (p : Post) :
  createPost postData db = (Ok (Some p), db') ->
  io_faults db' = [] ->
  getPostById (IdNumber (post_id p)) db' = (Ok (Some p), db') /\
  getPostBySlug (post_slug p) db' = (Ok (Some p), db') /\
  post_slug p = createSlug (in_title postData).
Proof.
  intros Hc Hf. unfold createPost in Hc.
  apply try_catch_Ok in Hc as [Hc | (e & db1 & _ & Hh)]; [|discriminate].
  apply bind_Ok in Hc as (u & db1 & Hp & Hc). apply driver_call_Ok in Hp.
  apply bind_Ok in Hc as (info & db2 & Hi & Hg).
  apply insert_post_checked in Hi as (Hslug & Hfresh & _ & _ & Hposts).
  apply getPostById_Ok in Hg as [Hsame Hres].
  rewrite parse_id_number in Hres.
  destruct (head _) as [r|] eqn:Hhead; [|discriminate].
  simpl in Hres. injection Hres as Hres.
  assert (Hrows : posts db' = posts db1 ++
     [{| p_id := lastInsertRowid info; p_title := in_title postData;
         p_slug := createSlug (in_title postData); p_excerpt := in_excerpt postData;
         p_content := sanitizeHtml (in_content postData) sanitizeOptions;
         p_author_id := or_null_num (in_author_id postData);
         p_created_at := clock db1; p_updated_at := clock db1 |}]).
  { destruct Hsame as (_ & Hp2 & _). rewrite Hp2. exact Hposts. }
  assert (Hkey : forall pr, In pr (posts db') ->
                   bool_decide (p_slug pr = createSlug (in_title postData)) =
                   (p_id pr =? lastInsertRowid info)).
  { intros pr Hin. rewrite Hrows in Hin.
    apply in_app_or in Hin as [Hold | [<- | []]].
    - rewrite (bool_decide_eq_false_2 _ (Hslug pr Hold)).
      symmetry. apply Z.eqb_neq. exact (Hfresh pr Hold).
    - simpl. rewrite Z.eqb_refl. apply bool_decide_eq_true. reflexivity. }
  pose proof Hhead as Hr.
  apply head_In, in_select_posts in Hr as (pr & a & Hin & Hrj & Hc).
  simpl in Hc. destruct (r_id r =? lastInsertRowid info) eqn:Hid; [|discriminate].
  assert (Hpslug : post_slug p = createSlug (in_title postData)).
  { subst p r. simpl. simpl in Hid. rewrite <- (Hkey pr Hin) in Hid.
    apply bool_decide_eq_true in Hid. exact Hid. }
  apply Z.eqb_eq in Hid.
  assert (Hpid : post_id p = lastInsertRowid info) by (subst p; exact Hid).
  split; [|split; [|exact Hpslug]].
  - rewrite (getPostById_no_fault _ _ Hf), parse_id_number, Hpid, Hhead.
    simpl. rewrite Hres. reflexivity.
  - rewrite (getPostBySlug_no_fault _ _ Hf), Hpslug.
    replace (select_posts (fun r0 => Some (bool_decide (r_slug r0 = createSlug (in_title postData)))) db')
      with (select_posts (fun r0 => Some (id_is (Some (lastInsertRowid info)) (r_id r0))) db').
    + rewrite Hhead. simpl. rewrite Hres. reflexivity.
    + unfold select_posts. apply filter_ext_in.
      intros r0 Hr0. apply in_flat_map in Hr0 as (pr0 & Hpr0 & Hr0).
      apply in_left_join in Hr0 as (a0 & ->). simpl.
      rewrite (Hkey pr0 Hpr0). reflexivity.
Qed.

(** X3: [createPost] is not atomic.  When the row has been inserted and the
    read-back ([getPostById]) then fails, the handler turns the error into
    [null]: the caller is told the creation failed, and the post is
    stored. *)
Theorem createPost_null_after_insert (postData : PostInput) (db : Database)
    (code : sqlite_code) (rest : list (option sqlite_code)) :
  io_faults db = None :: None :: Some code :: rest ->
  (forall row, In row (posts db) -> p_slug row <> createSlug (in_title postData)) ->
  fk_ok (authors db) (or_null_num (in_author_id postData)) = true ->
  exists db' row,
    createPost postData db = (Ok None, db') /\
    posts db' = posts db ++ [row] /\
    p_title row = in_title postData /\
    p_slug row = createSlug (in_title postData).
Proof.
  intros Hf Hfresh Hfk.
  assert (Hex : existsb (fun p => bool_decide (p_slug p = createSlug (in_title postData)))
                        (posts db) = false).
  { destruct (existsb _ (posts db)) eqn:He; [|reflexivity].
    apply existsb_exists in He as (row & Hin & Hb).
    apply bool_decide_eq_true in Hb. destruct (Hfresh row Hin Hb). }
  unfold createPost, try_catch, bind, prepare, insert_post, run, bind, driver_call.
  rewrite Hf. cbn [io_faults set_io_faults posts authors foreign_keys].
  rewrite Hex, Hfk, andb_false_r.
  unfold getPostById, bind, prepare, driver_call.
  cbn [io_faults set_io_faults set_posts].
  eexists _, _. split; [reflexivity|].
  cbn [posts set_io_faults set_posts p_title p_slug]. repeat split.
Qed.

(** X4: with the foreign keys on, a [createPost] whose [author_id] is not the
    [id] of any author returns [null] and stores nothing. *)
Theorem createPost_unknown_author_rejected (postData : PostInput) (db : Database) (k : Z) :
  foreign_keys db = true ->
  in_author_id postData = Some k -> k <> 0 ->
  (forall a, In a (authors db) -> a_id a <> k) ->
  exists db', createPost postData db = (Ok None, db') /\ same_data db db'.
Proof.
  intros Hon Hk Hk0 Hno. unfold createPost.
  destruct (prepare_cases db) as (r & db1 & Hp & Hs1 & [-> | (code & ->)]).
  2:{ exists db1. split; [|exact Hs1].
      erewrite try_catch_Throw; [reflexivity|]. apply bind_Throw. exact Hp. }
  assert (Hi : exists code db2,
    insert_post (in_title postData) (createSlug (in_title postData)) (in_excerpt postData)
      (sanitizeHtml (in_content postData) sanitizeOptions)
      (or_null_num (in_author_id postData)) db1 = (Throw (SqliteError code), db2) /\
    same_data db1 db2).
  { unfold insert_post.
    match goal with
    | |- context [run ?f db1] =>
        destruct (run_cases f db1) as [(code & db2 & Hr & Hs) | (db2 & Hs & Hr)]; rewrite Hr
    end.
    - exists code, db2. split; [reflexivity | exact Hs].
    - destruct (existsb _ (posts db2)).
      { exists SQLITE_CONSTRAINT_UNIQUE, db2. split; [reflexivity | exact Hs]. }
      assert (Hfk : foreign_keys db2 &&
                    negb (fk_ok (authors db2) (or_null_num (in_author_id postData))) = true).
      { destruct Hs1 as (Ha1 & _ & _ & _ & Hf1 & _), Hs as (Ha2 & _ & _ & _ & Hf2 & _).
        rewrite Hf2, Hf1, Hon, Ha2, Ha1, Hk. simpl.
        destruct k as [|k'|k']; [congruence | |]; simpl; apply negb_true_iff;
          (destruct (existsb _ (authors db)) eqn:He; [|reflexivity]);
          apply existsb_exists in He as (a & Hin & Hb); apply Z.eqb_eq in Hb;
          destruct (Hno a Hin Hb). }
      rewrite Hfk. exists SQLITE_CONSTRAINT_FOREIGNKEY, db2. split; [reflexivity | exact Hs]. }
  destruct Hi as (code & db2 & Hi & Hs2).
  exists db2. split; [|eapply same_data_trans; eassumption].
  erewrite try_catch_Throw; [reflexivity|].
  erewrite bind_step by exact Hp. apply bind_Throw. exact Hi.
Qed.

(** *** Updating and deleting posts *)

Lemma getPostById_row id db p db' :
  getPostById id db = (Ok (Some p), db') ->
  same_data db db' /\
  exists pr a, In pr (posts db') /\ parse_id id = Some (p_id pr) /\
               p = mapRowToPost (joined pr a).
Proof.
  intros Hg. apply getPostById_Ok in Hg as [Hs Hr]. split; [exact Hs|].
  destruct (head _) as [r|] eqn:Hh; [|discriminate].
  simpl in Hr. injection Hr as ->.
  apply head_In, in_select_posts in Hh as (pr & a & Hin & -> & Hc).
  simpl in Hc. destruct (id_is _ _) eqn:Hid; [|discriminate].
  apply id_is_true in Hid. exists pr, a. repeat split; assumption.
Qed.

(** What a successful UPDATE of [posts] that hit a row leaves behind, with
    the time of the update. *)
Lemma update_post_done title slug excerpt content author_id id db info db' :
  update_post title slug excerpt content author_id id db = (Ok info, db') ->
  changes info <> 0 ->
  authors db' = authors db /\
  posts db' =
    List.map (fun p =>
      if id_is id (p_id p) then
        {| p_id := p_id p; p_title := title; p_slug := slug;
           p_excerpt := excerpt; p_content := content; p_author_id := author_id;
           p_created_at := p_created_at p; p_updated_at := clock db |}
      else p) (posts db).
Proof.
  unfold update_post. intros Hr Hch.
  apply run_Ok in Hr as (db1 & (Ha & Hp & Hsa & Hsp & Hfk & Hcl) & Hf).
  destruct (negb (existsb _ (posts db1))).
  { inversion Hf; subst. simpl in Hch. congruence. }
  destruct (existsb _ (posts db1)); [discriminate|].
  destruct (foreign_keys db1 && _); [discriminate|].
  injection Hf as Hinfo Hdb. subst info db'. simpl.
  rewrite Hp, Hcl. split; [exact Ha | reflexivity].
Qed.

(** X5: an [updatePost] that returns a post rewrites the rows with that
    identifier and no other: the identifier, the position and the creation
    time of the row are kept, the time of the update is the current one,
    the authors are untouched. *)
Theorem updatePost_keeps_identity (id : IdArg) (postData : PostInput)
    (db db' : Database) (p : Post) :
  updatePost id postData db = (Ok (Some p), db') ->
  parse_id id = Some (post_id p) /\
  authors db' = authors db /\
  posts db' = List.map (fun old => if p_id old =? post_id p
                                   then rewritten postData (clock db) old
                                   else old) (posts db) /\
  (exists old, In old (posts db) /\ p_id old = post_id p /\
               post_createdAt p = p_created_at old) /\
  post_updatedAt p = clock db.
Proof.
  intros Hu. unfold updatePost in Hu.
  apply try_catch_Ok in Hu as [Hu | (e & db1 & _ & Hh)]; [|discriminate].
  apply bind_Ok in Hu as (u & db1 & Hp & Hu).
  apply driver_call_Ok in Hp as (Ha1 & Hp1 & _ & _ & _ & Hc1).
  apply bind_Ok in Hu as (info & db2 & Hu & Hg).
  destruct (changes info =? 0) eqn:Hch; [discriminate|]. apply Z.eqb_neq in Hch.
  apply update_post_done in Hu as (Ha2 & Hp2); [|exact Hch].
  apply getPostById_row in Hg as ((Ha3 & Hp3 & _) & pr & a & Hin & Hk & ->).
  assert (Hrows : posts db' =
    List.map (fun old => if p_id old =? p_id pr then rewritten postData (clock db) old
                         else old) (posts db)).
  { rewrite Hp3, Hp2, Hp1, Hc1, Hk. apply List.map_ext. intros old. reflexivity. }
  simpl. split; [exact Hk|]. split; [congruence|]. split; [exact Hrows|].
  rewrite Hrows in Hin. apply in_map_iff in Hin as (old & Hold & Hin).
  destruct (p_id old =? p_id pr) eqn:Hid.
  - apply Z.eqb_eq in Hid. subst pr. simpl. split; [|reflexivity].
    exists old. split; [exact Hin | split; reflexivity].
  - apply Z.eqb_neq in Hid. subst pr. congruence.
Qed.

(** An UPDATE of [posts] that hits no row, or whose slug belongs to a row it
    does not hit, leaves the data as they are; it reports no change, or
    raises. *)
Lemma update_post_nothing title slug excerpt content author_id id db :
  (forall row, In row (posts db) -> id <> Some (p_id row)) \/
  (exists other, In other (posts db) /\ id <> Some (p_id other) /\ p_slug other = slug) ->
  exists r db', update_post title slug excerpt content author_id id db = (r, db') /\
    same_data db db' /\
    ((exists info, r = Ok info /\ changes info = 0) \/ exists code, r = Throw (SqliteError code)).
Proof.
  intros Hcase. unfold update_post.
  match goal with
  | |- context [run ?f db] =>
      destruct (run_cases f db) as [(code & db1 & Hr & Hs) | (db1 & Hs & Hr)]; rewrite Hr
  end.
  { eexists _, db1. split; [reflexivity|]. split; [exact Hs|]. right. eauto. }
  cbv beta zeta.
  destruct (negb (existsb (fun p => id_is id (p_id p)) (posts db1))) eqn:Hhit.
  { eexists _, db1. split; [reflexivity|]. split; [exact Hs|]. left. eauto. }
  assert (Hposts : posts db1 = posts db) by (destruct Hs as (_ & Hp & _); exact Hp).
  destruct Hcase as [Hno | (other & Hin & Hid & Hslug)].
  - apply negb_false_iff, existsb_exists in Hhit as (row & Hrow & Hb).
    rewrite Hposts in Hrow. apply id_is_true in Hb. destruct (Hno row Hrow Hb).
  - assert (Hex : existsb (fun p => negb (id_is id (p_id p)) && bool_decide (p_slug p = slug))
                          (posts db1) = true).
    { apply existsb_exists. exists other. rewrite Hposts. split; [exact Hin|].
      apply andb_true_iff. split.
      - apply negb_true_iff. destruct (id_is id (p_id other)) eqn:Hb; [|reflexivity].
        apply id_is_true in Hb. contradiction.
      - apply bool_decide_eq_true. exact Hslug. }
    rewrite Hex. eexists _, db1. split; [reflexivity|]. split; [exact Hs|]. right. eauto.
Qed.

Lemma updatePost_nothing id postData db :
  (forall row, In row (posts db) -> parse_id id <> Some (p_id row)) \/
  (exists other, In other (posts db) /\ parse_id id <> Some (p_id other) /\
                 p_slug other = createSlug (in_title postData)) ->
  exists db', updatePost id postData db = (Ok None, db') /\ same_data db db'.
Proof.
  intros Hcase. unfold updatePost.
  destruct (prepare_cases db) as (r & db1 & Hp & Hs1 & [-> | (code & ->)]).
  2:{ exists db1. split; [|exact Hs1].
      erewrite try_catch_Throw; [reflexivity|]. apply bind_Throw. exact Hp. }
  assert (Hposts : posts db1 = posts db) by (destruct Hs1 as (_ & H & _); exact H).
  destruct (update_post_nothing (in_title postData) (createSlug (in_title postData))
              (in_excerpt postData) (sanitizeHtml (in_content postData) sanitizeOptions)
              (or_null_num (in_author_id postData)) (parse_id id) db1)
    as (r & db2 & Hu & Hs2 & [(info & -> & Hch) | (code & ->)]).
  { rewrite Hposts. exact Hcase. }
  - exists db2. split; [|eapply same_data_trans; eassumption].
    apply try_catch_step. erewrite bind_step by exact Hp.
    erewrite bind_step by exact Hu. rewrite Hch. reflexivity.
  - exists db2. split; [|eapply same_data_trans; eassumption].
    erewrite try_catch_Throw; [reflexivity|].
    erewrite bind_step by exact Hp. apply bind_Throw. exact Hu.
Qed.

(** X6: [updatePost] with a title whose slug is the slug of another post
    returns [null] and leaves the data as they are. *)
Theorem updatePost_slug_of_other_post_rejected (id : IdArg) (postData : PostInput)
    (db : Database) (other : PostRow) :
  In other (posts db) ->
  parse_id id <> Some (p_id other) ->
  p_slug other = createSlug (in_title postData) ->
  exists db', updatePost id postData db = (Ok None, db') /\ same_data db db'.
Proof. intros Hin Hid Hslug. apply updatePost_nothing. right. exists other. tauto. Qed.

Lemma filter_negb_all {A} (f : A -> bool) (l : list A) :
  List.filter f l = [] -> List.filter (fun x => negb (f x)) l = l.
Proof.
  induction l as [|x l IH]; simpl; [reflexivity|].
  destruct (f x); simpl; [discriminate|]. intros Hl. rewrite IH by exact Hl. reflexivity.
Qed.

(** X7: [deletePost] answers [true] only for the identifier of a stored post,
    and then exactly the rows with that identifier are gone and a later
    [getPostById] finds nothing; when it answers [false] the posts are as
    they were.  The authors are untouched in both cases. *)
Theorem deletePost_removes_row (id : IdArg) (db db' : Database) (b : bool) :
  deletePost id db = (Ok b, db') ->
  authors db' = authors db /\
  if b then
    exists row, In row (posts db) /\ parse_id id = Some (p_id row) /\
      posts db' = List.filter (fun old => negb (p_id old =? p_id row)) (posts db) /\
      (io_faults db' = [] -> getPostById id db' = (Ok None, db'))
  else posts db' = posts db.
Proof.
  intros Hd. unfold deletePost in Hd.
  apply try_catch_Ok in Hd as [Hd | (e & db1 & Hbody & Hh)].
  - apply bind_Ok in Hd as (u & db1 & Hp & Hd).
    apply driver_call_Ok in Hp as (Ha1 & Hp1 & _).
    apply bind_Ok in Hd as (info & db2 & Hdel & Hr).
    unfold delete_post in Hdel.
    apply run_Ok in Hdel as (db3 & (Ha3 & Hp3 & _) & Hf).
    injection Hf as Hinfo Hdb. unfold ret in Hr. injection Hr as Hb Hdb'.
    subst db2.
    assert (Hposts : posts db' =
              List.filter (fun p => negb (id_is (parse_id id) (p_id p))) (posts db)).
    { rewrite <- Hdb'. simpl. rewrite Hp3, Hp1. reflexivity. }
    assert (Hauth : authors db' = authors db).
    { rewrite <- Hdb'. simpl. congruence. }
    rewrite <- Hinfo in Hb. cbn [changes] in Hb. rewrite Hp3, Hp1 in Hb.
    clear Hdb'. split; [exact Hauth|].
    destruct b.
    + apply Z.ltb_lt in Hb.
      destruct (List.filter (fun p => id_is (parse_id id) (p_id p)) (posts db))
        as [|row hits] eqn:Hhits; [simpl in Hb; lia|].
      assert (Hrow : In row (List.filter (fun p => id_is (parse_id id) (p_id p)) (posts db)))
        by (rewrite Hhits; left; reflexivity).
      apply filter_In in Hrow as [Hrow Hid]. apply id_is_true in Hid.
      exists row. split; [exact Hrow|]. split; [exact Hid|].
      split; [rewrite Hposts, Hid; reflexivity|].
      intros Hnf. rewrite (getPostById_no_fault _ _ Hnf).
      rewrite select_posts_none; [reflexivity|].
      intros pr a Hpr. rewrite Hposts in Hpr. apply filter_In in Hpr as [_ Hne].
      simpl. apply negb_true_iff in Hne. rewrite Hne. reflexivity.
    + apply Z.ltb_ge in Hb. rewrite Hposts.
      apply filter_negb_all.
      destruct (List.filter _ (posts db)) as [|row hits]; [reflexivity|].
      simpl in Hb. lia.
  - unfold ret in Hh. injection Hh as Hb Hdb. subst b db'.
    assert (Hs : same_data db db1).
    { unfold bind in Hbody.
      destruct (prepare_cases db) as (r & db2 & Hp & Hs1 & [-> | (code & ->)]);
        rewrite Hp in Hbody.
      - unfold delete_post in Hbody.
        match type of Hbody with
        | context [run ?f db2] =>
            destruct (run_cases f db2) as [(code & db3 & Hr & Hs) | (db3 & Hs & Hr)];
              rewrite Hr in Hbody
        end.
        + injection Hbody as _ Hdb. subst db3. eapply same_data_trans; eassumption.
        + discriminate.
      - injection Hbody as _ Hdb. subst db2. exact Hs1. }
    destruct Hs as (Ha & Hp & _). split; [exact Ha | exact Hp].
Qed.

(** *** The constraints of the schema, in every reachable state *)

Lemma constraints_ok_same db db' :
  same_data db db' -> constraints_ok db -> constraints_ok db'.
Proof.
  intros (Ha & Hp & _ & _ & Hfk & _) ((Hon & Hia & Hip) & Href & Hsl & Hem).
  unfold constraints_ok, store_ok, references_ok, slugs_unique, emails_unique.
  rewrite Ha, Hp, Hfk. repeat split; assumption.
Qed.

Lemma run_state f db :
  exists db1, same_data db db1 /\ (snd (run f db) = db1 \/ snd (run f db) = snd (f db1)).
Proof.
  destruct (run_cases f db) as [(code & db1 & Hr & Hs) | (db1 & Hs & Hr)]; rewrite Hr;
    exists db1; split; auto.
Qed.

Lemma ok_driver_call : preserves constraints_ok driver_call.
Proof.
  intros db HI. eapply constraints_ok_same; [|exact HI].
  unfold driver_call. destruct (io_faults db) as [|[code|] rest]; repeat split.
Qed.

Lemma ok_query {A} (f : Database -> A) : preserves constraints_ok (query f).
Proof.
  unfold query. apply preserves_bind; [apply ok_driver_call|].
  intros _ db HI. exact HI.
Qed.

Lemma ok_run f : preserves constraints_ok f -> preserves constraints_ok (run f).
Proof.
  intros Hf. unfold run. apply preserves_bind; [apply ok_driver_call|].
  intros _. exact Hf.
Qed.

Lemma in_present {A V} (val : A -> option V) (l : list A) (v : V) :
  In v (present val l) <-> exists a, In a l /\ val a = Some v.
Proof.
  unfold present. rewrite in_flat_map. split.
  - intros (a & Hin & Hv). exists a. split; [exact Hin|].
    destruct (val a) as [w|]; [|destruct Hv].
    destruct Hv as [-> | []]. reflexivity.
  - intros (a & Hin & Hv). exists a. split; [exact Hin|]. rewrite Hv. left. reflexivity.
Qed.

Lemma present_Some {A V} (f : A -> V) (l : list A) :
  present (fun a => Some (f a)) l = List.map f l.
Proof.
  unfold present. induction l as [|x l IH]; simpl; [reflexivity|]. rewrite IH. reflexivity.
Qed.

Lemma present_cons {A V} (val : A -> option V) (x : A) (l : list A) :
  present val (x :: l) =
  match val x with Some v => v :: present val l | None => present val l end.
Proof. unfold present. simpl. destruct (val x); reflexivity. Qed.

Lemma NoDup_present_tail {A V} (val : A -> option V) (x : A) (l : list A) :
  List.NoDup (present val (x :: l)) -> List.NoDup (present val l).
Proof.
  rewrite present_cons. destruct (val x); [|tauto].
  intros Hnd. inversion Hnd. assumption.
Qed.

Lemma NoDup_present_filter {A V} (val : A -> option V) (g : A -> bool) (l : list A) :
  List.NoDup (present val l) -> List.NoDup (present val (List.filter g l)).
Proof.
  induction l as [|x l IH]; simpl; intros Hnd; [exact Hnd|].
  pose proof (NoDup_present_tail _ _ _ Hnd) as Htail.
  destruct (g x); [|apply IH; exact Htail].
  rewrite present_cons in *. destruct (val x) as [v|]; [|apply IH; exact Htail].
  inversion Hnd as [|y ys Hv Hl]; subst.
  constructor; [|apply IH; exact Hl].
  intros Hin. apply Hv. apply in_present in Hin as (a & Ha & Hva).
  apply filter_In in Ha as [Ha _]. apply in_present. exists a. tauto.
Qed.

(** An UPDATE that sets a column under a UNIQUE constraint to [v] on the row
    with the given key, no other row holding [v]. *)
Lemma update_keeps_unique {A V} (key : A -> Z) (val : A -> option V) (upd : A -> A)
    (id : option Z) (v : option V) (l : list A) :
  (forall a, val (upd a) = v) ->
  List.NoDup (List.map key l) ->
  List.NoDup (present val l) ->
  (forall a x, In a l -> id_is id (key a) = false -> v = Some x -> val a <> Some x) ->
  List.NoDup (present val (List.map (fun a => if id_is id (key a) then upd a else a) l)).
Proof.
  intros Hupd. induction l as [|x l IH]; cbn [List.map]; intros Hkeys Hvals Hother;
    [constructor|].
  inversion Hkeys as [|k ks Hx Hks]; subst.
  pose proof (NoDup_present_tail _ _ _ Hvals) as Htail.
  destruct (id_is id (key x)) eqn:Hhit.
  - apply id_is_true in Hhit.
    assert (Hrest : List.map (fun a => if id_is id (key a) then upd a else a) l = l).
    { rewrite <- (List.map_id l) at 2. apply List.map_ext_in.
      intros a Ha. destruct (id_is id (key a)) eqn:Hb; [|reflexivity].
      apply id_is_true in Hb. exfalso. apply Hx.
      apply in_map_iff. exists a. split; [congruence | exact Ha]. }
    rewrite Hrest, present_cons, Hupd.
    destruct v as [y|]; [|exact Htail].
    constructor; [|exact Htail].
    intros Hin. apply in_present in Hin as (a & Ha & Hva).
    apply (Hother a y); [right; exact Ha | | reflexivity | exact Hva].
    destruct (id_is id (key a)) eqn:Hb; [|reflexivity].
    apply id_is_true in Hb. exfalso. apply Hx.
    apply in_map_iff. exists a. split; [congruence | exact Ha].
  - assert (IH' : List.NoDup
                    (present val (List.map (fun a => if id_is id (key a) then upd a else a) l))).
    { apply IH; [exact Hks | exact Htail |].
      intros a y Ha. apply Hother. right. exact Ha. }
    rewrite present_cons. destruct (val x) as [y|] eqn:Hvx; [|exact IH'].
    constructor; [|exact IH'].
    intros Hin. apply in_present in Hin as (a' & Ha' & Hva').
    apply in_map_iff in Ha' as (a & <- & Ha).
    destruct (id_is id (key a)).
    + rewrite Hupd in Hva'.
      apply (Hother x y); [left; reflexivity | exact Hhit | exact Hva' | exact Hvx].
    + rewrite present_cons, Hvx in Hvals. inversion Hvals as [|z zs Hy _]; subst.
      apply Hy. apply in_present. exists a. tauto.
Qed.

Lemma fk_ok_ids (l l' : list Author) (x : option Z) :
  List.map a_id l = List.map a_id l' -> fk_ok l x = fk_ok l' x.
Proof.
  destruct x as [k|]; [|reflexivity]. simpl. revert l'.
  induction l as [|a l IH]; intros [|a' l'] Heq; simpl in *; try discriminate; [reflexivity|].
  injection Heq as Ha Hl. rewrite Ha, (IH l' Hl). reflexivity.
Qed.

Lemma fk_ok_app (l l' : list Author) (x : option Z) :
  fk_ok l x = true -> fk_ok (l ++ l') x = true.
Proof.
  destruct x as [k|]; [|reflexivity]. simpl. rewrite existsb_app. intros ->. reflexivity.
Qed.

Lemma fk_checked (db : Database) (x : option Z) :
  foreign_keys db = true ->
  foreign_keys db && negb (fk_ok (authors db) x) = false ->
  fk_ok (authors db) x = true.
Proof. intros -> Hc. simpl in Hc. apply negb_false_iff in Hc. exact Hc. Qed.

Lemma ok_insert_post title slug excerpt content author_id :
  preserves constraints_ok (insert_post title slug excerpt content author_id).
Proof.
  apply ok_run. intros db ((Hon & Hia & Hip) & Href & Hsl & Hem).
  destruct (existsb _ (posts db)) eqn:Hslug; [repeat split; assumption|].
  destruct (foreign_keys db && _) eqn:Hfk; [repeat split; assumption|].
  cbv zeta. unfold constraints_ok, store_ok, references_ok, slugs_unique, emails_unique.
  cbn [snd posts authors foreign_keys set_posts].
  split; [split; [exact Hon | split; [exact Hia|]] | split; [|split; [|exact Hem]]].
  - rewrite List.map_app. apply NoDup_snoc; [exact Hip|]. simpl. apply fresh_rowid_not_in.
  - intros row Hrow. apply in_app_or in Hrow as [Hold | [<- | []]].
    + apply Href. exact Hold.
    + simpl. apply fk_checked; assumption.
  - rewrite List.map_app. apply NoDup_snoc; [exact Hsl|]. simpl.
    intros Hin. apply in_map_iff in Hin as (old & Hs & Hold).
    apply (existsb_false_In _ _ _ Hslug) in Hold.
    apply bool_decide_eq_false in Hold. contradiction.
Qed.

Lemma ok_update_post title slug excerpt content author_id id :
  preserves constraints_ok (update_post title slug excerpt content author_id id).
Proof.
  apply ok_run. intros db ((Hon & Hia & Hip) & Href & Hsl & Hem). cbv beta zeta.
  destruct (negb (existsb _ (posts db))); [repeat split; assumption|].
  destruct (existsb _ (posts db)) eqn:Hslug; [repeat split; assumption|].
  destruct (foreign_keys db && _) eqn:Hfk; [repeat split; assumption|].
  unfold constraints_ok, store_ok, references_ok, slugs_unique, emails_unique.
  cbn [snd posts authors foreign_keys set_posts].
  split; [split; [exact Hon | split; [exact Hia|]] | split; [|split; [|exact Hem]]].
  - rewrite List.map_map. erewrite List.map_ext; [exact Hip|].
    intros p. simpl. destruct (id_is id (p_id p)); reflexivity.
  - intros row Hrow. apply in_map_iff in Hrow as (old & <- & Hold).
    destruct (id_is id (p_id old)); [|apply Href; exact Hold].
    simpl. apply fk_checked; assumption.
  - rewrite <- (present_Some p_slug).
    apply (update_keeps_unique p_id (fun p => Some (p_slug p)) _ id (Some slug)).
    + intros a. reflexivity.
    + exact Hip.
    + rewrite present_Some. exact Hsl.
    + intros a x Ha Hhit Hx Hva. injection Hx as <-. injection Hva as Hva.
      apply (existsb_false_In _ _ _ Hslug) in Ha.
      rewrite Hhit in Ha. simpl in Ha.
      apply bool_decide_eq_false in Ha. contradiction.
Qed.

Lemma ok_delete_post id : preserves constraints_ok (delete_post id).
Proof.
  apply ok_run. intros db ((Hon & Hia & Hip) & Href & Hsl & Hem).
  unfold constraints_ok, store_ok, references_ok, slugs_unique, emails_unique.
  cbn [snd posts authors foreign_keys set_posts].
  split; [split; [exact Hon | split; [exact Hia|]] | split; [|split; [|exact Hem]]].
  - apply NoDup_map_filter. exact Hip.
  - intros row Hrow. apply filter_In in Hrow as [Hrow _]. apply Href. exact Hrow.
  - apply NoDup_map_filter. exact Hsl.
Qed.

Lemma ok_insert_author name email bio :
  preserves constraints_ok (insert_author name email bio).
Proof.
  apply ok_run. intros db ((Hon & Hia & Hip) & Href & Hsl & Hem).
  destruct (email_taken email (authors db)) eqn:Htaken; [repeat split; assumption|].
  cbv zeta. unfold constraints_ok, store_ok, references_ok, slugs_unique, emails_unique.
  cbn [snd posts authors foreign_keys set_authors].
  split; [split; [exact Hon | split; [|exact Hip]] | split; [|split; [exact Hsl|]]].
  - rewrite List.map_app. apply NoDup_snoc; [exact Hia|]. simpl. apply fresh_rowid_not_in.
  - intros row Hrow. apply fk_ok_app. apply Href. exact Hrow.
  - unfold present. rewrite flat_map_app. simpl.
    destruct email as [e|]; [|rewrite !app_nil_r; exact Hem].
    simpl. apply NoDup_snoc; [exact Hem|].
    intros Hin. apply in_present in Hin as (a & Ha & Hva).
    simpl in Htaken. apply (existsb_false_In _ _ _ Htaken) in Ha.
    apply bool_decide_eq_false in Ha. contradiction.
Qed.

Lemma ok_update_author name email bio id :
  preserves constraints_ok (update_author name email bio id).
Proof.
  apply ok_run. intros db ((Hon & Hia & Hip) & Href & Hsl & Hem). cbv beta zeta.
  destruct (negb (existsb _ (authors db))); [repeat split; assumption|].
  destruct (email_taken email _) eqn:Htaken; [repeat split; assumption|].
  assert (Hids : List.map a_id
                   (List.map (fun a =>
                      if id_is id (a_id a) then
                        {| a_id := a_id a; a_name := name; a_email := email; a_bio := bio;
                           a_created_at := a_created_at a; a_updated_at := clock db |}
                      else a) (authors db)) = List.map a_id (authors db)).
  { rewrite List.map_map. apply List.map_ext.
    intros a. destruct (id_is id (a_id a)); reflexivity. }
  unfold constraints_ok, store_ok, references_ok, slugs_unique, emails_unique.
  cbn [snd posts authors foreign_keys set_authors].
  split; [split; [exact Hon | split; [|exact Hip]] | split; [|split; [exact Hsl|]]].
  - rewrite Hids. exact Hia.
  - intros row Hrow. rewrite (fk_ok_ids _ _ _ Hids). apply Href. exact Hrow.
  - apply (update_keeps_unique a_id a_email _ id email).
    + intros a. reflexivity.
    + exact Hia.
    + exact Hem.
    + intros a x Ha Hhit -> Hva. simpl in Htaken.
      assert (Hin : In a (List.filter (fun a0 => negb (id_is id (a_id a0))) (authors db))).
      { apply filter_In. split; [exact Ha|]. rewrite Hhit. reflexivity. }
      apply (existsb_false_In _ _ _ Htaken) in Hin.
      apply bool_decide_eq_false in Hin. contradiction.
Qed.

Lemma ok_delete_author id : preserves constraints_ok (delete_author id).
Proof.
  apply ok_run. intros db ((Hon & Hia & Hip) & Href & Hsl & Hem). cbv beta zeta.
  unfold constraints_ok, store_ok, references_ok, slugs_unique, emails_unique.
  cbn [snd posts authors foreign_keys set_posts set_authors]. rewrite Hon.
  split; [split; [reflexivity | split] | split; [|split]].
  - apply NoDup_map_filter. exact Hia.
  - rewrite List.map_map. erewrite List.map_ext; [exact Hip|].
    intros p. unfold set_null_on_delete. destruct (existsb _ _); reflexivity.
  - intros row Hrow. apply in_map_iff in Hrow as (old & <- & Hold).
    unfold set_null_on_delete.
    destruct (existsb _ (List.filter _ (authors db))) eqn:Hgone; [reflexivity|].
    specialize (Href old Hold).
    destruct (p_author_id old) as [k|] eqn:Hk; [|reflexivity].
    simpl in *. apply existsb_exists in Href as (a & Ha & Hid).
    apply existsb_exists. exists a. split; [|exact Hid].
    apply filter_In. split; [exact Ha|].
    destruct (id_is id (a_id a)) eqn:Hhit; [|reflexivity].
    assert (Hin : In a (List.filter (fun a0 => id_is id (a_id a0)) (authors db))).
    { apply filter_In. split; assumption. }
    apply (existsb_false_In _ _ _ Hgone) in Hin. simpl in Hin. congruence.
  - rewrite List.map_map. erewrite List.map_ext; [exact Hsl|].
    intros p. unfold set_null_on_delete. destruct (existsb _ _); reflexivity.
  - apply NoDup_present_filter. exact Hem.
Qed.

Ltac ok_tac :=
  repeat first
    [ apply preserves_ret
    | apply ok_driver_call
    | apply ok_query
    | apply ok_insert_post
    | apply ok_update_post
    | apply ok_delete_post
    | apply ok_insert_author
    | apply ok_update_author
    | apply ok_delete_author
    | apply preserves_try_catch
    | apply preserves_bind
    | apply preserves_if
    | intro ].

Lemma repository_keeps_constraints (c : RepositoryCall) (db : Database) :
  constraints_ok db -> constraints_ok (state_after c db).
Proof.
  revert db.
  destruct c; simpl; intros db HI;
    match goal with
    | |- constraints_ok (snd (?m db)) =>
        let Hm := fresh in
        assert (Hm : preserves constraints_ok m);
          [ unfold getAllPosts, getPostById, getPostBySlug, createPost, updatePost,
              deletePost, searchPosts, getAllAuthors, getAuthorById, createAuthor,
              updateAuthor, deleteAuthor, searchAuthors, getAuthorsWithPostCount,
              prepare; ok_tac; fail
          | exact (Hm db HI) ]
    end.
Qed.

Lemma reachable_constraints_ok (db : Database) : reachable db -> constraints_ok db.
Proof.
  induction 1 as [now | c db _ IH | now faults db _ IH].
  - repeat split; try constructor. intros row [].
  - apply repository_keeps_constraints. exact IH.
  - exact IH.
Qed.

(** X8: referential integrity.  In every state the application can reach,
    the [author_id] of every post is NULL or the [id] of a stored author:
    [createPost] and [updatePost] refuse an unknown author, [deleteAuthor]
    clears the references to the author it removes. *)
Theorem reachable_posts_refer_to_authors (db : Database) (row : PostRow) (k : Z) :
  reachable db -> In row (posts db) -> p_author_id row = Some k ->
  exists a, In a (authors db) /\ a_id a = k.
Proof.
  intros Hr Hin Hk.
  destruct (reachable_constraints_ok db Hr) as (_ & Href & _).
  specialize (Href row Hin). rewrite Hk in Href. simpl in Href.
  apply existsb_exists in Href as (a & Ha & Hid). apply Z.eqb_eq in Hid.
  exists a. split; assumption.
Qed.

Lemma unique_position {A V} (val : A -> option V) (l : list A) :
  List.NoDup (present val l) ->
  forall i j x y v, nth_error l i = Some x -> nth_error l j = Some y ->
                    val x = Some v -> val y = Some v -> i = j.
Proof.
  induction l as [|a l IH]; intros Hnd i j x y v Hx Hy Hvx Hvy.
  - destruct i; discriminate.
  - pose proof (NoDup_present_tail _ _ _ Hnd) as Htail.
    destruct i as [|i], j as [|j]; simpl in Hx, Hy.
    + reflexivity.
    + injection Hx as ->. rewrite present_cons, Hvx in Hnd.
      inversion Hnd as [|z zs Hv _]; subst. exfalso. apply Hv.
      apply in_present. exists y. split; [eapply nth_error_In; exact Hy | exact Hvy].
    + injection Hy as ->. rewrite present_cons, Hvy in Hnd.
      inversion Hnd as [|z zs Hv _]; subst. exfalso. apply Hv.
      apply in_present. exists x. split; [eapply nth_error_In; exact Hx | exact Hvx].
    + f_equal. eapply (IH Htail); eassumption.
Qed.

(** X9: the UNIQUE columns.  In every state the application can reach, no
    two rows of [posts] have the same slug and no two rows of [authors] the
    same non-NULL email. *)
Theorem reachable_slugs_and_emails_unique (db : Database) :
  reachable db ->
  (forall i j x y, nth_error (posts db) i = Some x -> nth_error (posts db) j = Some y ->
                   p_slug x = p_slug y -> i = j) /\
  (forall i j x y e, nth_error (authors db) i = Some x -> nth_error (authors db) j = Some y ->
                     a_email x = Some e -> a_email y = Some e -> i = j).
Proof.
  intros Hr. destruct (reachable_constraints_ok db Hr) as (_ & _ & Hsl & Hem).
  split.
  - intros i j x y Hx Hy Heq.
    unfold slugs_unique in Hsl. rewrite <- present_Some in Hsl.
    apply (unique_position _ _ Hsl i j x y (p_slug x) Hx Hy); [reflexivity | congruence].
  - intros i j x y e. apply (unique_position _ _ Hem).
Qed.

(** *** Identifiers that no row has *)

Lemma set_null_none (p : PostRow) : set_null_on_delete [] p = p.
Proof. reflexivity. Qed.

Lemma no_hit_filter {A} (key : A -> Z) (id : option Z) (l : list A) :
  (forall a, In a l -> id <> Some (key a)) ->
  List.filter (fun a => id_is id (key a)) l = [].
Proof.
  intros Hno. apply filter_none. intros a Ha.
  destruct (id_is id (key a)) eqn:Hb; [|reflexivity].
  apply id_is_true in Hb. destruct (Hno a Ha Hb).
Qed.

Lemma deletePost_nothing id db :
  (forall row, In row (posts db) -> parse_id id <> Some (p_id row)) ->
  exists db', deletePost id db = (Ok false, db') /\ same_data db db'.
Proof.
  intros Hno. unfold deletePost.
  destruct (prepare_cases db) as (r & db1 & Hp & Hs1 & [-> | (code & ->)]).
  2:{ exists db1. split; [|exact Hs1].
      erewrite try_catch_Throw; [reflexivity|]. apply bind_Throw. exact Hp. }
  unfold delete_post.
  match goal with
  | |- context [run ?f] =>
      destruct (run_cases f db1) as [(code & db2 & Hr & Hs2) | (db2 & Hs2 & Hr)]
  end.
  - exists db2. split; [|eapply same_data_trans; eassumption].
    erewrite try_catch_Throw; [reflexivity|].
    erewrite bind_step by exact Hp. apply bind_Throw. exact Hr.
  - assert (Hposts : posts db2 = posts db).
    { destruct Hs1 as (_ & H1 & _), Hs2 as (_ & H2 & _). congruence. }
    assert (Hnone : List.filter (fun p => id_is (parse_id id) (p_id p)) (posts db2) = []).
    { rewrite Hposts. apply no_hit_filter. exact Hno. }
    eexists. split.
    + apply try_catch_step. erewrite bind_step by exact Hp.
      erewrite bind_step by exact Hr. cbn [changes]. rewrite Hnone. reflexivity.
    + eapply same_data_trans; [exact Hs1|]. eapply same_data_trans; [exact Hs2|].
      unfold same_data. cbn [authors posts seq_authors seq_posts foreign_keys clock set_posts].
      rewrite (filter_negb_all _ _ Hnone). repeat split.
Qed.

(** X10: an identifier that no post has, be it a number, a numeric string or a
    string that [parseInt] reads as [NaN]: [getPostById] finds nothing,
    [updatePost] returns [null], [deletePost] returns [false], and the data
    stay as they are. *)
Theorem post_unknown_id (id : IdArg) (postData : PostInput) (db : Database) :
  (forall row, In row (posts db) -> parse_id id <> Some (p_id row)) ->
  (io_faults db = [] -> getPostById id db = (Ok None, db)) /\
  (exists db', updatePost id postData db = (Ok None, db') /\ same_data db db') /\
  (exists db', deletePost id db = (Ok false, db') /\ same_data db db').
Proof.
  intros Hno. split; [|split].
  - intros Hf. rewrite (getPostById_no_fault _ _ Hf).
    rewrite select_posts_none; [reflexivity|].
    intros pr a Hpr. simpl.
    destruct (id_is (parse_id id) (p_id pr)) eqn:Hb; [|reflexivity].
    apply id_is_true in Hb. destruct (Hno pr Hpr Hb).
  - apply updatePost_nothing. left. exact Hno.
  - apply deletePost_nothing. exact Hno.
Qed.

(** *** The author repository *)

Lemma getAuthorById_Ok id db r db' :
  getAuthorById id db = (Ok r, db') ->
  same_data db db' /\
  r = head (List.filter (fun a => id_is (parse_id id) (a_id a)) (authors db')).
Proof.
  unfold getAuthorById. intros Hg.
  apply bind_Ok in Hg as (u & db1 & Hp & Hq). apply driver_call_Ok in Hp.
  apply query_Ok in Hq as [Hsame ->].
  split; [eapply same_data_trans; eassumption | reflexivity].
Qed.

Lemma getAuthorById_no_fault id db :
  io_faults db = [] ->
  getAuthorById id db =
  (Ok (head (List.filter (fun a => id_is (parse_id id) (a_id a)) (authors db))), db).
Proof.
  intros Hf. unfold getAuthorById, prepare, query, bind, gets, ret.
  repeat (rewrite (driver_call_no_fault _ Hf); cbv beta iota). reflexivity.
Qed.

Lemma or_null_filled (e : jsstring) : e <> [] -> or_null (Some e) = Some e.
Proof. destruct e; [congruence | reflexivity]. Qed.

(** An INSERT whose email is already stored raises and changes nothing. *)
Lemma insert_author_rejects name bio db row e :
  In row (authors db) -> a_email row = Some e ->
  exists code db',
    insert_author name (Some e) bio db = (Throw (SqliteError code), db') /\
    same_data db db'.
Proof.
  intros Hin Hemail. unfold insert_author.
  match goal with
  | |- context [run ?f db] =>
      destruct (run_cases f db) as [(code & db1 & Hr & Hs) | (db1 & Hs & Hr)]; rewrite Hr
  end.
  - exists code, db1. split; [reflexivity | exact Hs].
  - assert (Hex : email_taken (Some e) (authors db1) = true).
    { simpl. apply existsb_exists. exists row. split.
      - destruct Hs as (Ha & _). rewrite Ha. exact Hin.
      - apply bool_decide_eq_true. exact Hemail. }
    rewrite Hex. exists SQLITE_CONSTRAINT_UNIQUE, db1. split; [reflexivity | exact Hs].
Qed.

Lemma createAuthor_email_taken authorData db row e :
  In row (authors db) -> a_email row = Some e ->
  or_null (in_email authorData) = Some e ->
  exists db', createAuthor authorData db = (Ok None, db') /\ same_data db db'.
Proof.
  intros Hin Hemail He. unfold createAuthor. rewrite He.
  destruct (prepare_cases db) as (r & db1 & Hp & Hs1 & [-> | (code & ->)]).
  - assert (Hin1 : In row (authors db1)).
    { destruct Hs1 as (Ha1 & _). rewrite Ha1. exact Hin. }
    destruct (insert_author_rejects (in_name authorData) (or_null (in_bio authorData))
                db1 row e Hin1 Hemail) as (code & db2 & Hi & Hs2).
    exists db2. split; [|eapply same_data_trans; eassumption].
    erewrite try_catch_Throw; [reflexivity|].
    erewrite bind_step by exact Hp. apply bind_Throw. exact Hi.
  - exists db1. split; [|exact Hs1].
    erewrite try_catch_Throw; [reflexivity|]. apply bind_Throw. exact Hp.
Qed.

(** X11: after a [createAuthor] that returned an author with a non-empty
    email, a [createAuthor] with the same email returns [null] and adds no
    row, whatever the environment does. *)
Theorem createAuthor_same_email_rejected (first second : AuthorInput) (db db1 : Database)
    (a : Author) (e : jsstring) :
  createAuthor first db = (Ok (Some a), db1) ->
  in_email first = Some e -> in_email second = Some e -> e <> [] ->
  exists db2, createAuthor second db1 = (Ok None, db2) /\ same_data db1 db2.
Proof.
  intros Hc H1 H2 He.
  destruct (author_write_stored (ACreate first) db a db1 Hc) as (Hin & Hall).
  destruct (Hall a Hin eq_refl) as (_ & Hemail & _). simpl in Hemail.
  rewrite H1, (or_null_filled e He) in Hemail.
  apply (createAuthor_email_taken second db1 a e Hin Hemail).
  rewrite H2. apply or_null_filled. exact He.
Qed.

(** What a successful INSERT into [authors] leaves behind, with the time of
    the insertion. *)
Lemma insert_author_done name email bio db info db' :
  insert_author name email bio db = (Ok info, db') ->
  authors db' = authors db ++
    [{| a_id := lastInsertRowid info; a_name := name; a_email := email; a_bio := bio;
        a_created_at := clock db; a_updated_at := clock db |}] /\
  posts db' = posts db /\
  (forall old, In old (authors db) -> a_id old <> lastInsertRowid info).
Proof.
  unfold insert_author. intros Hr.
  apply run_Ok in Hr as (db1 & (Ha & Hp & Hsa & Hsp & Hfk & Hcl) & Hf).
  destruct (email_taken email (authors db1)); [discriminate|].
  injection Hf as Hinfo Hdb. subst info db'. simpl.
  rewrite Ha, Hcl. split; [reflexivity|]. split; [exact Hp|].
  intros old Hold Heq.
  apply (in_map a_id) in Hold. apply (next_rowid_fresh (seq_authors db1)) in Hold. lia.
Qed.

(** X12: the author returned by [createAuthor] has the submitted name, the
    email and biography with an empty text turned into NULL, and the
    current time as creation and update time; it is appended to the
    authors, the posts are untouched, and [getAuthorById] finds it under its
    identifier. *)
Theorem createAuthor_read_back (authorData : AuthorInput) (db db' : Database) (a : Author) :
  createAuthor authorData db = (Ok (Some a), db') ->
  a = {| a_id := a_id a; a_name := in_name authorData;
         a_email := or_null (in_email authorData); a_bio := or_null (in_bio authorData);
         a_created_at := clock db; a_updated_at := clock db |} /\
  authors db' = authors db ++ [a] /\
  posts db' = posts db /\
  (io_faults db' = [] -> getAuthorById (IdNumber (a_id a)) db' = (Ok (Some a), db')).
Proof.
  intros Hc. unfold createAuthor in Hc.
  apply try_catch_Ok in Hc as [Hc | (e & db1 & _ & Hh)]; [|discriminate].
  apply bind_Ok in Hc as (u & db1 & Hp & Hc).
  apply driver_call_Ok in Hp as (Ha1 & Hp1 & _ & _ & _ & Hc1).
  apply bind_Ok in Hc as (info & db2 & Hi & Hg).
  apply insert_author_done in Hi as (Hrows & Hposts & Hfresh).
  apply getAuthorById_Ok in Hg as [(Ha3 & Hp3 & _) Hres].
  rewrite parse_id_number in Hres.
  assert (Hfilter : List.filter (fun x => id_is (Some (lastInsertRowid info)) (a_id x))
                                (authors db') =
                    [{| a_id := lastInsertRowid info; a_name := in_name authorData;
                        a_email := or_null (in_email authorData);
                        a_bio := or_null (in_bio authorData);
                        a_created_at := clock db; a_updated_at := clock db |}]).
  { rewrite Ha3, Hrows, List.filter_app, Hc1.
    rewrite filter_none.
    - simpl. rewrite Z.eqb_refl. reflexivity.
    - intros old Hold. simpl. apply Z.eqb_neq. apply Hfresh. exact Hold. }
  rewrite Hfilter in Hres. simpl in Hres. injection Hres as Hres.
  assert (Hid : a_id a = lastInsertRowid info) by (subst a; reflexivity).
  split; [rewrite Hid; exact Hres|].
  split; [rewrite Ha3, Hrows, Hc1, Ha1, Hres; reflexivity|].
  split; [congruence|].
  intros Hf. rewrite (getAuthorById_no_fault _ _ Hf), parse_id_number, Hid, Hfilter.
  rewrite Hres. reflexivity.
Qed.

(** An UPDATE of [authors] that hits no row, or whose email belongs to a row
    it does not hit, leaves the data as they are; it reports no change, or
    raises. *)
Lemma update_author_nothing name email bio id db :
  (forall a, In a (authors db) -> id <> Some (a_id a)) \/
  (exists other e, In other (authors db) /\ id <> Some (a_id other) /\
                   a_email other = Some e /\ email = Some e) ->
  exists r db', update_author name email bio id db = (r, db') /\
    same_data db db' /\
    ((exists info, r = Ok info /\ changes info = 0) \/ exists code, r = Throw (SqliteError code)).
Proof.
  intros Hcase. unfold update_author.
  match goal with
  | |- context [run ?f db] =>
      destruct (run_cases f db) as [(code & db1 & Hr & Hs) | (db1 & Hs & Hr)]; rewrite Hr
  end.
  { eexists _, db1. split; [reflexivity|]. split; [exact Hs|]. right. eauto. }
  cbv beta zeta.
  destruct (negb (existsb (fun a => id_is id (a_id a)) (authors db1))) eqn:Hhit.
  { eexists _, db1. split; [reflexivity|]. split; [exact Hs|]. left. eauto. }
  assert (Hauthors : authors db1 = authors db) by (destruct Hs as (Ha & _); exact Ha).
  destruct Hcase as [Hno | (other & e & Hin & Hid & Hemail & ->)].
  - apply negb_false_iff, existsb_exists in Hhit as (row & Hrow & Hb).
    rewrite Hauthors in Hrow. apply id_is_true in Hb. destruct (Hno row Hrow Hb).
  - assert (Hex : email_taken (Some e)
                    (List.filter (fun a => negb (id_is id (a_id a))) (authors db1)) = true).
    { simpl. apply existsb_exists. exists other. rewrite Hauthors. split.
      - apply filter_In. split; [exact Hin|].
        apply negb_true_iff. destruct (id_is id (a_id other)) eqn:Hb; [|reflexivity].
        apply id_is_true in Hb. contradiction.
      - apply bool_decide_eq_true. exact Hemail. }
    rewrite Hex. eexists _, db1. split; [reflexivity|]. split; [exact Hs|]. right. eauto.
Qed.

Lemma updateAuthor_nothing id authorData db :
  (forall a, In a (authors db) -> parse_id id <> Some (a_id a)) \/
  (exists other e, In other (authors db) /\ parse_id id <> Some (a_id other) /\
                   a_email other = Some e /\ or_null (in_email authorData) = Some e) ->
  exists db', updateAuthor id authorData db = (Ok None, db') /\ same_data db db'.
Proof.
  intros Hcase. unfold updateAuthor.
  destruct (prepare_cases db) as (r & db1 & Hp & Hs1 & [-> | (code & ->)]).
  2:{ exists db1. split; [|exact Hs1].
      erewrite try_catch_Throw; [reflexivity|]. apply bind_Throw. exact Hp. }
  assert (Hauthors : authors db1 = authors db) by (destruct Hs1 as (H & _); exact H).
  destruct (update_author_nothing (in_name authorData) (or_null (in_email authorData))
              (or_null (in_bio authorData)) (parse_id id) db1)
    as (r & db2 & Hu & Hs2 & [(info & -> & Hch) | (code & ->)]).
  { rewrite Hauthors. exact Hcase. }
  - exists db2. split; [|eapply same_data_trans; eassumption].
    apply try_catch_step. erewrite bind_step by exact Hp.
    erewrite bind_step by exact Hu. rewrite Hch. reflexivity.
  - exists db2. split; [|eapply same_data_trans; eassumption].
    erewrite try_catch_Throw; [reflexivity|].
    erewrite bind_step by exact Hp. apply bind_Throw. exact Hu.
Qed.

Lemma deleteAuthor_nothing id db :
  (forall a, In a (authors db) -> parse_id id <> Some (a_id a)) ->
  exists db', deleteAuthor id db = (Ok false, db') /\ same_data db db'.
Proof.
  intros Hno. unfold deleteAuthor.
  destruct (prepare_cases db) as (r & db1 & Hp & Hs1 & [-> | (code & ->)]).
  2:{ exists db1. split; [|exact Hs1].
      erewrite try_catch_Throw; [reflexivity|]. apply bind_Throw. exact Hp. }
  unfold delete_author.
  match goal with
  | |- context [run ?f] =>
      destruct (run_cases f db1) as [(code & db2 & Hr & Hs2) | (db2 & Hs2 & Hr)]
  end.
  - exists db2. split; [|eapply same_data_trans; eassumption].
    erewrite try_catch_Throw; [reflexivity|].
    erewrite bind_step by exact Hp. apply bind_Throw. exact Hr.
  - assert (Hauthors : authors db2 = authors db).
    { destruct Hs1 as (H1 & _), Hs2 as (H2 & _). congruence. }
    assert (Hnone : List.filter (fun a => id_is (parse_id id) (a_id a)) (authors db2) = []).
    { rewrite Hauthors. apply no_hit_filter. exact Hno. }
    eexists. split.
    + apply try_catch_step. erewrite bind_step by exact Hp.
      erewrite bind_step by exact Hr. cbv zeta. cbn [changes]. rewrite Hnone. reflexivity.
    + eapply same_data_trans; [exact Hs1|]. eapply same_data_trans; [exact Hs2|].
      unfold same_data. cbv zeta.
      cbn [authors posts seq_authors seq_posts foreign_keys clock set_posts set_authors].
      rewrite (filter_negb_all _ _ Hnone).
      split; [reflexivity|]. split; [|repeat split].
      destruct (foreign_keys db2); [|reflexivity].
      rewrite <- (List.map_id (posts db2)) at 2. apply List.map_ext. intros p. reflexivity.
Qed.

(** X13: an identifier that no author has: [getAuthorById] finds nothing,
    [updateAuthor] returns [null], [deleteAuthor] returns [false], and the
    data, the posts included, stay as they are. *)
Theorem author_unknown_id (id : IdArg) (authorData : AuthorInput) (db : Database) :
  (forall a, In a (authors db) -> parse_id id <> Some (a_id a)) ->
  (io_faults db = [] -> getAuthorById id db = (Ok None, db)) /\
  (exists db', updateAuthor id authorData db = (Ok None, db') /\ same_data db db') /\
  (exists db', deleteAuthor id db = (Ok false, db') /\ same_data db db').
Proof.
  intros Hno. split; [|split].
  - intros Hf. rewrite (getAuthorById_no_fault _ _ Hf).
    rewrite (no_hit_filter a_id _ _ Hno). reflexivity.
  - apply updateAuthor_nothing. left. exact Hno.
  - apply deleteAuthor_nothing. exact Hno.
Qed.

(** X14: [updateAuthor] with the non-empty email of another author returns
    [null] and leaves the data as they are. *)
Theorem updateAuthor_email_of_other_rejected (id : IdArg) (authorData : AuthorInput)
    (db : Database) (other : Author) (e : jsstring) :
  In other (authors db) ->
  parse_id id <> Some (a_id other) ->
  a_email other = Some e ->
  in_email authorData = Some e -> e <> [] ->
  exists db', updateAuthor id authorData db = (Ok None, db') /\ same_data db db'.
Proof.
  intros Hin Hid Hemail He Hne. apply updateAuthor_nothing. right.
  exists other, e. repeat split; try assumption.
  rewrite He. apply or_null_filled. exact Hne.
Qed.

Lemma NoDup_map_In_eq {A B} (f : A -> B) (l : list A) (x y : A) :
  List.NoDup (List.map f l) -> In x l -> In y l -> f x = f y -> x = y.
Proof.
  induction l as [|a l IH]; simpl; intros Hnd Hx Hy Heq; [destruct Hx|].
  inversion Hnd as [|b bs Ha Hl]; subst.
  destruct Hx as [-> | Hx], Hy as [-> | Hy].
  - reflexivity.
  - exfalso. apply Ha. rewrite Heq. apply in_map. exact Hy.
  - exfalso. apply Ha. rewrite <- Heq. apply in_map. exact Hx.
  - apply IH; assumption.
Qed.

Lemma update_author_hit name email bio id db :
  io_faults db = [] ->
  existsb (fun a => id_is id (a_id a)) (authors db) = true ->
  email_taken email (List.filter (fun a => negb (id_is id (a_id a))) (authors db)) = false ->
  update_author name email bio id db =
  (Ok {| changes := Z.of_nat (length (List.filter (fun a => id_is id (a_id a)) (authors db)));
         lastInsertRowid := 0 |},
   set_authors (List.map (fun a =>
                  if id_is id (a_id a) then
                    {| a_id := a_id a; a_name := name; a_email := email; a_bio := bio;
                       a_created_at := a_created_at a; a_updated_at := clock db |}
                  else a) (authors db))
               (seq_authors db) db).
Proof.
  intros Hf Hh He. unfold update_author, run, bind.
  rewrite (driver_call_no_fault _ Hf). cbv beta iota zeta.
  rewrite Hh, He. reflexivity.
Qed.

(** X15: in a reachable state without pending faults, [updateAuthor] of a
    stored author whose submitted email is the one the author already has
    (or is blank, the author having none) succeeds: the UNIQUE constraint
    does not count the row against itself.  The returned author keeps the
    identifier and the creation time; the posts are untouched. *)
Theorem updateAuthor_keeps_own_email (id : IdArg) (authorData : AuthorInput)
    (db : Database) (row : Author) :
  reachable db -> io_faults db = [] ->
  In row (authors db) -> parse_id id = Some (a_id row) ->
  or_null (in_email authorData) = a_email row ->
  exists db',
    updateAuthor id authorData db =
    (Ok (Some {| a_id := a_id row; a_name := in_name authorData;
                 a_email := a_email row; a_bio := or_null (in_bio authorData);
                 a_created_at := a_created_at row; a_updated_at := clock db |}), db') /\
    posts db' = posts db /\ io_faults db' = [].
Proof.
  intros Hr Hf Hin Hid Hemail.
  destruct (reachable_constraints_ok db Hr) as ((_ & Hia & _) & _ & _ & Hem).
  assert (Hhit : existsb (fun a => id_is (parse_id id) (a_id a)) (authors db) = true).
  { apply existsb_exists. exists row. split; [exact Hin|]. apply id_is_true. exact Hid. }
  assert (Hfree : email_taken (or_null (in_email authorData))
                    (List.filter (fun a => negb (id_is (parse_id id) (a_id a)))
                                 (authors db)) = false).
  { rewrite Hemail. destruct (a_email row) as [e|] eqn:He; [|reflexivity].
    simpl. match goal with |- ?x = false => destruct x eqn:Hex; [|reflexivity] end.
    apply existsb_exists in Hex as (other & Hother & Hb).
    apply bool_decide_eq_true in Hb. apply filter_In in Hother as [Hother Hnot].
    destruct (In_nth_error _ _ Hin) as (i & Hi), (In_nth_error _ _ Hother) as (j & Hj).
    assert (Hij : i = j).
    { apply (unique_position _ _ Hem i j row other e Hi Hj); congruence. }
    subst j. assert (other = row) by congruence. subst other.
    rewrite Hid in Hnot. simpl in Hnot.
    rewrite Z.eqb_refl in Hnot. discriminate. }
  assert (Hchanges :
    (Z.of_nat (length (List.filter (fun a => id_is (parse_id id) (a_id a)) (authors db)))
     =? 0) = false).
  { apply Z.eqb_neq.
    destruct (List.filter (fun a => id_is (parse_id id) (a_id a)) (authors db))
      as [|x xs] eqn:Hfl; [|simpl; lia].
    assert (Hrow : In row (List.filter (fun a => id_is (parse_id id) (a_id a)) (authors db))).
    { apply filter_In. split; [exact Hin|]. apply id_is_true. exact Hid. }
    rewrite Hfl in Hrow. destruct Hrow. }
  destruct (first_hit_updated (fun a => id_is (parse_id id) (a_id a))
              (fun a => {| a_id := a_id a; a_name := in_name authorData;
                           a_email := or_null (in_email authorData);
                           a_bio := or_null (in_bio authorData);
                           a_created_at := a_created_at a; a_updated_at := clock db |})
              (authors db)) as (a0 & Ha0 & Hh0 & Hhead);
    [intros a; reflexivity | exact Hhit |].
  cbv beta in Hhead, Hh0.
  assert (a0 = row).
  { apply (NoDup_map_In_eq a_id (authors db)); try assumption.
    apply id_is_true in Hh0. congruence. }
  subst a0.
  eexists. split; [|split].
  - unfold updateAuthor. apply try_catch_step.
    erewrite bind_step by (apply driver_call_no_fault; exact Hf).
    erewrite bind_step by (apply update_author_hit; assumption).
    cbn [changes]. rewrite Hchanges.
    rewrite getAuthorById_no_fault by exact Hf.
    cbn [authors set_authors]. rewrite Hhead, Hemail. reflexivity.
  - reflexivity.
  - exact Hf.
Qed.

(** *** Counting the posts of the authors *)

Lemma insert_by_Permutation {A} (le : A -> A -> bool) (x : A) (l : list A) :
  Permutation (insert_by le x l) (x :: l).
Proof.
  induction l as [|y l IH]; simpl; [reflexivity|].
  destruct (le x y); [reflexivity|].
  rewrite IH. apply perm_swap.
Qed.

Lemma order_by_Permutation {A} (le : A -> A -> bool) (l : list A) :
  Permutation (order_by le l) l.
Proof.
  induction l as [|x l IH]; simpl; [reflexivity|].
  rewrite insert_by_Permutation. apply perm_skip. exact IH.
Qed.

Lemma sum_Permutation (l l' : list Z) : Permutation l l' -> sum l = sum l'.
Proof. induction 1; simpl in *; lia. Qed.

Lemma sum_map_add {A} (f g : A -> Z) (l : list A) :
  sum (List.map (fun a => f a + g a) l) = sum (List.map f l) + sum (List.map g l).
Proof. induction l as [|a l IH]; simpl in *; lia. Qed.

Lemma sum_no_author (k : Z) (l : list Author) :
  (forall a, In a l -> a_id a <> k) ->
  sum (List.map (fun a => if a_id a =? k then 1 else 0) l) = 0.
Proof.
  induction l as [|a l IH]; simpl; intros Hno; [reflexivity|].
  destruct (a_id a =? k) eqn:Hk.
  - apply Z.eqb_eq in Hk. destruct (Hno a (or_introl eq_refl) Hk).
  - rewrite IH; [reflexivity|]. intros b Hb. apply Hno. right. exact Hb.
Qed.

Lemma sum_one_author (k : Z) (l : list Author) :
  List.NoDup (List.map a_id l) ->
  existsb (fun a => a_id a =? k) l = true ->
  sum (List.map (fun a => if a_id a =? k then 1 else 0) l) = 1.
Proof.
  induction l as [|a l IH]; simpl; intros Hnd Hex; [discriminate|].
  inversion Hnd as [|x xs Ha Hl]; subst.
  destruct (a_id a =? k) eqn:Hk.
  - apply Z.eqb_eq in Hk. rewrite sum_no_author; [reflexivity|].
    intros b Hb Heq. apply Ha. apply in_map_iff. exists b. split; [congruence | exact Hb].
  - simpl in Hex. rewrite IH; [reflexivity | exact Hl | exact Hex].
Qed.

Lemma posts_of_cons (k : Z) (p : PostRow) (l : list PostRow) :
  posts_of k (p :: l) = (if id_is (p_author_id p) k then 1 else 0) + posts_of k l.
Proof.
  unfold posts_of. simpl. destruct (id_is (p_author_id p) k); simpl length; lia.
Qed.

Lemma counts_add_up (auths : list Author) (ps : list PostRow) :
  List.NoDup (List.map a_id auths) ->
  (forall p, In p ps -> fk_ok auths (p_author_id p) = true) ->
  sum (List.map (fun a => posts_of (a_id a) ps) auths) =
  Z.of_nat (length (List.filter has_author ps)).
Proof.
  intros Hnd. induction ps as [|p ps IH]; intros Hfk.
  - clear. induction auths as [|a auths IHa]; [reflexivity|].
    simpl in *. rewrite IHa. reflexivity.
  - erewrite List.map_ext by (intros a; apply posts_of_cons).
    rewrite sum_map_add, IH by (intros q Hq; apply Hfk; right; exact Hq).
    specialize (Hfk p (or_introl eq_refl)).
    simpl. unfold has_author. destruct (p_author_id p) as [k|]; simpl in *.
    + rewrite (sum_one_author k auths Hnd Hfk). simpl length. lia.
    + assert (Hz : sum (List.map (fun _ : Author => 0) auths) = 0).
      { clear. induction auths; simpl in *; lia. }
      rewrite Hz. lia.
Qed.

(** X16: [getAuthorsWithPostCount] in a reachable state lists every author
    exactly once, those without posts included, each with the number of
    posts that refer to it; the counts add up to the number of posts that
    have an author. *)
Theorem post_counts_add_up (db db' : Database) (l : list (Author * Z)) :
  reachable db ->
  getAuthorsWithPostCount db = (Ok l, db') ->
  Permutation (List.map fst l) (authors db) /\
  (forall a n, In (a, n) l -> n = posts_of (a_id a) (posts db)) /\
  sum (List.map snd l) = Z.of_nat (length (List.filter has_author (posts db))).
Proof.
  intros Hr Hg.
  destruct (reachable_constraints_ok db Hr) as ((_ & Hia & _) & Href & _).
  unfold getAuthorsWithPostCount in Hg.
  apply bind_Ok in Hg as (u & db1 & Hp & Hq).
  apply driver_call_Ok in Hp as (Ha1 & Hp1 & _).
  apply query_Ok in Hq as [(Ha2 & Hp2 & _) ->].
  rewrite Ha2, Hp2, Ha1, Hp1.
  set (g := fun a : Author =>
              (a, Z.of_nat (length (List.filter (fun p => id_is (p_author_id p) (a_id a))
                                                (posts db))))).
  pose proof (order_by_Permutation (fun x y : Author * Z => name_asc (fst x) (fst y))
                (List.map g (authors db))) as Hperm.
  split; [|split].
  - rewrite (Permutation_map fst Hperm), List.map_map. simpl.
    rewrite List.map_id. reflexivity.
  - intros a n Hin. apply order_by_In, in_map_iff in Hin as (a0 & Heq & _).
    unfold g in Heq. injection Heq as <- <-. reflexivity.
  - rewrite (sum_Permutation _ _ (Permutation_map snd Hperm)), List.map_map.
    apply (counts_add_up (authors db) (posts db) Hia Href).
Qed.

(** *** The author joined to a post *)

Lemma in_left_join_author auths p r :
  In r (left_join auths p) ->
  (r = joined p None /\ forall a, In a auths -> p_author_id p <> Some (a_id a)) \/
  exists a, r = joined p (Some a) /\ In a auths /\ p_author_id p = Some (a_id a).
Proof.
  unfold left_join.
  destruct (List.filter _ auths) as [|a0 rest] eqn:Hf.
  - intros [<-|[]]. left. split; [reflexivity|].
    intros a Ha Hid.
    assert (Hin : In a (List.filter (fun a => id_is (p_author_id p) (a_id a)) auths)).
    { apply filter_In. split; [exact Ha | apply id_is_true; exact Hid]. }
    rewrite Hf in Hin. destruct Hin.
  - intros Hin. apply in_map_iff in Hin as (a & <- & Ha). right.
    rewrite <- Hf in Ha. apply filter_In in Ha as [Ha Hid]. apply id_is_true in Hid.
    exists a. repeat split; assumption.
Qed.

(** X17: the [author] object of a post read in a reachable state.  It is
    there exactly when the post has an author whose name is not empty, and
    then it carries the columns of that author; a post without [author_id],
    or whose author has an empty name, is returned without it. *)
Theorem returned_post_author (id : IdArg) (db db' : Database) (p : Post) :
  reachable db ->
  getPostById id db = (Ok (Some p), db') ->
  match post_author p with
  | Some pa =>
      exists a, In a (authors db) /\ post_author_id p = Some (a_id a) /\ a_name a <> [] /\
        pa = {| pa_id := Some (a_id a); pa_name := a_name a; pa_email := a_email a;
                pa_bio := a_bio a; pa_created_at := Some (a_created_at a);
                pa_updated_at := Some (a_updated_at a) |}
  | None =>
      post_author_id p = None \/
      exists a, In a (authors db) /\ post_author_id p = Some (a_id a) /\ a_name a = []
  end.
Proof.
  intros Hr Hg.
  destruct (reachable_constraints_ok db Hr) as (_ & Href & _).
  apply getPostById_Ok in Hg as [(Ha & Hp & _) Hres].
  destruct (head _) as [r|] eqn:Hhead; [|discriminate].
  simpl in Hres. injection Hres as ->.
  apply head_In in Hhead. unfold select_posts in Hhead.
  apply filter_In in Hhead as [Hin _].
  apply in_flat_map in Hin as (pr & Hpr & Hr').
  rewrite Ha in Hr'. rewrite Hp in Hpr.
  apply in_left_join_author in Hr' as [[-> Hnone] | (a & -> & Hin & Hid)].
  - simpl. destruct (p_author_id pr) as [k|] eqn:Hk; [|left; reflexivity].
    specialize (Href pr Hpr). rewrite Hk in Href. simpl in Href.
    apply existsb_exists in Href as (a & Hin & Heq). apply Z.eqb_eq in Heq.
    exfalso. apply (Hnone a Hin). congruence.
  - simpl. destruct (a_name a) as [|c name] eqn:Hname; simpl.
    + right. exists a. repeat split; assumption.
    + exists a. rewrite Hname, Hid. repeat split; try assumption. discriminate.
Qed.

(** *** Searching *)

Lemma like_percent_cons (pat s : jsstring) :
  like (percent :: pat) s =
  like pat s || match s with [] => false | _ :: s' => like (percent :: pat) s' end.
Proof. destruct s; reflexivity. Qed.

Lemma like_startsWith (q s : jsstring) :
  startsWith (ascii_toLowerCase q) (ascii_toLowerCase s) = true ->
  like (q ++ [percent]) s = true.
Proof.
  revert s. induction q as [|c q IH]; intros s Hs.
  - apply like_percent.
  - destruct s as [|d s]; [discriminate|].
    simpl in Hs. apply andb_true_iff in Hs as [Hcd Hs]. apply N.eqb_eq in Hcd.
    specialize (IH s Hs).
    destruct (c =? percent)%N eqn:Hc.
    + apply N.eqb_eq in Hc. subst c.
      change ((percent :: q) ++ [percent]) with (percent :: (q ++ [percent])).
      rewrite like_percent_cons, (like_percent_cons _ s), IH.
      rewrite orb_true_r. reflexivity.
    + simpl. rewrite Hc, Hcd, N.eqb_refl, orb_true_r, IH. reflexivity.
Qed.

(** The pattern of a search matches every text in which the query occurs. *)
Lemma like_occurs (q s : jsstring) :
  occurs_in q s = true -> like (searchPattern q) s = true.
Proof.
  unfold occurs_in.
  change (searchPattern q) with (percent :: (q ++ [percent])).
  induction s as [|d s IH]; intros Hs; rewrite like_percent_cons.
  - simpl in Hs. rewrite orb_false_r in Hs.
    rewrite (like_startsWith q [] Hs). reflexivity.
  - change (ascii_toLowerCase (d :: s)) with (ascii_lower d :: ascii_toLowerCase s) in Hs.
    cbn [includes] in Hs. apply orb_true_iff in Hs as [Hs | Hs].
    + rewrite (like_startsWith q (d :: s) Hs). reflexivity.
    + rewrite (IH Hs). apply orb_true_r.
Qed.

Lemma where_sql_or3 (a b c : bool) :
  where_holds (sql_or (sql_or (Some a) (Some b)) (Some c)) = a || b || c.
Proof. destruct a, b, c; reflexivity. Qed.

Lemma searchPosts_Ok q db ps db' :
  searchPosts q db = (Ok ps, db') ->
  same_data db db' /\
  ps = List.map mapRowToPost
         (order_by created_desc
            (select_posts (fun r =>
               sql_or (sql_or (sql_like (Some (r_title r)) (searchPattern q))
                              (sql_like (Some (r_excerpt r)) (searchPattern q)))
                      (sql_like (Some (r_content r)) (searchPattern q))) db)).
Proof.
  unfold searchPosts. intros Hg.
  apply bind_Ok in Hg as (u & db1 & Hp & Hg). apply driver_call_Ok in Hp.
  apply bind_Ok in Hg as (rows & db2 & Hq & Hr).
  apply query_Ok in Hq as [Hsame ->].
  unfold ret in Hr. injection Hr as Hr Hdb. subst db2 ps.
  split; [eapply same_data_trans; eassumption|].
  rewrite (select_posts_same _ db db'); [reflexivity|].
  eapply same_data_trans; eassumption.
Qed.

(** X18: what a search returns and what it cannot miss.  The posts
    [searchPosts] returns are posts of [getAllPosts], and every post of
    [getAllPosts] in whose title, excerpt or content the query occurs, ASCII
    letters compared without regard to case, is returned; likewise
    [searchAuthors] returns stored authors, and every author in whose name or
    email the query occurs. *)
Theorem search_finds_every_occurrence (q : jsstring) (db : Database) :
  (forall ps db1 all db2,
     searchPosts q db = (Ok ps, db1) -> getAllPosts db = (Ok all, db2) ->
     (forall p, In p ps -> In p all) /\
     (forall p, In p all ->
        occurs_in q (post_title p) || occurs_in q (post_excerpt p)
          || occurs_in q (post_content p) = true ->
        In p ps)) /\
  (forall l db1,
     searchAuthors q db = (Ok l, db1) ->
     (forall a, In a l -> In a (authors db)) /\
     (forall a, In a (authors db) ->
        occurs_in q (a_name a) = true \/
        (exists e, a_email a = Some e /\ occurs_in q e = true) ->
        In a l)).
Proof.
  split.
  - intros ps db1 all db2 Hs Hall.
    apply searchPosts_Ok in Hs as [_ ->]. apply getAllPosts_Ok in Hall as [_ ->].
    split.
    + intros p Hin. apply in_map_iff in Hin as (r & <- & Hr).
      apply in_map. apply order_by_In. apply order_by_In in Hr.
      unfold select_posts in *. apply filter_In in Hr as [Hr _].
      apply filter_In. split; [exact Hr | reflexivity].
    + intros p Hin Hocc. apply in_map_iff in Hin as (r & <- & Hr).
      apply in_map. apply order_by_In. apply order_by_In in Hr.
      unfold select_posts in *. apply filter_In in Hr as [Hr _].
      apply filter_In. split; [exact Hr|].
      unfold sql_like, option_map. rewrite where_sql_or3.
      cbn [post_title post_excerpt post_content mapRowToPost] in Hocc.
      apply orb_true_iff in Hocc as [Hocc | Hocc];
        [apply orb_true_iff in Hocc as [Hocc | Hocc]|];
        rewrite (like_occurs _ _ Hocc); rewrite ?orb_true_r; reflexivity.
  - intros l db1 Hs. unfold searchAuthors in Hs.
    apply bind_Ok in Hs as (u & db2 & Hp & Hq).
    apply driver_call_Ok in Hp as (Ha1 & _).
    apply query_Ok in Hq as [(Ha2 & _) ->].
    rewrite Ha2, Ha1. split.
    + intros a Hin. apply order_by_In, filter_In in Hin as [Hin _]. exact Hin.
    + intros a Hin Hocc. apply order_by_In, filter_In. split; [exact Hin|].
      destruct Hocc as [Hocc | (e & He & Hocc)].
      * unfold sql_like at 1. unfold option_map at 1. rewrite (like_occurs _ _ Hocc).
        destruct (sql_like (a_email a) (searchPattern q)) as [[|]|]; reflexivity.
      * rewrite He. unfold sql_like, option_map. rewrite (like_occurs _ _ Hocc).
        destruct (like (searchPattern q) (a_name a)); reflexivity.
Qed.

(** *** The session *)

(** X19: [handleLogin] authenticates a session exactly when the submitted
    password is the configured one (both may be absent: an unset
    [ADMIN_PASSWORD] is matched by a request without password field); a
    password that does not match leaves the session as it is, [returnTo]
    included.  An authenticated session passes [requireAuth] unchanged and is
    sent from the login form to the admin pages. *)
Theorem login_authenticates_exactly (ADMIN_PASSWORD password : option jsstring)
    (session : SessionData) :
  let session' := fst (handleLogin ADMIN_PASSWORD session password) in
  (truthy (isAuthenticated session') = true <->
   truthy (isAuthenticated session) = true \/ password = ADMIN_PASSWORD) /\
  (password <> ADMIN_PASSWORD ->
   handleLogin ADMIN_PASSWORD session password =
   (session, Render 200 "login.njk" (LLogin (Some "Invalid password. Please try again."%string)))) /\
  (truthy (isAuthenticated session') = true ->
   showLogin session' = Redirect (js "/admin/posts") /\
   forall url, requireAuth session' url = (session', Next)).
Proof.
  unfold handleLogin. cbv zeta.
  destruct (bool_decide (password = ADMIN_PASSWORD)) eqn:Hpw.
  - apply bool_decide_eq_true in Hpw. cbn [fst isAuthenticated truthy].
    split; [split; auto|]. split; [intros Hne; contradiction|].
    intros _. split; [reflexivity | intros url; reflexivity].
  - apply bool_decide_eq_false in Hpw. cbn [fst].
    split; [split; [auto | intros [H | H]; [exact H | contradiction]]|].
    split; [reflexivity|].
    intros Hauth. unfold showLogin, requireAuth. rewrite Hauth.
    split; [reflexivity | intros url; reflexivity].
Qed.

(** *** The form handlers *)

Lemma or_null_None (o : option jsstring) : or_null o = None -> blank o.
Proof. destruct o as [[|c s]|]; simpl; intros H; try discriminate; [right | left]; reflexivity. Qed.

Lemma or_null_Some (o : option jsstring) (s : jsstring) :
  or_null o = Some s -> o = Some s /\ s <> [].
Proof.
  destruct o as [[|c t]|]; simpl; intros H; try discriminate.
  injection H as <-. split; [reflexivity | discriminate].
Qed.

Lemma filled_or_null (o : option jsstring) : ~ blank o -> exists s, or_null o = Some s.
Proof.
  destruct o as [[|c s]|]; intros Hb.
  - destruct Hb. right. reflexivity.
  - exists (c :: s). reflexivity.
  - destruct Hb. left. reflexivity.
Qed.

Lemma createPost_returns postData db :
  exists r db', createPost postData db = (Ok r, db').
Proof. apply (try_catch_never_raises _ None db). Qed.

Lemma createAuthor_returns authorData db :
  exists r db', createAuthor authorData db = (Ok r, db').
Proof. apply (try_catch_never_raises _ None db). Qed.

(** X20: what [store] of the post form answers.  It never raises.  It answers
    400 with the form exactly when the title, the excerpt or the content is
    missing or empty, and then the store has not been touched at all; it
    redirects to the list only when [createPost] returned the post, which is
    then stored under the slug of the title; in every other case it answers
    500 with the form. *)
Theorem adminController_store_replies (body : PostBody) (db : Database) :
  exists reply db',
    adminController_store body db = (Ok reply, db') /\
    let form status error :=
      RenderPage status "admin/posts/edit.njk"
        (LPostForm (FormPostBody body None) (Some error) (js "Admin - Create Post")) in
    (((blank (b_title body) \/ blank (b_excerpt body) \/ blank (b_content body)) /\
      reply = form 400 "Title, excerpt, and content are required"%string /\ db' = db) \/
     (~ blank (b_title body) /\ ~ blank (b_excerpt body) /\ ~ blank (b_content body) /\
      ((reply = RedirectTo (js "/admin/posts") /\
        exists row, In row (posts db') /\ b_title body = Some (p_title row) /\
                    p_slug row = createSlug (p_title row)) \/
       reply = form 500 "Error creating post"%string))).
Proof.
  unfold adminController_store. cbv zeta.
  destruct (or_null (b_title body)) as [title|] eqn:Ht.
  2:{ eexists _, _. split; [reflexivity|]. left.
      split; [left; apply or_null_None; exact Ht | split; reflexivity]. }
  destruct (or_null (b_excerpt body)) as [excerpt|] eqn:He.
  2:{ eexists _, _. split; [reflexivity|]. left.
      split; [right; left; apply or_null_None; exact He | split; reflexivity]. }
  destruct (or_null (b_content body)) as [content|] eqn:Hc.
  2:{ eexists _, _. split; [reflexivity|]. left.
      split; [right; right; apply or_null_None; exact Hc | split; reflexivity]. }
  apply or_null_Some in Ht as [Ht Htn], He as [He Hen], Hc as [Hc Hcn].
  assert (Hfilled : ~ blank (b_title body) /\ ~ blank (b_excerpt body) /\
                    ~ blank (b_content body)).
  { rewrite Ht, He, Hc. unfold blank. repeat split; intros [H | H]; congruence. }
  destruct (createPost_returns
              {| in_title := title; in_excerpt := excerpt; in_content := content;
                 in_author_id := None |} db) as ([p|] & db' & Hcreate).
  - eexists _, db'. split.
    + apply try_catch_step. erewrite bind_step by exact Hcreate. reflexivity.
    + right. destruct Hfilled as (H1 & H2 & H3). repeat split; try assumption.
      left. split; [reflexivity|].
      destruct (post_write_stored (WCreate _) db p db' Hcreate) as ((row & Hin & Hid) & Hall & _).
      destruct (Hall row Hin Hid) as (Hrt & Hrs & _). simpl in Hrt, Hrs.
      exists row. rewrite Hrt. repeat split; assumption.
  - eexists _, db'. split.
    + erewrite try_catch_Throw; [reflexivity|].
      erewrite bind_step by exact Hcreate. reflexivity.
    + right. destruct Hfilled as (H1 & H2 & H3). repeat split; try assumption.
      right. reflexivity.
Qed.

(** X21: submitting the post form twice.  After a [store] that redirected, a
    [store] whose title gives the same slug answers 500 with the form, and
    no row is added. *)
Theorem adminController_store_same_title_twice (first second : PostBody)
    (db db1 : Database) (t1 t2 : jsstring) :
  adminController_store first db = (Ok (RedirectTo (js "/admin/posts")), db1) ->
  b_title first = Some t1 -> b_title second = Some t2 ->
  createSlug t2 = createSlug t1 ->
  ~ blank (b_title second) -> ~ blank (b_excerpt second) -> ~ blank (b_content second) ->
  exists db2,
    adminController_store second db1 =
    (Ok (RenderPage 500 "admin/posts/edit.njk"
           (LPostForm (FormPostBody second None) (Some "Error creating post"%string)
                      (js "Admin - Create Post"))), db2) /\
    same_data db1 db2.
Proof.
  intros Hfirst Ht1 Ht2 Hslug Hb1 Hb2 Hb3.
  assert (Hrow : exists row, In row (posts db1) /\ p_slug row = createSlug t1).
  { unfold adminController_store in Hfirst. cbv zeta in Hfirst.
    destruct (or_null (b_title first)) as [title|] eqn:Ht; [|discriminate].
    destruct (or_null (b_excerpt first)) as [excerpt|]; [|discriminate].
    destruct (or_null (b_content first)) as [content|]; [|discriminate].
    apply or_null_Some in Ht as [Ht _]. assert (title = t1) by congruence. subst title.
    destruct (createPost_returns
                {| in_title := t1; in_excerpt := excerpt; in_content := content;
                   in_author_id := None |} db) as ([p|] & db' & Hcreate).
    - erewrite try_catch_step in Hfirst
        by (erewrite bind_step by exact Hcreate; reflexivity).
      injection Hfirst as <-.
      destruct (post_write_stored (WCreate _) db p db' Hcreate) as ((row & Hin & Hid) & Hall & _).
      destruct (Hall row Hin Hid) as (_ & Hrs & _).
      exists row. split; [exact Hin | exact Hrs].
    - erewrite try_catch_Throw in Hfirst
        by (erewrite bind_step by exact Hcreate; reflexivity).
      discriminate. }
  destruct Hrow as (row & Hin & Hrs).
  unfold adminController_store. cbv zeta.
  destruct (filled_or_null _ Hb1) as (title & Ht), (filled_or_null _ Hb2) as (excerpt & He),
    (filled_or_null _ Hb3) as (content & Hc).
  rewrite Ht, He, Hc.
  apply or_null_Some in Ht as [Ht _]. assert (title = t2) by congruence. subst title.
  destruct (createPost_slug_taken
              {| in_title := t2; in_excerpt := excerpt; in_content := content;
                 in_author_id := None |} db1 row Hin) as (db2 & Hcreate & Hsame).
  { simpl. congruence. }
  exists db2. split; [|exact Hsame].
  erewrite try_catch_Throw; [reflexivity|].
  erewrite bind_step by exact Hcreate. reflexivity.
Qed.

(** X22: the post handlers on an identifier that no post has.  The edit form
    answers 404; [update] (with a complete form) and [destroy] answer 500,
    with the form resp. the error page, and the data stay as they are. *)
Theorem adminController_unknown_id (id : jsstring) (body : PostBody) (db : Database) :
  (forall row, In row (posts db) -> parse_id (IdString id) <> Some (p_id row)) ->
  (io_faults db = [] ->
   adminController_edit id db =
   (Ok (RenderPage 404 "error.njk" (LErrorPage "Post not found" (ErrStatus 404))), db)) /\
  (~ blank (b_title body) -> ~ blank (b_excerpt body) -> ~ blank (b_content body) ->
   exists db',
     adminController_update id body db =
     (Ok (RenderPage 500 "admin/posts/edit.njk"
            (LPostForm (FormPostBody body (Some id)) (Some "Error updating post"%string)
                       (js "Admin - Edit Post"))), db') /\
     same_data db db') /\
  (exists db',
     adminController_destroy id db =
     (Ok (RenderPage 500 "error.njk"
            (LErrorPage "Error deleting post"
               (ErrCaught (Error "Post not found or failed to delete")))), db') /\
     same_data db db').
Proof.
  intros Hno. split; [|split].
  - intros Hf.
    assert (Hg : getPostById (IdString id) db = (Ok None, db)).
    { rewrite (getPostById_no_fault _ _ Hf).
      rewrite select_posts_none; [reflexivity|].
      intros pr a Hpr. simpl.
      destruct (id_is (parse_id (IdString id)) (p_id pr)) eqn:Hb; [|reflexivity].
      apply id_is_true in Hb. destruct (Hno pr Hpr Hb). }
    unfold adminController_edit. apply try_catch_step.
    erewrite bind_step by exact Hg. reflexivity.
  - intros Hb1 Hb2 Hb3. unfold adminController_update. cbv zeta.
    destruct (filled_or_null _ Hb1) as (title & ->), (filled_or_null _ Hb2) as (excerpt & ->),
      (filled_or_null _ Hb3) as (content & ->).
    destruct (updatePost_nothing (IdString id)
                {| in_title := title; in_excerpt := excerpt; in_content := content;
                   in_author_id := None |} db (or_introl Hno)) as (db' & Hu & Hsame).
    exists db'. split; [|exact Hsame].
    erewrite try_catch_Throw; [reflexivity|].
    erewrite bind_step by exact Hu. reflexivity.
  - destruct (deletePost_nothing (IdString id) db Hno) as (db' & Hd & Hsame).
    exists db'. split; [|exact Hsame]. unfold adminController_destroy.
    erewrite try_catch_Throw; [reflexivity|].
    erewrite bind_step by exact Hd. reflexivity.
Qed.

Lemma query_cases {A} (f : Database -> A) db :
  (exists code db1, query f db = (Throw (SqliteError code), db1) /\ same_data db db1 /\
                    io_faults db <> []) \/
  (exists db1, same_data db db1 /\ query f db = (Ok (f db1), db1)).
Proof.
  unfold query, bind, gets, driver_call. destruct (io_faults db) as [|[code|] rest].
  - right. exists db. split; [apply same_data_refl | reflexivity].
  - left. exists code, (set_io_faults rest db). repeat split. discriminate.
  - right. exists (set_io_faults rest db). repeat split.
Qed.

Lemma prepare_faults db :
  (exists code db1, prepare db = (Throw (SqliteError code), db1) /\ same_data db db1 /\
                    io_faults db <> []) \/
  (exists db1, prepare db = (Ok tt, db1) /\ same_data db db1 /\
               (io_faults db = [] -> io_faults db1 = [])).
Proof.
  unfold prepare, driver_call. destruct (io_faults db) as [|[code|] rest] eqn:Hf.
  - right. exists db. repeat split. exact (fun _ => Hf).
  - left. exists code, (set_io_faults rest db). repeat split. discriminate.
  - right. exists (set_io_faults rest db). repeat split. discriminate.
Qed.

Lemma getPostBySlug_cases slug db :
  (exists code db', getPostBySlug slug db = (Throw (SqliteError code), db') /\
                    same_data db db' /\ io_faults db <> []) \/
  (exists db', same_data db db' /\
     getPostBySlug slug db =
     (Ok (option_map mapRowToPost
            (head (select_posts (fun r => Some (bool_decide (r_slug r = slug))) db'))), db')).
Proof.
  unfold getPostBySlug.
  destruct (prepare_faults db) as [(code & db1 & Hp & Hs & Hne) | (db1 & Hp & Hs & Hkeep)].
  - left. exists code, db1. split; [apply bind_Throw; exact Hp | split; assumption].
  - match goal with
    | |- context [query ?f] =>
        destruct (query_cases f db1) as [(code & db2 & Hq & Hs2 & Hne) | (db2 & Hs2 & Hq)]
    end.
    + left. exists code, db2. split; [|split].
      * erewrite bind_step by exact Hp. apply bind_Throw. exact Hq.
      * eapply same_data_trans; eassumption.
      * intros H0. apply Hne, Hkeep, H0.
    + right. exists db2. split; [eapply same_data_trans; eassumption|].
      erewrite bind_step by exact Hp. erewrite bind_step by exact Hq. reflexivity.
Qed.

(** X23: what [show] answers for a slug.  It never raises and changes
    nothing.  It answers with the post page only for a stored slug, and the
    post shown has that slug; with 404 only when no post has the slug; with
    500 only when the store failed. *)
Theorem postController_show_replies (slug : jsstring) (db : Database) :
  exists reply db',
    postController_show slug db = (Ok reply, db') /\ same_data db db' /\
    ((exists p, reply = RenderPage 200 "posts/show.njk" (LPostShow p (post_title p)) /\
                post_slug p = slug /\
                exists row, In row (posts db) /\ p_slug row = slug /\ p_id row = post_id p) \/
     (reply = RenderPage 404 "error.njk" (LErrorPage "Post not found" (ErrStatus 404)) /\
      forall row, In row (posts db) -> p_slug row <> slug) \/
     (exists code,
        reply = RenderPage 500 "error.njk"
                  (LErrorPage "Error loading post" (ErrCaught (SqliteError code))) /\
        io_faults db <> [])).
Proof.
  unfold postController_show.
  destruct (getPostBySlug_cases slug db)
    as [(code & db' & Hg & Hs & Hf) | (db' & Hs & Hg)].
  - eexists _, db'. split; [|split; [exact Hs|]].
    + erewrite try_catch_Throw; [reflexivity|]. apply bind_Throw. exact Hg.
    + right. right. exists code. split; [reflexivity | exact Hf].
  - assert (Hposts : posts db' = posts db) by (destruct Hs as (_ & H & _); exact H).
    destruct (head (select_posts (fun r => Some (bool_decide (r_slug r = slug))) db'))
      as [r|] eqn:Hhead.
    + eexists _, db'. split; [|split; [exact Hs|]].
      * apply try_catch_step. erewrite bind_step by exact Hg. reflexivity.
      * left. exists (mapRowToPost r). split; [reflexivity|].
        apply head_In, in_select_posts in Hhead as (pr & a & Hin & -> & Hc).
        simpl in Hc. destruct (bool_decide (p_slug pr = slug)) eqn:Hb; [|discriminate].
        apply bool_decide_eq_true in Hb. split; [exact Hb|].
        exists pr. rewrite <- Hposts. repeat split; assumption.
    + eexists _, db'. split; [|split; [exact Hs|]].
      * apply try_catch_step. erewrite bind_step by exact Hg. reflexivity.
      * right. left. split; [reflexivity|].
        intros row Hrow Hslug. rewrite <- Hposts in Hrow.
        destruct (left_join (authors db') row) as [|r rest] eqn:Hj;
          [exact (left_join_nonempty _ _ Hj)|].
        assert (Hin : In r (select_posts (fun r => Some (bool_decide (r_slug r = slug))) db')).
        { unfold select_posts. apply filter_In. split.
          - apply in_flat_map. exists row. split; [exact Hrow|]. rewrite Hj. left. reflexivity.
          - assert (Hr : In r (left_join (authors db') row)) by (rewrite Hj; left; reflexivity).
            apply in_left_join in Hr as (a & ->). simpl.
            rewrite bool_decide_eq_true_2 by exact Hslug. reflexivity. }
        destruct (select_posts _ db'); [destruct Hin | discriminate].
Qed.

(** X24: what [store] of the author form answers.  It never raises.  It
    answers 400 with the form exactly when the name is missing or empty, and
    then the store has not been touched at all; it redirects to the list
    only when [createAuthor] returned the author, who is then stored with
    that name; in every other case (a taken email among them) it answers 500
    with the form. *)
Theorem authorController_store_replies (body : AuthorBody) (db : Database) :
  exists reply db',
    authorController_store body db = (Ok reply, db') /\
    let form status error :=
      RenderPage status "admin/authors/edit.njk"
        (LAuthorForm (FormAuthorBody body None) (Some error) (js "Admin - Create Author")) in
    ((blank (b_name body) /\ reply = form 400 "Name is required"%string /\ db' = db) \/
     (~ blank (b_name body) /\
      ((reply = RedirectTo (js "/admin/authors") /\
        exists a, In a (authors db') /\ b_name body = Some (a_name a) /\
                  a_email a = or_null (b_email body) /\ a_bio a = or_null (b_bio body)) \/
       reply = form 500 "Error creating author (email might already exist)"%string))).
Proof.
  unfold authorController_store. cbv zeta.
  destruct (or_null (b_name body)) as [name|] eqn:Hn.
  2:{ eexists _, _. split; [reflexivity|]. left.
      split; [apply or_null_None; exact Hn | split; reflexivity]. }
  apply or_null_Some in Hn as [Hn Hne].
  assert (Hfilled : ~ blank (b_name body)).
  { rewrite Hn. intros [H | H]; congruence. }
  destruct (createAuthor_returns
              {| in_name := name; in_email := b_email body; in_bio := b_bio body |} db)
    as ([a|] & db' & Hcreate).
  - eexists _, db'. split.
    + apply try_catch_step. erewrite bind_step by exact Hcreate. reflexivity.
    + right. split; [exact Hfilled|]. left. split; [reflexivity|].
      destruct (author_write_stored (ACreate _) db a db' Hcreate) as (Hin & Hall).
      destruct (Hall a Hin eq_refl) as (Han & Hae & Hab). simpl in Han, Hae, Hab.
      exists a. rewrite Han. repeat split; assumption.
  - eexists _, db'. split.
    + erewrite try_catch_Throw; [reflexivity|].
      erewrite bind_step by exact Hcreate. reflexivity.
    + right. split; [exact Hfilled|]. right. reflexivity.
Qed.

(** X25: the author handlers on an identifier that no author has.  The edit
    form answers 404; [update] (with a name) and [destroy] answer 500, with
    the form resp. the error page, and the data stay as they are. *)
Theorem authorController_unknown_id (id : jsstring) (body : AuthorBody) (db : Database) :
  (forall a, In a (authors db) -> parse_id (IdString id) <> Some (a_id a)) ->
  (io_faults db = [] ->
   authorController_edit id db =
   (Ok (RenderPage 404 "error.njk" (LErrorPage "Author not found" (ErrStatus 404))), db)) /\
  (~ blank (b_name body) ->
   exists db',
     authorController_update id body db =
     (Ok (RenderPage 500 "admin/authors/edit.njk"
            (LAuthorForm (FormAuthorBody body (Some id))
               (Some "Error updating author (email might already be used)"%string)
               (js "Admin - Edit Author"))), db') /\
     same_data db db') /\
  (exists db',
     authorController_destroy id db =
     (Ok (RenderPage 500 "error.njk"
            (LErrorPage "Error deleting author"
               (ErrCaught (Error "Author not found or failed to delete")))), db') /\
     same_data db db').
Proof.
  intros Hno. split; [|split].
  - intros Hf.
    assert (Hg : getAuthorById (IdString id) db = (Ok None, db)).
    { rewrite (getAuthorById_no_fault _ _ Hf).
      rewrite (no_hit_filter a_id _ _ Hno). reflexivity. }
    unfold authorController_edit. apply try_catch_step.
    erewrite bind_step by exact Hg. reflexivity.
  - intros Hb. unfold authorController_update. cbv zeta.
    destruct (filled_or_null _ Hb) as (name & ->).
    destruct (updateAuthor_nothing (IdString id)
                {| in_name := name; in_email := b_email body; in_bio := b_bio body |}
                db (or_introl Hno)) as (db' & Hu & Hsame).
    exists db'. split; [|exact Hsame].
    erewrite try_catch_Throw; [reflexivity|].
    erewrite bind_step by exact Hu. reflexivity.
  - destruct (deleteAuthor_nothing (IdString id) db Hno) as (db' & Hd & Hsame).
    exists db'. split; [|exact Hsame]. unfold authorController_destroy.
    erewrite try_catch_Throw; [reflexivity|].
    erewrite bind_step by exact Hd. reflexivity.
Qed.

(** *** The [truncate] filter *)

Lemma String_substring_prefix (n : Z) (s : jsstring) :
  n < Z.of_nat (length s) ->
  String_substring 0 n s = firstn (Z.to_nat n) s.
Proof.
  intros Hn. unfold String_substring. cbv zeta.
  replace (Z.min (Z.max 0 0) (Z.of_nat (length s))) with 0 by lia.
  replace (Z.min (Z.max n 0) (Z.of_nat (length s))) with (Z.max n 0) by lia.
  replace (Z.min 0 (Z.max n 0)) with 0 by lia.
  replace (Z.max 0 (Z.max n 0) - 0) with (Z.max n 0) by lia.
  simpl skipn. f_equal. lia.
Qed.

(** X26: the [truncate] filter.  A text of at most [n] characters is returned
    as it is; a longer one is cut to its first [n] characters (none when [n]
    is negative) followed by three dots, which makes [n + 3] characters, up
    to two more than the text had when it was just over [n].  Truncating
    twice is truncating once. *)
Theorem truncate_cuts_once (str : jsstring) (n : Z) :
  (Z.of_nat (length str) <= n -> truncate str n = str) /\
  (n < Z.of_nat (length str) ->
   truncate str n = firstn (Z.to_nat n) str ++ js "..." /\
   Z.of_nat (length (truncate str n)) = Z.max n 0 + 3) /\
  truncate (truncate str n) n = truncate str n.
Proof.
  assert (Hlong : n < Z.of_nat (length str) ->
                  truncate str n = firstn (Z.to_nat n) str ++ js "..." /\
                  Z.of_nat (length (truncate str n)) = Z.max n 0 + 3).
  { intros Hn. unfold truncate.
    destruct (n <? Z.of_nat (length str)) eqn:Hlt; [|apply Z.ltb_ge in Hlt; lia].
    rewrite (String_substring_prefix n str Hn). split; [reflexivity|].
    rewrite length_app, length_firstn. simpl length. lia. }
  split; [|split; [exact Hlong|]].
  - intros Hn. unfold truncate.
    destruct (n <? Z.of_nat (length str)) eqn:Hlt; [apply Z.ltb_lt in Hlt; lia | reflexivity].
  - destruct (Z.lt_ge_cases n (Z.of_nat (length str))) as [Hn | Hn].
    + destruct (Hlong Hn) as [Heq Hlen].
      unfold truncate at 1.
      destruct (n <? Z.of_nat (length (truncate str n))) eqn:Hlt;
        [|reflexivity].
      rewrite String_substring_prefix by lia.
      rewrite Heq at 1. rewrite firstn_app, firstn_firstn, length_firstn.
      replace (Z.to_nat n - Nat.min (Z.to_nat n) (length str))%nat with 0%nat by lia.
      rewrite Nat.min_id. simpl firstn. rewrite app_nil_r. symmetry. exact Heq.
    + unfold truncate.
      destruct (n <? Z.of_nat (length str)) eqn:Hlt; [apply Z.ltb_lt in Hlt; lia|].
      rewrite Hlt. reflexivity.
Qed.

(** *** More about slugs *)

Lemma includes_pair (a c : char) (s : jsstring) :
  includes [a; a] (c :: s) =
  ((a =? c)%N && match s with d :: _ => (a =? d)%N | [] => false end)
  || includes [a; a] s.
Proof.
  destruct s as [|d s']; cbn [includes startsWith];
    rewrite ?andb_true_r, ?andb_false_r; reflexivity.
Qed.

Lemma collapse_no_adjacent (s : jsstring) :
  includes [hyphen; hyphen] (collapse_runs (fun c => (c =? hyphen)%N) hyphen s) = false.
Proof.
  generalize hyphen as h. intros h.
  induction s as [|c s IH]; [reflexivity|].
  cbn [collapse_runs].
  destruct (c =? h)%N eqn:Hc.
  - destruct s as [|d s']; [rewrite includes_pair, andb_false_r; reflexivity|].
    destruct (d =? h)%N eqn:Hd; [exact IH|].
    cbn [collapse_runs] in IH. rewrite Hd in IH.
    cbn [collapse_runs]. rewrite Hd.
    rewrite includes_pair, (N.eqb_sym h d), Hd, andb_false_r. exact IH.
  - rewrite includes_pair, (N.eqb_sym h c), Hc. exact IH.
Qed.

(** X27: a slug is made of the characters [A-Za-z0-9_] and the hyphen only,
    and never holds two hyphens in a row. *)
Theorem createSlug_url_safe (title : jsstring) :
  (forall c, In c (createSlug title) -> is_word c = true \/ c = hyphen) /\
  includes (js "--") (createSlug title) = false.
Proof.
  split; [intros c; apply createSlug_alphabet|].
  rewrite createSlug_refines. unfold createSlug_spec. cbv zeta.
  apply collapse_no_adjacent.
Qed.

Lemma trimStart_In (s : jsstring) (c : char) : In c (trimStart s) -> In c s.
Proof.
  induction s as [|d s IH]; simpl; [tauto|].
  destruct (is_whitespace d); [intros H; right; apply IH; exact H | tauto].
Qed.

Lemma trim_In (s : jsstring) (c : char) : In c (trim s) -> In c s.
Proof.
  unfold trim, trimEnd. intros H.
  apply in_rev, trimStart_In, in_rev in H. apply trimStart_In. exact H.
Qed.

Lemma trimStart_clean (s : jsstring) :
  (forall c, In c s -> is_whitespace c = false) -> trimStart s = s.
Proof.
  destruct s as [|d s]; [reflexivity|]. intros Hs. simpl.
  rewrite (Hs d (or_introl eq_refl)). reflexivity.
Qed.

Lemma trim_clean (s : jsstring) :
  (forall c, In c s -> is_whitespace c = false) -> trim s = s.
Proof.
  intros Hs. unfold trim, trimEnd. rewrite (trimStart_clean s Hs).
  rewrite trimStart_clean; [apply rev_involutive|].
  intros c Hc. apply Hs. apply in_rev. exact Hc.
Qed.

Lemma collapse_none (p : char -> bool) (r : char) (s : jsstring) :
  (forall c, In c s -> p c = false) -> collapse_runs p r s = s.
Proof.
  induction s as [|c s IH]; [reflexivity|]. intros Hs. cbn [collapse_runs].
  rewrite (Hs c (or_introl eq_refl)), IH; [reflexivity|].
  intros d Hd. apply Hs. right. exact Hd.
Qed.

Lemma collapse_isolated (s : jsstring) :
  includes [hyphen; hyphen] s = false ->
  collapse_runs (fun c => (c =? hyphen)%N) hyphen s = s.
Proof.
  generalize hyphen as h. intros h.
  induction s as [|c s IH]; [reflexivity|]. intros Hs.
  rewrite includes_pair in Hs. apply orb_false_iff in Hs as [Hstart Hrest].
  specialize (IH Hrest). cbn [collapse_runs].
  destruct (c =? h)%N eqn:Hc.
  - apply N.eqb_eq in Hc. subst c.
    destruct s as [|d s']; [reflexivity|].
    rewrite N.eqb_refl in Hstart. cbn [andb] in Hstart.
    rewrite (N.eqb_sym d h), Hstart, IH. reflexivity.
  - rewrite IH. reflexivity.
Qed.

Lemma filter_all_In {A} (f : A -> bool) (l : list A) :
  (forall x, In x l -> f x = true) -> List.filter f l = l.
Proof.
  induction l as [|x l IH]; simpl; intros Hl; [reflexivity|].
  rewrite (Hl x (or_introl eq_refl)), IH; [reflexivity|].
  intros y Hy. apply Hl. right. exact Hy.
Qed.

(** X28: a slug is its own slug.  Provided [toLowerCase] yields no ASCII
    capital and leaves a text of small letters, digits, underscores and
    hyphens as it is, [createSlug] applied to a slug returns it. *)
Theorem createSlug_idempotent (title : jsstring) :
  (forall s c, In c (toLowerCase s) -> is_upper c = false) ->
  (forall s, (forall c, In c s -> (is_word c = true \/ c = hyphen) /\ is_upper c = false) ->
             toLowerCase s = s) ->
  createSlug (createSlug title) = createSlug title.
Proof.
  intros Hlow Hfix.
  set (s := createSlug title).
  assert (Hchars : forall c, In c s ->
            (is_word c = true \/ c = hyphen) /\ is_upper c = false /\
            is_whitespace c = false).
  { intros c Hc. split; [apply (createSlug_alphabet title c Hc)|].
    unfold s in Hc. rewrite createSlug_refines in Hc. unfold createSlug_spec in Hc.
    cbv zeta in Hc.
    apply collapse_runs_In in Hc as [-> | [Hc _]]; [split; reflexivity|].
    apply collapse_runs_In in Hc as [-> | [Hc Hws]]; [split; reflexivity|].
    split; [|exact Hws].
    apply filter_In in Hc as [Hc _]. apply trim_In in Hc. apply (Hlow title c Hc). }
  assert (Hdash : includes [hyphen; hyphen] s = false).
  { unfold s. rewrite createSlug_refines. unfold createSlug_spec. cbv zeta.
    apply collapse_no_adjacent. }
  rewrite (createSlug_refines s). unfold createSlug_spec. cbv zeta.
  rewrite (Hfix s) by (intros c Hc; destruct (Hchars c Hc) as (H1 & H2 & _); tauto).
  rewrite trim_clean by (intros c Hc; apply Hchars; exact Hc).
  rewrite filter_all_In.
  - rewrite (collapse_none is_whitespace hyphen s)
      by (intros c Hc; apply Hchars; exact Hc).
    apply collapse_isolated. exact Hdash.
  - intros c Hc. destruct (Hchars c Hc) as ([Hw | ->] & _ & _); [|reflexivity].
    unfold slug_keeps, is_letter. unfold is_word in Hw.
    destruct (is_lower c), (is_upper c), (is_digit c), (c =? underscore)%N;
      try reflexivity; discriminate.
Qed.

(** *** Identifiers given as text *)

Lemma trimStart_whitespace (ws s : jsstring) :
  List.Forall (fun c => is_whitespace c = true) ws -> trimStart (ws ++ s) = trimStart s.
Proof.
  induction 1 as [|c ws Hc _ IH]; [reflexivity|]. simpl. rewrite Hc. exact IH.
Qed.

Lemma parseInt_whitespace (ws s : jsstring) :
  List.Forall (fun c => is_whitespace c = true) ws -> parseInt (ws ++ s) = parseInt s.
Proof. intros Hws. unfold parseInt. rewrite (trimStart_whitespace ws s Hws). reflexivity. Qed.

Lemma digit_value_other (c : char) : is_digit c = false -> digit_value 10 c = None.
Proof.
  intros Hd. unfold digit_value. rewrite Hd.
  destruct (is_lower c) eqn:Hl.
  - unfold is_lower, in_range in Hl. apply andb_true_iff in Hl as [Hl _].
    apply N.leb_le in Hl.
    destruct (Z.of_N c - 97 + 10 <? 10) eqn:Hlt; [apply Z.ltb_lt in Hlt; lia | reflexivity].
  - destruct (is_upper c) eqn:Hu; [|reflexivity].
    unfold is_upper, in_range in Hu. apply andb_true_iff in Hu as [Hu _].
    apply N.leb_le in Hu.
    destruct (Z.of_N c - 65 + 10 <? 10) eqn:Hlt; [apply Z.ltb_lt in Hlt; lia | reflexivity].
Qed.

Lemma parse_digits_suffix (d : Decimal.uint) (acc : option Z) (c : char) (rest : jsstring) :
  is_digit c = false ->
  parse_digits 10 acc (uint_chars d ++ c :: rest) = parse_digits 10 acc (uint_chars d).
Proof.
  intros Hc. revert acc.
  induction d; intros acc; simpl; try apply IHd.
  rewrite (digit_value_other c Hc). reflexivity.
Qed.

(** [parseInt] on a text that starts with neither white space nor a sign
    nor [0x]: the digits are read in base 10. *)
Lemma parseInt_decimal (k : char) (t : jsstring) :
  is_whitespace k = false -> (k =? 45)%N = false -> (k =? 43)%N = false ->
  match t with
  | x :: _ => ((k =? 48) && ((x =? 120) || (x =? 88)))%N
  | [] => false
  end = false ->
  parseInt (k :: t) = match parse_digits 10 None (k :: t) with
                      | Some v => Some v
                      | None => None
                      end /\
  parseInt (45%N :: k :: t) = match parse_digits 10 None (k :: t) with
                              | Some v => Some (- v)
                              | None => None
                              end.
Proof.
  intros Hw Hm Hp Hhex. unfold parseInt. cbn [trimStart].
  rewrite Hw. change (is_whitespace 45%N) with false. cbv beta iota zeta.
  rewrite Hm, Hp. change ((45 =? 45)%N) with true. cbv beta iota zeta.
  destruct t as [|x r]; [split; reflexivity|].
  rewrite Hhex. split; reflexivity.
Qed.

Lemma parseInt_suffix (d : Decimal.uint) (c : char) (rest : jsstring) :
  d <> Decimal.Nil -> is_digit c = false -> c <> 120%N -> c <> 88%N ->
  parseInt (uint_chars d ++ c :: rest) = parseInt (uint_chars d) /\
  parseInt (45%N :: uint_chars d ++ c :: rest) = parseInt (45%N :: uint_chars d).
Proof.
  intros Hd Hc Hx HX.
  apply N.eqb_neq in Hx, HX.
  destruct (parseInt_uint d Hd) as [-> ->].
  assert (Hval : parse_digits 10 (Some 0) (uint_chars d ++ c :: rest)
                 = Some (Z.of_N (Pos.of_uint d))).
  { rewrite (parse_digits_suffix d (Some 0) c rest Hc). apply parse_digits_uint. }
  assert (Hhex : forall k d',
            match uint_chars d' ++ c :: rest with
            | x :: _ => ((k =? 48) && ((x =? 120) || (x =? 88)))%N
            | [] => false
            end = false).
  { intros k d'. destruct d'; cbn [uint_chars app]; rewrite ?Hx, ?HX;
      apply andb_false_r. }
  assert (Hread :
    parseInt (uint_chars d ++ c :: rest) =
      match parse_digits 10 (Some 0) (uint_chars d ++ c :: rest) with
      | Some v => Some v
      | None => None
      end /\
    parseInt (45%N :: uint_chars d ++ c :: rest) =
      match parse_digits 10 (Some 0) (uint_chars d ++ c :: rest) with
      | Some v => Some (- v)
      | None => None
      end).
  { clear Hval.
    destruct d as [|d|d|d|d|d|d|d|d|d|d]; [congruence | ..]; cbn [uint_chars app];
      match goal with
      | |- parseInt (?k :: ?t) = _ /\ _ =>
          exact (parseInt_decimal k t eq_refl eq_refl eq_refl (Hhex k d))
      end. }
  destruct Hread as [-> ->]. rewrite Hval. split; reflexivity.
Qed.

Lemma parseInt_Number_suffix (n : Z) (c : char) (rest : jsstring) :
  is_digit c = false -> c <> 120%N -> c <> 88%N ->
  parseInt (Number_toString n ++ c :: rest) = Some n.
Proof.
  intros Hc Hx HX. rewrite <- (parseInt_Number_toString n).
  destruct n as [|p|p].
  - change (parseInt (uint_chars (Decimal.D0 Decimal.Nil) ++ c :: rest)
            = parseInt (uint_chars (Decimal.D0 Decimal.Nil))).
    apply parseInt_suffix; [discriminate | assumption..].
  - change (parseInt (uint_chars (Pos.to_uint p) ++ c :: rest)
            = parseInt (uint_chars (Pos.to_uint p))).
    apply parseInt_suffix; [apply Unsigned.to_uint_nonnil | assumption..].
  - change (parseInt (45%N :: uint_chars (Pos.to_uint p) ++ c :: rest)
            = parseInt (45%N :: uint_chars (Pos.to_uint p))).
    apply parseInt_suffix; [apply Unsigned.to_uint_nonnil | assumption..].
Qed.

(** X29: identifiers are read by [parseInt].  A text made of white space, a
    number, and anything that starts with a character other than a digit
    and [x] addresses the row with that number: [" 12abc"] is post 12 for
    [getPostById], [updatePost] and [deletePost], and author 12 for
    [getAuthorById], [updateAuthor] and [deleteAuthor]. *)
Theorem id_read_by_parseInt (ws rest : jsstring) (n : Z) (c : char) :
  List.Forall (fun x => is_whitespace x = true) ws ->
  is_digit c = false -> c <> 120%N -> c <> 88%N ->
  let id := IdString (ws ++ Number_toString n ++ c :: rest) in
  parse_id id = Some n /\
  getPostById id = getPostById (IdNumber n) /\
  (forall postData, updatePost id postData = updatePost (IdNumber n) postData) /\
  deletePost id = deletePost (IdNumber n) /\
  getAuthorById id = getAuthorById (IdNumber n) /\
  (forall authorData, updateAuthor id authorData = updateAuthor (IdNumber n) authorData) /\
  deleteAuthor id = deleteAuthor (IdNumber n).
Proof.
  intros Hws Hc Hx HX id.
  assert (Hid : parse_id id = Some n).
  { unfold id, parse_id. cbn [id_toString].
    rewrite (parseInt_whitespace ws _ Hws). apply parseInt_Number_suffix; assumption. }
  split; [exact Hid|].
  unfold getPostById, updatePost, deletePost, getAuthorById, updateAuthor, deleteAuthor,
    getPostById, getAuthorById.
  rewrite Hid, parse_id_number. repeat split.
Qed.

End Properties.


(** *** The theorems at work on the sample data

    Each theorem that carries hypotheses is applied once to the sample blog,
    its hypotheses discharged by computation. *)

Example createSlug_example :
  createSlug (platform := demo_platform) (js "My First Post!") = js "my-first-post".
Proof. vm_compute. reflexivity. Qed.

Example createSlug_runs_example :
  createSlug (platform := demo_platform) (js "  Hello,   World --  again_1 ")
  = js "hello-world-again_1".
Proof. vm_compute. reflexivity. Qed.


(** Updating post 1 of the sample blog stores the content without its tags. *)
Lemma stored_content_is_sanitized_witness :
  exists p db',
    run_post_write (platform := demo_platform) (WUpdate (IdString (js "1")) soup_again)
                   sample_blog = (Ok (Some p), db') /\
    post_content p = js "Stir".
Proof.
  eexists _, _. split; [vm_compute; reflexivity|].
  refine (proj1 (stored_content_is_sanitized (platform := demo_platform)
                   (WUpdate (IdString (js "1")) soup_again) sample_blog _ _ _)).
  vm_compute. reflexivity.
Defined.


(** An anonymous request for [/admin/authors/new] is sent to [/login]. *)
Lemma session_gate_returns_once_witness :
  is_admin_path (js "/admin/authors/new") = true /\
  exists gated,
    router_use_requireAuth (adminController_index {| q_search := None; q_page := None |}) anonymous_session
      (js "/admin/authors/new") sample_blog
    = (Ok (gated, Redirect (js "/login")), sample_blog).
Proof.
  split; [reflexivity|].
  destruct (session_gate_returns_once (Some (js "secret")) (Some (js "secret"))
              anonymous_session (js "/admin/authors/new") (adminController_index {| q_search := None; q_page := None |})
              sample_blog eq_refl eq_refl eq_refl)
    as (gated & _ & _ & Hgate & _).
  exists gated. exact Hgate.
Defined.

(** Deleting the author of the sample blog keeps its post, without author. *)
Lemma deleteAuthor_orphans_posts_witness :
  foreign_keys sample_blog = true /\
  deleteAuthor (IdString (js "1")) sample_blog = (Ok true, blog_without_author) /\
  length (posts blog_without_author) = length (posts sample_blog) /\
  List.map p_author_id (posts blog_without_author) = [None].
Proof.
  assert (Hcall : deleteAuthor (IdString (js "1")) sample_blog
                  = (Ok true, blog_without_author)) by (vm_compute; reflexivity).
  assert (Hpk : List.NoDup (List.map a_id (authors sample_blog)))
    by (repeat constructor; simpl; tauto).
  split; [reflexivity|]. split; [exact Hcall|].
  split; [|vm_compute; reflexivity].
  destruct (deleteAuthor_orphans_posts (IdString (js "1")) sample_blog
              blog_without_author eq_refl Hpk Hcall)
    as (k & _ & _ & _ & _ & _ & Hlen & _).
  exact Hlen.
Defined.

(** Two authors without email join the author of the sample blog. *)
Lemma blank_email_is_stored_as_null_witness :
  blank (in_email ann) /\ blank (in_email bob) /\
  exists a1 db1 a2 db2,
    createAuthor ann blog_with_author = (Ok (Some a1), db1) /\
    createAuthor bob db1 = (Ok (Some a2), db2) /\
    a_email a1 = None /\ a_email a2 = None.
Proof.
  assert (Hann : blank (in_email ann)) by (right; reflexivity).
  assert (Hbob : blank (in_email bob)) by (left; reflexivity).
  split; [exact Hann|]. split; [exact Hbob|].
  destruct (proj1 (proj2 (blank_email_is_stored_as_null ann bob Hann Hbob)
                     blog_with_author eq_refl))
    as (a1 & db1 & a2 & db2 & H1 & H2 & He1 & He2 & _).
  exists a1, db1, a2, db2. repeat split; assumption.
Defined.

(** Page 2 of the public list over seven posts. *)
Lemma listing_shows_requested_page_witness :
  requests_page (Some (js "2")) 2 /\
  exists all locals,
    getAllPosts seven_posts = (Ok all, seven_posts) /\
    postController_index {| q_search := None; q_page := Some (js "2") |} seven_posts
      = (Ok (Render 200 "posts/index.njk" (LPostList locals)), seven_posts) /\
    shows_page 6 2 all locals.
Proof.
  assert (Hreq : requests_page (Some (js "2")) 2) by (vm_compute; left; split; [discriminate | reflexivity]).
  split; [exact Hreq|].
  eexists. 
  destruct (proj2 (listing_shows_requested_page
                     {| q_search := None; q_page := Some (js "2") |} 2 seven_posts Hreq)
              _ seven_posts ltac:(vm_compute; reflexivity))
    as (locals & Hrender & Hpage).
  exists locals. split; [vm_compute; reflexivity|]. split; [exact Hrender | exact Hpage].
Defined.

(** The empty search on the sample blog. *)
Lemma empty_search_is_list_all_witness :
  searchPosts [] sample_blog = getAllPosts sample_blog /\
  searchAuthors [] sample_blog = getAllAuthors sample_blog.
Proof.
  destruct (empty_search_is_list_all sample_blog) as (Hp & Ha & _).
  split; [exact Hp | exact Ha].
Defined.

(** A locked store: [createPost] returns [null], [getAllPosts] raises. *)
Lemma mutations_catch_reads_propagate_witness :
  createPost (platform := demo_platform) alphabet_soup
             (set_io_faults [Some SQLITE_BUSY] blog_with_author)
  = (Ok None, blog_with_author) /\
  getAllPosts (set_io_faults [Some SQLITE_BUSY] blog_with_author)
  = (Throw (SqliteError SQLITE_BUSY), blog_with_author).
Proof.
  pose proof (mutations_catch_reads_propagate (platform := demo_platform))
    as (Hcreate & _ & _ & _ & _ & _ & Hread & _).
  split.
  - apply (proj2 (Hcreate alphabet_soup)
             (set_io_faults [Some SQLITE_BUSY] blog_with_author) SQLITE_BUSY []).
    left. reflexivity.
  - apply (Hread (set_io_faults [Some SQLITE_BUSY] blog_with_author) SQLITE_BUSY []).
    left. reflexivity.
Defined.

(** *** Where the claims on pagination and on error propagation stop *)

(** C6 as stated fails: a read operation has no [try]/[catch]; when the store
    is locked, [getAllPosts] and [getAllAuthors] raise to their caller. *)
Lemma reads_raise_store_errors :
  getAllPosts (set_io_faults [Some SQLITE_BUSY] sample_blog)
    = (Throw (SqliteError SQLITE_BUSY), sample_blog) /\
  getAllAuthors (set_io_faults [Some SQLITE_BUSY] sample_blog)
    = (Throw (SqliteError SQLITE_BUSY), sample_blog) /\
  ~ never_raises getAllPosts /\
  ~ never_raises getAllAuthors.
Proof.
  split; [reflexivity|]. split; [reflexivity|]. split.
  - intros Hnever.
    destruct (Hnever (set_io_faults [Some SQLITE_BUSY] sample_blog)) as (a & db' & Hr).
    discriminate Hr.
  - intros Hnever.
    destruct (Hnever (set_io_faults [Some SQLITE_BUSY] sample_blog)) as (a & db' & Hr).
    discriminate Hr.
Qed.

(** C5 as stated fails outside the positive pages.  With seven posts and six
    per page, a request for page 0 is served as page 1 and gets six records,
    and a request for page -1 gets one record ([slice] counts a negative index
    from the end), while no record has a position in [(k-1)*6 <= i < k*6] for
    [k = 0] or [k = -1]. *)
Lemma listing_outside_positive_pages :
  exists all,
    getAllPosts seven_posts = (Ok all, seven_posts) /\
    (exists locals,
       parseInt (js "0") = Some 0 /\
       postController_index {| q_search := None; q_page := Some (js "0") |} seven_posts
         = (Ok (Render 200 "posts/index.njk" (LPostList locals)), seven_posts) /\
       length (l_posts locals) = 6%nat /\
       l_currentPage locals = 1 /\
       records_between ((0 - 1) * 6) (0 * 6) all = [] /\
       l_posts locals <> records_between ((0 - 1) * 6) (0 * 6) all) /\
    (exists locals,
       parseInt (js "-1") = Some (-1) /\
       postController_index {| q_search := None; q_page := Some (js "-1") |} seven_posts
         = (Ok (Render 200 "posts/index.njk" (LPostList locals)), seven_posts) /\
       length (l_posts locals) = 1%nat /\
       l_currentPage locals = -1 /\
       records_between ((-1 - 1) * 6) (-1 * 6) all = [] /\
       l_posts locals <> records_between ((-1 - 1) * 6) (-1 * 6) all).
Proof.
  eexists. split; [vm_compute; reflexivity|]. split.
  - eexists. split; [vm_compute; reflexivity|].
    split; [vm_compute; reflexivity|].
    split; [vm_compute; reflexivity|].
    split; [reflexivity|].
    split; [vm_compute; reflexivity|].
    vm_compute. discriminate.
  - eexists. split; [vm_compute; reflexivity|].
    split; [vm_compute; reflexivity|].
    split; [vm_compute; reflexivity|].
    split; [reflexivity|].
    split; [vm_compute; reflexivity|].
    vm_compute. discriminate.
Qed.

(** *** The further properties on the sample data *)

#[local] Existing Instance demo_platform.

Lemma sample_blog_reachable : reachable sample_blog.
Proof.
  assert (H : state_after (CallCreatePost alphabet_soup)
                (state_after (CallCreateAuthor jacob) (open_database 100%N)) = sample_blog)
    by (vm_compute; reflexivity).
  rewrite <- H. apply reachable_call, reachable_call, reachable_open.
Qed.

Lemma ascii_lower_not_upper (c : char) : is_upper (ascii_lower c) = false.
Proof.
  unfold ascii_lower, is_upper, in_range.
  destruct (N.leb_spec 65 c), (N.leb_spec c 90); cbn [andb];
    [|apply andb_false_iff; right; apply N.leb_gt; exact H0
     |apply andb_false_iff; left; apply N.leb_gt; exact H
     |apply andb_false_iff; left; apply N.leb_gt; exact H].
  apply andb_false_iff. right. apply N.leb_gt. lia.
Qed.

Lemma ascii_toLowerCase_small (s : jsstring) :
  (forall c, In c s -> is_upper c = false) -> ascii_toLowerCase s = s.
Proof.
  induction s as [|c s IH]; simpl; intros Hs; [reflexivity|].
  unfold ascii_lower at 1. rewrite (Hs c (or_introl eq_refl)).
  f_equal. apply IH. intros d Hd. apply Hs. right. exact Hd.
Qed.

Lemma createPost_same_slug_rejected_witness :
  createSlug (in_title soup_twin) = createSlug (in_title alphabet_soup) /\
  exists db2, createPost soup_twin sample_blog = (Ok None, db2) /\ same_data sample_blog db2.
Proof.
  split; [vm_compute; reflexivity|].
  refine (createPost_same_slug_rejected alphabet_soup soup_twin blog_with_author
            sample_blog _ _ _); vm_compute; reflexivity.
Defined.

Lemma createPost_read_back_witness :
  exists p,
    createPost alphabet_soup blog_with_author = (Ok (Some p), sample_blog) /\
    getPostBySlug (post_slug p) sample_blog = (Ok (Some p), sample_blog).
Proof.
  eexists. split; [vm_compute; reflexivity|].
  match goal with
  | |- _ = (Ok (Some ?p), _) => pose (q := p)
  end.
  assert (Hcreate : createPost alphabet_soup blog_with_author = (Ok (Some q), sample_blog))
    by (vm_compute; reflexivity).
  destruct (createPost_read_back alphabet_soup blog_with_author sample_blog q Hcreate eq_refl)
    as (_ & Hslug & _).
  exact Hslug.
Defined.

Lemma createPost_null_after_insert_witness :
  exists db' row,
    createPost alphabet_soup failing_read_back = (Ok None, db') /\
    posts db' = [row] /\ p_slug row = js "alphabet-soup".
Proof.
  destruct (createPost_null_after_insert alphabet_soup failing_read_back SQLITE_BUSY []
              eq_refl ltac:(intros row []) ltac:(vm_compute; reflexivity))
    as (db' & row & Hc & Hp & _ & Hs).
  exists db', row. split; [exact Hc|]. split; [exact Hp | exact Hs].
Defined.

Lemma createPost_unknown_author_rejected_witness :
  exists db', createPost ghost_post blog_with_author = (Ok None, db') /\
              same_data blog_with_author db'.
Proof.
  refine (createPost_unknown_author_rejected ghost_post blog_with_author 7
            eq_refl eq_refl _ _).
  - discriminate.
  - intros a [<- | []]. vm_compute. discriminate.
Defined.

Lemma updatePost_keeps_identity_witness :
  exists p db',
    updatePost (IdString (js "1")) soup_again sample_blog = (Ok (Some p), db') /\
    post_id p = 1 /\ post_createdAt p = 100%N /\ authors db' = authors sample_blog.
Proof.
  eexists _, _. split; [vm_compute; reflexivity|].
  split; [reflexivity|]. split; [reflexivity|].
  refine (proj1 (proj2 (updatePost_keeps_identity (IdString (js "1")) soup_again
                          sample_blog _ _ _))).
  vm_compute. reflexivity.
Defined.

Lemma updatePost_slug_of_other_post_rejected_witness :
  exists db', updatePost (IdString (js "2")) soup_twin two_posts = (Ok None, db') /\
              same_data two_posts db'.
Proof.
  refine (updatePost_slug_of_other_post_rejected (IdString (js "2")) soup_twin two_posts
            _ (or_introl eq_refl) _ _).
  - vm_compute. discriminate.
  - vm_compute. reflexivity.
Defined.

Lemma deletePost_removes_row_witness :
  exists db',
    deletePost (IdString (js "1")) sample_blog = (Ok true, db') /\
    authors db' = authors sample_blog.
Proof.
  eexists. split; [vm_compute; reflexivity|].
  refine (proj1 (deletePost_removes_row (IdString (js "1")) sample_blog _ true _)).
  vm_compute. reflexivity.
Defined.

Lemma post_unknown_id_witness :
  getPostById (IdString (js "abc")) sample_blog = (Ok None, sample_blog) /\
  exists db', deletePost (IdString (js "abc")) sample_blog = (Ok false, db') /\
              same_data sample_blog db'.
Proof.
  destruct (post_unknown_id (IdString (js "abc")) soup_again sample_blog
              ltac:(intros row _; vm_compute; discriminate)) as (Hget & _ & Hdel).
  split; [apply Hget; reflexivity | exact Hdel].
Defined.

Lemma reachable_posts_refer_to_authors_witness :
  exists a, In a (authors sample_blog) /\ a_id a = 1.
Proof.
  refine (reachable_posts_refer_to_authors sample_blog _ 1 sample_blog_reachable
            (or_introl eq_refl) _).
  reflexivity.
Defined.

Lemma two_posts_reachable : reachable two_posts.
Proof.
  assert (H : state_after (CallCreatePost soup_again) sample_blog = two_posts)
    by (vm_compute; reflexivity).
  rewrite <- H. apply reachable_call, sample_blog_reachable.
Qed.

Lemma reachable_slugs_and_emails_unique_witness :
  exists x y,
    nth_error (posts two_posts) 0 = Some x /\ nth_error (posts two_posts) 1 = Some y /\
    p_slug x <> p_slug y.
Proof.
  eexists _, _. split; [reflexivity|]. split; [reflexivity|].
  intros Heq.
  pose proof (proj1 (reachable_slugs_and_emails_unique two_posts two_posts_reachable)
                0%nat 1%nat _ _ eq_refl eq_refl Heq) as H01.
  discriminate H01.
Defined.

Lemma createAuthor_same_email_rejected_witness :
  exists db2, createAuthor jacob_again blog_with_author = (Ok None, db2) /\
              same_data blog_with_author db2.
Proof.
  refine (createAuthor_same_email_rejected jacob jacob_again (open_database 100%N)
            blog_with_author _ (js "jacob@example.org") _ eq_refl eq_refl _).
  - vm_compute. reflexivity.
  - discriminate.
Defined.

Lemma createAuthor_read_back_witness :
  exists a,
    createAuthor jacob (open_database 100%N) = (Ok (Some a), blog_with_author) /\
    authors blog_with_author = [a] /\
    getAuthorById (IdNumber (a_id a)) blog_with_author = (Ok (Some a), blog_with_author).
Proof.
  eexists. split; [vm_compute; reflexivity|].
  destruct (createAuthor_read_back jacob (open_database 100%N) blog_with_author _
              ltac:(vm_compute; reflexivity)) as (_ & Hrows & _ & Hget).
  split; [exact Hrows | apply Hget; reflexivity].
Defined.

Lemma author_unknown_id_witness :
  getAuthorById (IdString (js "2")) blog_with_author = (Ok None, blog_with_author) /\
  exists db', deleteAuthor (IdString (js "2")) blog_with_author = (Ok false, db') /\
              same_data blog_with_author db'.
Proof.
  destruct (author_unknown_id (IdString (js "2")) bob blog_with_author
              ltac:(intros a [<- | []]; vm_compute; discriminate)) as (Hget & _ & Hdel).
  split; [apply Hget; reflexivity | exact Hdel].
Defined.

Lemma updateAuthor_email_of_other_rejected_witness :
  exists db', updateAuthor (IdString (js "2")) jacob_again two_authors = (Ok None, db') /\
              same_data two_authors db'.
Proof.
  refine (updateAuthor_email_of_other_rejected (IdString (js "2")) jacob_again two_authors
            _ (js "jacob@example.org") (or_introl eq_refl) _ eq_refl eq_refl _).
  - vm_compute. discriminate.
  - discriminate.
Defined.

Lemma updateAuthor_keeps_own_email_witness :
  exists a db',
    updateAuthor (IdString (js "1")) jacob_again sample_blog = (Ok (Some a), db') /\
    a_name a = js "J. Doe" /\ a_email a = Some (js "jacob@example.org") /\
    posts db' = posts sample_blog.
Proof.
  destruct (updateAuthor_keeps_own_email (IdString (js "1")) jacob_again sample_blog _
              sample_blog_reachable eq_refl (or_introl eq_refl) eq_refl eq_refl)
    as (db' & Hu & Hp & _).
  eexists _, db'. split; [exact Hu|]. split; [reflexivity|]. split; [reflexivity | exact Hp].
Defined.

Lemma post_counts_add_up_witness :
  exists l,
    getAuthorsWithPostCount sample_blog = (Ok l, sample_blog) /\
    sum (List.map snd l) = 1.
Proof.
  eexists. split; [vm_compute; reflexivity|].
  refine (proj2 (proj2 (post_counts_add_up sample_blog sample_blog _
                          sample_blog_reachable _))).
  vm_compute. reflexivity.
Defined.

Lemma returned_post_author_witness :
  exists p pa a,
    getPostById (IdNumber 1) sample_blog = (Ok (Some p), sample_blog) /\
    post_author p = Some pa /\ In a (authors sample_blog) /\ pa_name pa = a_name a.
Proof.
  pose proof (returned_post_author (IdNumber 1) sample_blog sample_blog _
                sample_blog_reachable ltac:(vm_compute; reflexivity)) as H.
  cbn [post_author] in H. destruct H as (a & Hin & _ & _ & Hpa).
  eexists _, _, a. split; [vm_compute; reflexivity|]. split; [reflexivity|].
  split; [exact Hin|]. rewrite Hpa. reflexivity.
Defined.

Lemma search_finds_every_occurrence_witness :
  exists ps p,
    searchPosts (js "SOUP") sample_blog = (Ok ps, sample_blog) /\
    In p ps /\ post_title p = js "Alphabet Soup!".
Proof.
  assert (Hs : exists ps, searchPosts (js "SOUP") sample_blog = (Ok ps, sample_blog))
    by (eexists; vm_compute; reflexivity).
  destruct Hs as (ps & Hs).
  assert (Ha : exists p, getAllPosts sample_blog = (Ok [p], sample_blog) /\
                         post_title p = js "Alphabet Soup!")
    by (eexists; split; vm_compute; reflexivity).
  destruct Ha as (p & Ha & Ht).
  exists ps, p. split; [exact Hs|]. split; [|exact Ht].
  apply (proj2 (proj1 (search_finds_every_occurrence (js "SOUP") sample_blog)
                  ps sample_blog [p] sample_blog Hs Ha) p (or_introl eq_refl)).
  rewrite Ht. vm_compute. reflexivity.
Defined.

Lemma adminController_store_same_title_twice_witness :
  exists db1 db2 reply,
    adminController_store soup_form (open_database 100%N)
    = (Ok (RedirectTo (js "/admin/posts")), db1) /\
    adminController_store twin_form db1 = (Ok reply, db2) /\
    posts db2 = posts db1.
Proof.
  assert (Hfirst : exists db1, adminController_store soup_form (open_database 100%N)
                               = (Ok (RedirectTo (js "/admin/posts")), db1))
    by (eexists; vm_compute; reflexivity).
  destruct Hfirst as (db1 & Hfirst).
  destruct (adminController_store_same_title_twice soup_form twin_form
              (open_database 100%N) db1 (js "Alphabet Soup!") (js "alphabet soup")
              Hfirst eq_refl eq_refl)
    as (db2 & Hsecond & Hsame).
  - vm_compute. reflexivity.
  - intros [H | H]; discriminate H.
  - intros [H | H]; discriminate H.
  - intros [H | H]; discriminate H.
  - exists db1, db2. eexists. split; [exact Hfirst|]. split; [exact Hsecond|].
    destruct Hsame as (_ & Hp & _). exact Hp.
Defined.

Lemma adminController_unknown_id_witness :
  adminController_edit (js "99") sample_blog
  = (Ok (RenderPage 404 "error.njk" (LErrorPage "Post not found" (ErrStatus 404))),
     sample_blog).
Proof.
  refine (proj1 (adminController_unknown_id (js "99") soup_form sample_blog _) eq_refl).
  intros row [<- | []]. vm_compute. discriminate.
Defined.

Lemma authorController_unknown_id_witness :
  authorController_edit (js "99") sample_blog
  = (Ok (RenderPage 404 "error.njk" (LErrorPage "Author not found" (ErrStatus 404))),
     sample_blog).
Proof.
  refine (proj1 (authorController_unknown_id (js "99") bob_form sample_blog _) eq_refl).
  intros a [<- | []]. vm_compute. discriminate.
Defined.

Lemma createSlug_idempotent_witness :
  createSlug (createSlug (js "Alphabet Soup!")) = createSlug (js "Alphabet Soup!").
Proof.
  apply createSlug_idempotent.
  - intros s c Hc. simpl in Hc. unfold ascii_toLowerCase in Hc.
    apply in_map_iff in Hc as (d & <- & _). apply ascii_lower_not_upper.
  - intros s Hs. simpl. apply ascii_toLowerCase_small. intros c Hc. apply (Hs c Hc).
Defined.

Lemma id_read_by_parseInt_witness :
  parse_id (IdString (js " 12abc")) = Some 12 /\
  getPostById (IdString (js " 12abc")) = getPostById (IdNumber 12).
Proof.
  destruct (id_read_by_parseInt (js " ") (js "bc") 12 97%N) as (Hid & Hget & _).
  - repeat constructor.
  - reflexivity.
  - discriminate.
  - discriminate.
  - split; [exact Hid | exact Hget].
Defined.
